(** * Infernal: the simulation core of [Infernal.py], embedded and verified

    The game is a single Python module built on pygame.  This development
    embeds the parts that decide the game's rules: the Python numeric tower
    the code computes with, pygame's rectangles, the class-wide difficulty
    tier, the player, bullets, enemies, the room generator, the upgrade offers
    and the level transition.  Rendering, sound and animation frames are left
    out; sizes that come from image files are parameters ([Assets]). *)

From Stdlib Require Import ZArith List Bool String Lia Floats.
Import ListNotations.

Set Warnings "-inexact-float".
Local Open Scope Z_scope.

(* ------------------------------------------------------------------ *)
(** * Python numbers *)
(* ------------------------------------------------------------------ *)

(** A Python number is an [int] (unbounded) or a [float] (IEEE binary64,
    which is what the kernel's primitive floats are). *)
Inductive num : Type :=
| PInt (z : Z)
| PFloat (f : float).

(** [float(z)]: the nearest binary64 value, ties to even. *)
Definition Z2float (z : Z) : float :=
  SF2Prim (binary_normalize prec emax z 0 false).

(** Truncation toward zero of a finite float.  Python's [int(x)] raises on
    an infinity or a NaN; no call of the game reaches one and the embedding
    answers 0 there. *)
Definition float_trunc (f : float) : Z :=
  match Prim2SF f with
  | S754_finite s m e =>
      let v := if 0 <=? e then Z.pos m * 2 ^ e else Z.pos m / 2 ^ (- e) in
      if s then - v else v
  | _ => 0
  end.

(** The nearest integer of a finite float, halves away from zero, as C's
    [round]; 0 on an infinity or a NaN, as for [float_trunc]. *)
Definition float_round (f : float) : Z :=
  match Prim2SF f with
  | S754_finite s m e =>
      let v :=
        if 0 <=? e then Z.pos m * 2 ^ e
        else (2 * Z.pos m + 2 ^ (- e)) / (2 * 2 ^ (- e)) in
      if s then - v else v
  | _ => 0
  end.

Definition to_float (a : num) : float :=
  match a with PInt z => Z2float z | PFloat f => f end.

Definition py_int (a : num) : Z :=
  match a with PInt z => z | PFloat f => float_trunc f end.

Definition py_add (a b : num) : num :=
  match a, b with
  | PInt x, PInt y => PInt (x + y)
  | _, _ => PFloat (to_float a + to_float b)
  end.

Definition py_sub (a b : num) : num :=
  match a, b with
  | PInt x, PInt y => PInt (x - y)
  | _, _ => PFloat (to_float a - to_float b)
  end.

Definition py_mul (a b : num) : num :=
  match a, b with
  | PInt x, PInt y => PInt (x * y)
  | _, _ => PFloat (to_float a * to_float b)
  end.

Definition py_neg (a : num) : num :=
  match a with PInt x => PInt (- x) | PFloat f => PFloat (- f) end.

(** Comparisons.  Between an [int] and a [float] Python compares the exact
    values; converting the [int] first agrees with that below 2^53. *)
Definition py_lt (a b : num) : bool :=
  match a, b with
  | PInt x, PInt y => x <? y
  | _, _ => PrimFloat.ltb (to_float a) (to_float b)
  end.

Definition py_le (a b : num) : bool :=
  match a, b with
  | PInt x, PInt y => x <=? y
  | _, _ => PrimFloat.leb (to_float a) (to_float b)
  end.

Definition py_eq (a b : num) : bool :=
  match a, b with
  | PInt x, PInt y => x =? y
  | _, _ => PrimFloat.eqb (to_float a) (to_float b)
  end.

(** The builtins [min(a, b)] and [max(a, b)] keep their first argument
    unless the second is strictly smaller (larger). *)
Definition py_min (a b : num) : num := if py_lt b a then b else a.
Definition py_max (a b : num) : num := if py_lt a b then b else a.

(** [a / b] is true division: always a float, [ZeroDivisionError] when
    [b == 0] ([None] here). *)
Definition py_truediv (a b : num) : option num :=
  if py_eq b (PInt 0) then None
  else Some (PFloat (to_float a / to_float b)).

(* ------------------------------------------------------------------ *)
(** * pygame rectangles *)
(* ------------------------------------------------------------------ *)

Record Rect : Type := mkRect { rx : Z; ry : Z; rw : Z; rh : Z }.

Definition left (r : Rect) : Z := rx r.
Definition top (r : Rect) : Z := ry r.
Definition right (r : Rect) : Z := rx r + rw r.
Definition bottom (r : Rect) : Z := ry r + rh r.
Definition centerx (r : Rect) : Z := rx r + rw r / 2.
Definition centery (r : Rect) : Z := ry r + rh r / 2.

Definition set_x (r : Rect) (v : Z) : Rect := mkRect v (ry r) (rw r) (rh r).
Definition set_y (r : Rect) (v : Z) : Rect := mkRect (rx r) v (rw r) (rh r).
Definition set_left := set_x.
Definition set_top := set_y.
Definition set_right (r : Rect) (v : Z) : Rect := set_x r (v - rw r).
Definition set_bottom (r : Rect) (v : Z) : Rect := set_y r (v - rh r).

(** [rect.center = (cx, cy)] *)
Definition set_center (r : Rect) (c : Z * Z) : Rect :=
  mkRect (fst c - rw r / 2) (snd c - rh r / 2) (rw r) (rh r).

(** [surface.get_rect(center=(cx, cy))] for a surface of the given size. *)
Definition get_rect_center (size : Z * Z) (c : Z * Z) : Rect :=
  set_center (mkRect 0 0 (fst size) (snd size)) c.

(** [Rect.colliderect]: rectangles of zero width or height collide with
    nothing; otherwise the open interiors must overlap on both axes. *)
Definition colliderect (a b : Rect) : bool :=
  if (rw a =? 0) || (rh a =? 0) || (rw b =? 0) || (rh b =? 0) then false
  else
    (Z.min (rx a) (rx a + rw a) <? Z.max (rx b) (rx b + rw b))
    && (Z.min (ry a) (ry a + rh a) <? Z.max (ry b) (ry b + rh b))
    && (Z.min (rx b) (rx b + rw b) <? Z.max (rx a) (rx a + rw a))
    && (Z.min (ry b) (ry b + rh b) <? Z.max (ry a) (ry a + rh a)).

(** [Rect.collidepoint] *)
Definition collidepoint (r : Rect) (p : Z * Z) : bool :=
  (rx r <=? fst p) && (fst p <? rx r + rw r)
  && (ry r <=? snd p) && (snd p <? ry r + rh r).

(** The integer that a [Rect] keeps for a number assigned to one of its
    coordinates: pygame rounds a float to the nearest integer. *)
Definition rect_store (a : num) : Z :=
  match a with PInt z => z | PFloat f => float_round f end.

(** [rect.x += d] and [rect.y += d]: the sum is computed in Python and
    stored in the rectangle. *)
Definition rect_move_x (r : Rect) (d : num) : Rect :=
  set_x r (rect_store (py_add (PInt (rx r)) d)).
Definition rect_move_y (r : Rect) (d : num) : Rect :=
  set_y r (rect_store (py_add (PInt (ry r)) d)).

(* ------------------------------------------------------------------ *)
(** * Constants *)
(* ------------------------------------------------------------------ *)

Module Constants.
Definition GAME_WIDTH : Z := 800.
Definition GAME_HEIGHT : Z := 700.
Definition GAME_FPS : Z := 60.
Definition GAME_TILE_SIZE : Z := 40.
Definition DEFAULT_SAVE_ZONE_RANGE : Z := 70.
Definition INNER_WALL_MARGIN : Z := 2.
Definition INNER_WALL_MULTIPLIER : Z := 3.
Definition ENEMY_SPAWN_MARGIN : Z := 2.
Definition MOUSE_LEFT_BUTTON : Z := 1.
End Constants.

(** [game.WIDTH], [game.HEIGHT], [game.FPS] and [game.TILE_SIZE] are set
    from [Constants] in [Game.__init__] and never reassigned. *)
Definition WIDTH : Z := Constants.GAME_WIDTH.
Definition HEIGHT : Z := Constants.GAME_HEIGHT.
Definition FPS : Z := Constants.GAME_FPS.
Definition TILE_SIZE : Z := Constants.GAME_TILE_SIZE.

(** Sizes of the sprites' images, which are loaded from files that are not
    part of the source. *)
Record Assets : Type := mkAssets {
  player_size : Z * Z;
  bullet_size : Z * Z;
  enemy_size : Z * Z;
  boss_size : Z * Z
}.

(* ------------------------------------------------------------------ *)
(** * Class-wide state *)
(* ------------------------------------------------------------------ *)

(** The class attributes the code mutates: the enemy tier
    ([Enemy.max_health], [Enemy.speed], [Enemy.damage]), the level counter
    [Room.reached_level], [Bullet.CURRENT_BULLET_SPEED] and the shared
    [Room.outer_walls]. *)
Record Statics : Type := mkStatics {
  enemy_max_health : num;
  enemy_speed : num;
  enemy_damage : num;
  reached_level : Z;
  bullet_speed : num;
  outer_walls : option (list Rect)
}.

Definition with_enemy_max_health (s : Statics) (v : num) : Statics :=
  mkStatics v (enemy_speed s) (enemy_damage s) (reached_level s)
            (bullet_speed s) (outer_walls s).
Definition with_enemy_speed (s : Statics) (v : num) : Statics :=
  mkStatics (enemy_max_health s) v (enemy_damage s) (reached_level s)
            (bullet_speed s) (outer_walls s).
Definition with_enemy_damage (s : Statics) (v : num) : Statics :=
  mkStatics (enemy_max_health s) (enemy_speed s) v (reached_level s)
            (bullet_speed s) (outer_walls s).
Definition with_reached_level (s : Statics) (v : Z) : Statics :=
  mkStatics (enemy_max_health s) (enemy_speed s) (enemy_damage s) v
            (bullet_speed s) (outer_walls s).
Definition with_bullet_speed (s : Statics) (v : num) : Statics :=
  mkStatics (enemy_max_health s) (enemy_speed s) (enemy_damage s)
            (reached_level s) v (outer_walls s).
Definition with_outer_walls (s : Statics) (v : option (list Rect)) : Statics :=
  mkStatics (enemy_max_health s) (enemy_speed s) (enemy_damage s)
            (reached_level s) (bullet_speed s) v.

(* ------------------------------------------------------------------ *)
(** * Sprites *)
(* ------------------------------------------------------------------ *)

(** The attributes of a [Player] instance that the rules read or write
    (images and the animation frame index are left to the renderer). *)
Record player : Type := mkPlayer {
  damage : Z;
  earned_points : Z;
  rect : Rect;
  shoot_cooldown : Z;
  is_immune : bool;
  immunity_timer : Z;
  move_set : Z;
  speed : num;
  max_health : Z;
  current_health : Z;
  shoot_cooldown_set : Z;
  immunity_duration : Z
}.

Definition with_damage (p : player) (v : Z) : player :=
  mkPlayer v (earned_points p) (rect p) (shoot_cooldown p) (is_immune p)
    (immunity_timer p) (move_set p) (speed p) (max_health p)
    (current_health p) (shoot_cooldown_set p) (immunity_duration p).
Definition with_earned_points (p : player) (v : Z) : player :=
  mkPlayer (damage p) v (rect p) (shoot_cooldown p) (is_immune p)
    (immunity_timer p) (move_set p) (speed p) (max_health p)
    (current_health p) (shoot_cooldown_set p) (immunity_duration p).
Definition with_rect (p : player) (v : Rect) : player :=
  mkPlayer (damage p) (earned_points p) v (shoot_cooldown p) (is_immune p)
    (immunity_timer p) (move_set p) (speed p) (max_health p)
    (current_health p) (shoot_cooldown_set p) (immunity_duration p).
Definition with_shoot_cooldown (p : player) (v : Z) : player :=
  mkPlayer (damage p) (earned_points p) (rect p) v (is_immune p)
    (immunity_timer p) (move_set p) (speed p) (max_health p)
    (current_health p) (shoot_cooldown_set p) (immunity_duration p).
Definition with_is_immune (p : player) (v : bool) : player :=
  mkPlayer (damage p) (earned_points p) (rect p) (shoot_cooldown p) v
    (immunity_timer p) (move_set p) (speed p) (max_health p)
    (current_health p) (shoot_cooldown_set p) (immunity_duration p).
Definition with_immunity_timer (p : player) (v : Z) : player :=
  mkPlayer (damage p) (earned_points p) (rect p) (shoot_cooldown p)
    (is_immune p) v (move_set p) (speed p) (max_health p)
    (current_health p) (shoot_cooldown_set p) (immunity_duration p).
Definition with_move_set (p : player) (v : Z) : player :=
  mkPlayer (damage p) (earned_points p) (rect p) (shoot_cooldown p)
    (is_immune p) (immunity_timer p) v (speed p) (max_health p)
    (current_health p) (shoot_cooldown_set p) (immunity_duration p).
Definition with_speed (p : player) (v : num) : player :=
  mkPlayer (damage p) (earned_points p) (rect p) (shoot_cooldown p)
    (is_immune p) (immunity_timer p) (move_set p) v (max_health p)
    (current_health p) (shoot_cooldown_set p) (immunity_duration p).
Definition with_max_health (p : player) (v : Z) : player :=
  mkPlayer (damage p) (earned_points p) (rect p) (shoot_cooldown p)
    (is_immune p) (immunity_timer p) (move_set p) (speed p) v
    (current_health p) (shoot_cooldown_set p) (immunity_duration p).
Definition with_current_health (p : player) (v : Z) : player :=
  mkPlayer (damage p) (earned_points p) (rect p) (shoot_cooldown p)
    (is_immune p) (immunity_timer p) (move_set p) (speed p) (max_health p)
    v (shoot_cooldown_set p) (immunity_duration p).
Definition with_shoot_cooldown_set (p : player) (v : Z) : player :=
  mkPlayer (damage p) (earned_points p) (rect p) (shoot_cooldown p)
    (is_immune p) (immunity_timer p) (move_set p) (speed p) (max_health p)
    (current_health p) v (immunity_duration p).

(** A [Bullet] instance. *)
Record bullet : Type := mkBullet {
  b_rect : Rect;
  b_dx : num;
  b_dy : num;
  b_lifetime : Z
}.

(** An [Enemy] or [BossEnemy] instance.  [e_damage] is the instance
    attribute [self.damage], which only [BossEnemy.__init__] assigns. *)
Inductive enemy_class : Type := IsEnemy | IsBossEnemy.

Record enemy : Type := mkEnemy {
  e_class : enemy_class;
  e_rect : Rect;
  e_speed : num;
  e_move_timer : Z;
  e_dx : num;
  e_dy : num;
  e_health : num;
  e_damage : option num
}.

Definition with_e_health (e : enemy) (v : num) : enemy :=
  mkEnemy (e_class e) (e_rect e) (e_speed e) (e_move_timer e) (e_dx e)
    (e_dy e) v (e_damage e).

Module Enemy.
Definition MAX_SPEED : Z := 20.
Definition MAX_DAMAGE : Z := 5.
Definition POINTS : Z := 5.
Definition BOSS_LEVEL_INTERVAL : Z := 4.
Definition DEFAULT_DAMAGE : Z := 1.

Definition get_damage (s : Statics) : num := enemy_damage s.
Definition increase_damage (number : num) (s : Statics) : Statics :=
  with_enemy_damage s (py_min (PInt MAX_DAMAGE) (py_add (enemy_damage s) number)).
Definition set_damage (number : num) (s : Statics) : Statics :=
  with_enemy_damage s (py_min (PInt MAX_DAMAGE) number).
Definition set_speed (number : num) (s : Statics) : Statics :=
  with_enemy_speed s (py_min (PInt MAX_SPEED) number).
Definition increase_speed (number : num) (s : Statics) : Statics :=
  with_enemy_speed s (py_min (PInt MAX_SPEED) (py_add (enemy_speed s) number)).
Definition get_speed (s : Statics) : num := enemy_speed s.
Definition set_max_health (number : num) (s : Statics) : Statics :=
  with_enemy_max_health s number.
Definition increase_max_health (number : num) (s : Statics) : Statics :=
  with_enemy_max_health s (py_add (enemy_max_health s) number).

(** [Enemy.__init__(x, y, game)] *)
Definition init (a : Assets) (s : Statics) (x y : Z) : enemy :=
  mkEnemy IsEnemy (get_rect_center (enemy_size a) (x, y)) (get_speed s)
    0 (PInt 0) (PInt 0) (enemy_max_health s) None.
End Enemy.

(** [Room]'s class attributes and static methods.  They come before
    [BossEnemy], whose constructor reads the level; the room generator itself
    is [Room] below. *)
Module RoomClass.
Definition POINTS : Z := 10.
Definition WALL_VARIATION_RANGE : Z := 3.
Definition ENEMY_SPAWN_SAFE_MULTIPLIER : Z := 2.
Definition BOSS_ROOM_ENEMY_COUNT : Z := 1.
Definition DEFAULT_ROOM_LEVEL : Z := 0.
Definition INNER_WALL_MARGIN : Z := Constants.INNER_WALL_MARGIN.
Definition INNER_WALL_MULTIPLIER : Z := Constants.INNER_WALL_MULTIPLIER.

Definition set_reached_level (number : Z) (s : Statics) : Statics :=
  with_reached_level s number.
Definition increase_reached_level (number : Z) (s : Statics) : Statics :=
  with_reached_level s (reached_level s + number).
Definition get_reached_level (s : Statics) : Z := reached_level s.
End RoomClass.


Module BossEnemy.
Definition max_health : Z := 30.
Definition MAX_SPEED : Z := 20.
Definition MAX_DAMAGE : Z := 10.
Definition damage : Z := 5.
Definition speed : Z := 1.
Definition POINTS : Z := 100.
Definition BOSS_HEALTH_SCALING : Z := 3.
Definition DAMAGE_SCALING_DIVISOR : Z := 4.

Definition get_speed (s : Statics) : num :=
  py_min (PInt MAX_SPEED)
    (py_add (PInt speed)
       (PInt (py_int (py_mul (PFloat (1 / 3)) (Enemy.get_speed s))))).

(** The level-scaled damage [__init__] stores in [self.damage]:
    [min(MAX_DAMAGE, damage * ((level + 1) / DAMAGE_SCALING_DIVISOR))]. *)
Definition scaled_damage (s : Statics) : num :=
  py_min (PInt MAX_DAMAGE)
    (py_mul (PInt damage)
       (PFloat (Z2float (RoomClass.get_reached_level s + 1)
                / Z2float DAMAGE_SCALING_DIVISOR))).

(** [BossEnemy.__init__(x, y, game)]: the [Enemy] constructor, then the
    boss's own speed, health, damage and rectangle. *)
Definition init (a : Assets) (s : Statics) (x y : Z) : enemy :=
  let e := Enemy.init a s x y in
  mkEnemy IsBossEnemy (get_rect_center (boss_size a) (x, y)) (get_speed s)
    (e_move_timer e) (e_dx e) (e_dy e)
    (PInt (max_health + BOSS_HEALTH_SCALING * RoomClass.get_reached_level s))
    (Some (scaled_damage s)).

(** The static method [get_damage] returns the class attribute
    [BossEnemy.damage], not an instance's [self.damage]. *)
Definition get_damage : num := PInt damage.
End BossEnemy.

(* ------------------------------------------------------------------ *)
(** * Outcomes, random draws and events *)
(* ------------------------------------------------------------------ *)

Inductive exn : Type :=
| ZeroDivisionError
| ValueError
| IndexError
| AttributeError
| UnboundLocalError.

(** Why a call did not return: its loop was still running when the supply
    of random draws or of events ended, the process exited ([sys.exit]), or
    an exception was raised. *)
Inductive halt : Type :=
| OutOfDraws
| OutOfEvents
| SystemExit
| Raised (e : exn).

Inductive res (A : Type) : Type :=
| Ok (a : A)
| Halt (h : halt).
Arguments Ok {A} a.
Arguments Halt {A} h.

Definition res_bind {A B : Type} (r : res A) (k : A -> res B) : res B :=
  match r with Ok a => k a | Halt h => Halt h end.

Definition of_option {A : Type} (e : exn) (o : option A) : res A :=
  match o with Some a => Ok a | None => Halt (Raised e) end.

Inductive event : Type :=
| QUIT
| MOUSEBUTTONDOWN (pos : Z * Z) (button : Z)
| KEYDOWN (key : Z)
| OtherEvent.

(** What the environment supplies: the raw values behind the calls to
    [random] in the order they are made, and the batches of events that the
    successive calls to [pygame.event.get()] return. *)
Record Input : Type := mkInput {
  draws : list Z;
  events : list (list event)
}.

(** Computations that consume input and may halt. *)
Definition M (A : Type) : Type := Input -> res (A * Input).

Definition ret {A : Type} (a : A) : M A := fun i => Ok (a, i).
Definition bind {A B : Type} (m : M A) (k : A -> M B) : M B :=
  fun i => match m i with Ok (a, i') => k a i' | Halt h => Halt h end.
Definition stop {A : Type} (h : halt) : M A := fun _ => Halt h.

Declare Scope monad_scope.
Delimit Scope monad_scope with monad.
Notation "x <- m ;; k" := (bind m (fun x => k))
  (at level 61, m at next level, right associativity) : monad_scope.
Notation "' pat <- m ;; k" := (bind m (fun x => let pat := x in k))
  (at level 61, pat pattern, m at next level, right associativity) : monad_scope.
Local Open Scope monad_scope.

Definition draw : M Z :=
  fun i => match draws i with
           | d :: rest => Ok (d, mkInput rest (events i))
           | [] => Halt OutOfDraws
           end.

(** [random.randint(a, b)]: uniform on [a..b]; [ValueError] on an empty
    range. *)
Definition randint (a b : Z) : M Z :=
  if b <? a then stop (Raised ValueError)
  else d <- draw ;; ret (a + d mod (b - a + 1)).

(** [random.choice(seq)]: [IndexError] on an empty sequence. *)
Definition choice {A : Type} (l : list A) : M A :=
  match l with
  | [] => stop (Raised IndexError)
  | x :: _ =>
      d <- draw ;; ret (nth (Z.to_nat (d mod Z.of_nat (List.length l))) l x)
  end.

(** [pygame.event.get()] *)
Definition event_get : M (list event) :=
  fun i => match events i with
           | b :: rest => Ok (b, mkInput (draws i) rest)
           | [] => Halt OutOfEvents
           end.

(** [pygame.sprite.spritecollide(sprite, group, False)] on rectangles. *)
Definition spritecollide {A : Type} (r : Rect) (rect_of : A -> Rect)
    (group : list A) : list A :=
  filter (fun x => colliderect r (rect_of x)) group.

Definition nonempty {A : Type} (l : list A) : bool :=
  match l with [] => false | _ => true end.

(* ------------------------------------------------------------------ *)
(** * Bullet *)
(* ------------------------------------------------------------------ *)

Module Bullet.
Definition MAX_BULLET_SPEED : Z := 30.
Definition DEFAULT_BULLET_SPEED : Z := 7.
Definition INITIAL_LIFETIME : Z := 60.

Definition set_bullet_speed (number : num) (s : Statics) : Statics :=
  with_bullet_speed s (py_min (PInt MAX_BULLET_SPEED) number).
Definition increase_bullet_speed (number : num) (s : Statics) : Statics :=
  with_bullet_speed s
    (py_min (PInt MAX_BULLET_SPEED) (py_add (bullet_speed s) number)).

(** [Bullet.__init__(x, y, dx, dy, game)] *)
Definition init (a : Assets) (s : Statics) (x y : Z) (dx dy : num) : bullet :=
  mkBullet (get_rect_center (bullet_size a) (x, y))
    (py_mul dx (bullet_speed s)) (py_mul dy (bullet_speed s))
    INITIAL_LIFETIME.

(** The loop over [hits]: the first enemy whose rectangle the bullet's
    overlaps loses the player's damage; [None] when there is no hit. *)
Fixpoint hit_first (r : Rect) (dmg : Z) (enemies : list enemy)
  : option (list enemy) :=
  match enemies with
  | [] => None
  | e :: rest =>
      if colliderect r (e_rect e)
      then Some (with_e_health e (py_sub (e_health e) (PInt dmg)) :: rest)
      else option_map (cons e) (hit_first r dmg rest)
  end.

(** [Bullet.update(walls, enemies, player)].  The result is the bullet
    after the move, whether [kill()] was called on it, and the enemies. *)
Definition update (b : bullet) (walls : list Rect) (enemies : list enemy)
    (p : player) : bullet * bool * list enemy :=
  let r := rect_move_y (rect_move_x (b_rect b) (b_dx b)) (b_dy b) in
  let b := mkBullet r (b_dx b) (b_dy b) (b_lifetime b - 1) in
  let killed := nonempty (spritecollide r (fun w => w) walls) in
  let '(killed, enemies) :=
    match hit_first r (damage p) enemies with
    | Some enemies' => (true, enemies')
    | None => (killed, enemies)
    end in
  let killed :=
    if (right r <? 0) || (WIDTH <? left r) || (bottom r <? 0)
       || (HEIGHT <? top r) || (b_lifetime b <=? 0)
    then true else killed in
  (b, killed, enemies).
End Bullet.

(** [bullets.update(walls, enemies, player)]: every bullet of the group in
    turn; a killed bullet leaves the group. *)
Fixpoint bullets_update (bullets : list bullet) (walls : list Rect)
    (enemies : list enemy) (p : player) : list bullet * list enemy :=
  match bullets with
  | [] => ([], enemies)
  | b :: rest =>
      let '(b', killed, enemies') := Bullet.update b walls enemies p in
      let '(rest', enemies'') := bullets_update rest walls enemies' p in
      (if killed then rest' else b' :: rest', enemies'')
  end.

(* ------------------------------------------------------------------ *)
(** * Player *)
(* ------------------------------------------------------------------ *)

(** The entries of [pygame.key.get_pressed()] that [Player.update] reads. *)
Record Keys : Type := mkKeys {
  K_a : bool; K_LEFT : bool;
  K_d : bool; K_RIGHT : bool;
  K_w : bool; K_UP : bool;
  K_s : bool; K_DOWN : bool
}.

Module Player.
Definition MAX_HEALTH : Z := 21.
Definition MAX_DAMAGE : Z := 10.
Definition MIN_SHOOT_COOLDOWN : Z := 1.
Definition MAX_SPEED : Z := 15.
Definition INITIAL_HEALTH : Z := 3.
Definition INITIAL_SHOOT_COOLDOWN : Z := 20.
Definition IMMUNITY_DURATION_SECONDS : Z := 1.
(** [1 / math.sqrt(2)] *)
Definition DIAGONAL_MOVEMENT_FACTOR : float := (1 / PrimFloat.sqrt 2)%float.

(** [Player.__init__(x, y, game)] *)
Definition init (a : Assets) (x y : Z) : player :=
  mkPlayer 1 0 (get_rect_center (player_size a) (x, y)) 0 false 0 0
    (PInt 0) INITIAL_HEALTH INITIAL_HEALTH INITIAL_SHOOT_COOLDOWN
    (IMMUNITY_DURATION_SECONDS * FPS).

(** The displacement that [update] derives from the held keys: first one
    speed, its opposite or 0 on each axis, *)
Definition key_displacement (keys : Keys) (spd : num) : num * num :=
  let dx := PInt 0 in
  let dy := PInt 0 in
  let dx := if K_a keys || K_LEFT keys then py_neg spd else dx in
  let dx := if K_d keys || K_RIGHT keys then spd else dx in
  let dy := if K_w keys || K_UP keys then py_neg spd else dy in
  let dy := if K_s keys || K_DOWN keys then spd else dy in
  (dx, dy).

(** then both components times [DIAGONAL_MOVEMENT_FACTOR] when neither is
    zero. *)
Definition py_displacement (keys : Keys) (spd : num) : num * num :=
  let '(dx, dy) := key_displacement keys spd in
  if negb (py_eq dx (PInt 0)) && negb (py_eq dy (PInt 0))
  then (py_mul dx (PFloat DIAGONAL_MOVEMENT_FACTOR),
        py_mul dy (PFloat DIAGONAL_MOVEMENT_FACTOR))
  else (dx, dy).

(** The loops over [wall_hit] after the horizontal and the vertical
    move. *)
Definition resolve_x (dx : num) (r : Rect) (wall_hit : list Rect) : Rect :=
  fold_left
    (fun r wall =>
       if py_lt (PInt 0) dx then set_right r (left wall)
       else if py_lt dx (PInt 0) then set_left r (right wall)
       else r)
    wall_hit r.

Definition resolve_y (dy : num) (r : Rect) (wall_hit : list Rect) : Rect :=
  fold_left
    (fun r wall =>
       if py_lt (PInt 0) dy then set_bottom r (top wall)
       else if py_lt dy (PInt 0) then set_top r (bottom wall)
       else r)
    wall_hit r.

(** The first lines of [update]: the immunity countdown. *)
Definition tick_immunity (p : player) : player :=
  if is_immune p then
    let p := with_immunity_timer p (immunity_timer p - 1) in
    if immunity_timer p <=? 0
    then with_move_set (with_is_immune p false) 0
    else p
  else p.

(** [Player.update(walls)], with the held keys as an argument. *)
Definition update (keys : Keys) (walls : list Rect) (p : player) : player :=
  let p := tick_immunity p in
  let '(dx, dy) := py_displacement keys (speed p) in
  let r := rect_move_x (rect p) dx in
  let r := resolve_x dx r (spritecollide r (fun w => w) walls) in
  let r := rect_move_y r dy in
  let r := resolve_y dy r (spritecollide r (fun w => w) walls) in
  let r := set_x r (Z.max 0 (Z.min (WIDTH - rw r) (rx r))) in
  let r := set_y r (Z.max 0 (Z.min (HEIGHT - rh r) (ry r))) in
  let p := with_rect p r in
  if 0 <? shoot_cooldown p
  then with_shoot_cooldown p (shoot_cooldown p - 1)
  else p.

Section Shoot.
(** [math.hypot], a function of the C library. *)
Variable hypot : num -> num -> num.

(** [Player.shoot(bullets)], with [pygame.mouse.get_pos()] as an
    argument. *)
Definition shoot (a : Assets) (s : Statics) (mouse : Z * Z) (p : player)
    (bullets : list bullet) : res (player * list bullet) :=
  if shoot_cooldown p =? 0 then
    let dx := PInt (fst mouse - centerx (rect p)) in
    let dy := PInt (snd mouse - centery (rect p)) in
    let dist := hypot dx dy in
    if py_eq dist (PInt 0) then Ok (p, bullets)
    else
      res_bind (of_option ZeroDivisionError (py_truediv dx dist)) (fun dx =>
      res_bind (of_option ZeroDivisionError (py_truediv dy dist)) (fun dy =>
      let b := Bullet.init a s (centerx (rect p)) (centery (rect p)) dx dy in
      Ok (with_shoot_cooldown p (shoot_cooldown_set p), bullets ++ [b])))
  else Ok (p, bullets).
End Shoot.

(** [Player.take_damage()] *)
Definition take_damage (s : Statics) (p : player) : player :=
  if negb (is_immune p) then
    let p :=
      if (RoomClass.get_reached_level s + 1) mod Enemy.BOSS_LEVEL_INTERVAL =? 0
      then with_current_health p
             (current_health p - py_int BossEnemy.get_damage)
      else with_current_health p
             (current_health p - py_int (Enemy.get_damage s)) in
    let p := with_is_immune p true in
    with_immunity_timer p (immunity_duration p)
  else p.

Definition resetLocation (p : player) : player :=
  with_rect p (set_center (rect p) (WIDTH / 2, HEIGHT / 2)).

Definition set_current_health (number : Z) (p : player) : player :=
  with_current_health p (Z.min (max_health p) number).

Definition heal (number : Z) (p : player) : player :=
  with_current_health p (Z.min (max_health p) (current_health p + number)).

Definition set_max_health (number : Z) (p : player) : player :=
  let p := with_max_health p (Z.min MAX_HEALTH number) in
  with_current_health p (Z.min (current_health p) (max_health p)).

Definition increase_health (number : Z) (p : player) : player :=
  with_max_health p (Z.min MAX_HEALTH (max_health p + number)).

Definition set_damage (number : Z) (p : player) : player :=
  with_damage p (Z.min MAX_DAMAGE number).

Definition get_damage (p : player) : Z := damage p.

Definition increase_damage (number : Z) (p : player) : player :=
  with_damage p (Z.min MAX_DAMAGE (damage p + number)).

Definition decrease_shoot_cooldown (number : Z) (p : player) : player :=
  with_shoot_cooldown_set p
    (Z.max MIN_SHOOT_COOLDOWN (shoot_cooldown_set p - number)).

Definition increase_speed (number : Z) (p : player) : player :=
  with_speed p (py_min (PInt MAX_SPEED) (py_add (speed p) (PInt number))).

Definition set_speed (number : Z) (p : player) : player :=
  with_speed p (py_min (PInt MAX_SPEED) (PInt number)).

Definition set_points (number : Z) (p : player) : player :=
  with_earned_points p number.

Definition add_points (number : Z) (p : player) : player :=
  with_earned_points p (earned_points p + number).

Definition get_points (p : player) : Z := earned_points p.

(** [Player.increase_bullet_speed] writes the class attribute of
    [Bullet]. *)
Definition increase_bullet_speed (number : Z) (s : Statics) : Statics :=
  Bullet.increase_bullet_speed (PInt number) s.
End Player.

(* ------------------------------------------------------------------ *)
(** * Room *)
(* ------------------------------------------------------------------ *)

(** [int(level / k)] for a non-zero literal [k]: true division, then
    truncation. *)
Definition int_div (level k : Z) : Z :=
  py_int (PFloat (Z2float level / Z2float k)).

(** A [while] loop that draws random values in every iteration runs on as
    many iterations as there are draws left. *)
Definition with_draw_fuel {A : Type} (loop : nat -> M A) : M A :=
  fun i => loop (List.length (draws i)) i.

Record room : Type := mkRoom {
  walls : list Rect;
  enemies : list enemy
}.

Module Room.
Definition NUMBER_OF_WALLS : Z := 3.
Definition NUMBER_OF_ENEMIES_BASE : Z := 1.

(** The four border walls, in the order [__init__] creates them. *)
Definition make_outer_walls : list Rect :=
  [ mkRect 0 0 WIDTH TILE_SIZE;
    mkRect 0 (HEIGHT - TILE_SIZE) WIDTH TILE_SIZE;
    mkRect 0 0 TILE_SIZE HEIGHT;
    mkRect (WIDTH - TILE_SIZE) 0 TILE_SIZE HEIGHT ].

Definition safe_zone (save_zone_range : Z) : Rect :=
  mkRect (WIDTH / 2 - save_zone_range) (HEIGHT / 2 - save_zone_range)
         (save_zone_range * 2) (save_zone_range * 2).

Definition enemy_safe_zone (save_zone_range : Z) : Rect :=
  mkRect
    (WIDTH / 2 - save_zone_range * RoomClass.ENEMY_SPAWN_SAFE_MULTIPLIER)
    (HEIGHT / 2 - save_zone_range * RoomClass.ENEMY_SPAWN_SAFE_MULTIPLIER)
    (save_zone_range * RoomClass.ENEMY_SPAWN_SAFE_MULTIPLIER
     * RoomClass.ENEMY_SPAWN_SAFE_MULTIPLIER)
    (save_zone_range * RoomClass.ENEMY_SPAWN_SAFE_MULTIPLIER
     * RoomClass.ENEMY_SPAWN_SAFE_MULTIPLIER).

(** [not r.colliderect(zone) and not any(r.colliderect(wall.rect) ...)] *)
Definition clear_of (r zone : Rect) (ws : list Rect) : bool :=
  negb (colliderect r zone) && negb (existsb (colliderect r) ws).

(** [while not valid_wall]: one candidate per iteration. *)
Fixpoint place_wall (zone : Rect) (ws : list Rect) (fuel : nat) : M Rect :=
  match fuel with
  | O => stop OutOfDraws
  | S fuel =>
      x <- randint (TILE_SIZE * RoomClass.INNER_WALL_MARGIN)
                   (WIDTH - TILE_SIZE * RoomClass.INNER_WALL_MULTIPLIER) ;;
      y <- randint (TILE_SIZE * RoomClass.INNER_WALL_MARGIN)
                   (HEIGHT - TILE_SIZE * RoomClass.INNER_WALL_MULTIPLIER) ;;
      width <- choice [TILE_SIZE; TILE_SIZE * 2; TILE_SIZE * 3] ;;
      height <- choice [TILE_SIZE; TILE_SIZE * 2; TILE_SIZE * 3] ;;
      let candidate_rect := mkRect x y width height in
      if clear_of candidate_rect zone ws
      then ret candidate_rect
      else place_wall zone ws fuel
  end.

(** [for _ in range(walls_random)] *)
Fixpoint place_walls (zone : Rect) (n : nat) (ws : list Rect)
  : M (list Rect) :=
  match n with
  | O => ret ws
  | S n =>
      w <- with_draw_fuel (place_wall zone ws) ;;
      place_walls zone n (ws ++ [w])
  end.

(** [while not valid_position]: a whole enemy is built for every
    candidate position; a boss candidate sets [boss_spawned] whether or
    not its position is kept. *)
Fixpoint spawn_enemy (a : Assets) (s : Statics) (zone : Rect)
    (ws : list Rect) (boss boss_spawned : bool) (fuel : nat)
  : M (enemy * bool) :=
  match fuel with
  | O => stop OutOfDraws
  | S fuel =>
      x <- randint (TILE_SIZE * Constants.ENEMY_SPAWN_MARGIN)
                   (WIDTH - TILE_SIZE * Constants.ENEMY_SPAWN_MARGIN) ;;
      y <- randint (TILE_SIZE * Constants.ENEMY_SPAWN_MARGIN)
                   (HEIGHT - TILE_SIZE * Constants.ENEMY_SPAWN_MARGIN) ;;
      let temp_enemy :=
        if boss then BossEnemy.init a s x y else Enemy.init a s x y in
      let boss_spawned := if boss then true else boss_spawned in
      if clear_of (e_rect temp_enemy) zone ws
      then ret (temp_enemy, boss_spawned)
      else spawn_enemy a s zone ws boss boss_spawned fuel
  end.

(** [for _ in range(enemies_random)], which breaks once a boss was
    spawned. *)
Fixpoint spawn_enemies (a : Assets) (s : Statics) (zone : Rect)
    (ws : list Rect) (boss boss_spawned : bool) (n : nat)
    (es : list enemy) : M (list enemy) :=
  match n with
  | O => ret es
  | S n =>
      if boss_spawned then ret es
      else
        '(e, boss_spawned) <-
           with_draw_fuel (spawn_enemy a s zone ws boss boss_spawned) ;;
        spawn_enemies a s zone ws boss boss_spawned n (es ++ [e])
  end.

(** [Room.create_room(save_zone_range)] on a room that holds the outer
    walls [ws] and no enemy yet. *)
Definition create_room (a : Assets) (s : Statics) (save_zone_range : Z)
    (ws : list Rect) : M room :=
  walls_random <- randint NUMBER_OF_WALLS
                    (NUMBER_OF_WALLS + RoomClass.WALL_VARIATION_RANGE) ;;
  ws <- place_walls (safe_zone save_zone_range) (Z.to_nat walls_random) ws ;;
  enemies_random <-
    randint (NUMBER_OF_ENEMIES_BASE + int_div (reached_level s) 2)
            (NUMBER_OF_ENEMIES_BASE + 2 + int_div (reached_level s) 2) ;;
  let boss :=
    (RoomClass.get_reached_level s + 1) mod Enemy.BOSS_LEVEL_INTERVAL =? 0 in
  let enemies_random :=
    if boss then RoomClass.BOSS_ROOM_ENEMY_COUNT else enemies_random in
  es <- spawn_enemies a s (enemy_safe_zone save_zone_range) ws boss false
          (Z.to_nat enemies_random) [] ;;
  ret (mkRoom ws es).

(** [Room.__init__(save_zone_range, game)]: the outer walls are created
    on the first call and kept in the class attribute. *)
Definition init (a : Assets) (s : Statics) (save_zone_range : Z)
  : M (room * Statics) :=
  let s :=
    match outer_walls s with
    | None => with_outer_walls s (Some make_outer_walls)
    | Some _ => s
    end in
  let ws := match outer_walls s with Some ws => ws | None => [] end in
  r <- create_room a s save_zone_range ws ;;
  ret (r, s).
End Room.

(* ------------------------------------------------------------------ *)
(** * Upgrade *)
(* ------------------------------------------------------------------ *)

(** An [Upgrade] is a rectangle on the screen with the name of the player
    method it invokes and the argument it passes. *)
Record upgrade : Type := mkUpgrade {
  u_rect : Rect;
  function_name : string;
  function_number : Z
}.

Record game : Type := mkGame {
  g_player : player;
  g_bullets : list bullet;
  g_room : room;
  g_can_upgrade : bool;
  g_difficulty : Z;
  g_save_zone_range : Z;
  g_statics : Statics;
  g_assets : Assets
}.

Definition with_g_player (g : game) (v : player) : game :=
  mkGame v (g_bullets g) (g_room g) (g_can_upgrade g) (g_difficulty g)
    (g_save_zone_range g) (g_statics g) (g_assets g).
Definition with_g_bullets (g : game) (v : list bullet) : game :=
  mkGame (g_player g) v (g_room g) (g_can_upgrade g) (g_difficulty g)
    (g_save_zone_range g) (g_statics g) (g_assets g).
Definition with_g_room (g : game) (v : room) : game :=
  mkGame (g_player g) (g_bullets g) v (g_can_upgrade g) (g_difficulty g)
    (g_save_zone_range g) (g_statics g) (g_assets g).
Definition with_g_can_upgrade (g : game) (v : bool) : game :=
  mkGame (g_player g) (g_bullets g) (g_room g) v (g_difficulty g)
    (g_save_zone_range g) (g_statics g) (g_assets g).
Definition with_g_statics (g : game) (v : Statics) : game :=
  mkGame (g_player g) (g_bullets g) (g_room g) (g_can_upgrade g)
    (g_difficulty g) (g_save_zone_range g) v (g_assets g).

Module Upgrade.
Definition UI_SPACING : Z := 20.
Definition UPGRADE_WIDTH : Z := 240.
Definition UPGRADE_HEIGHT : Z := 550.
Definition UPGRADE_PANEL_Y : Z := 85.

(** [Upgrade.__init__(screen, number, player, function_name,
    function_number)] *)
Definition init (number : Z) (function_name : string) (function_number : Z)
  : upgrade :=
  mkUpgrade
    (mkRect (UI_SPACING + number * (UPGRADE_WIDTH + UI_SPACING))
            UPGRADE_PANEL_Y UPGRADE_WIDTH UPGRADE_HEIGHT)
    function_name function_number.

(** [Upgrade.activate()]: the player method of that name, looked up at
    run time and called with the upgrade's number. *)
Definition activate (u : upgrade) (g : game) : option game :=
  let name := function_name u in
  let n := function_number u in
  let on_player f := Some (with_g_player g (f n (g_player g))) in
  if String.eqb name "increase_damage"
    then on_player Player.increase_damage
  else if String.eqb name "increase_health"
    then on_player Player.increase_health
  else if String.eqb name "heal"
    then on_player Player.heal
  else if String.eqb name "decrease_shoot_cooldown"
    then on_player Player.decrease_shoot_cooldown
  else if String.eqb name "increase_speed"
    then on_player Player.increase_speed
  else if String.eqb name "increase_bullet_speed"
    then Some (with_g_statics g (Player.increase_bullet_speed n (g_statics g)))
  else None.
End Upgrade.

(* ------------------------------------------------------------------ *)
(** * Game *)
(* ------------------------------------------------------------------ *)

(** [list.remove(x)]: the first occurrence goes. *)
Fixpoint list_remove (x : string) (l : list string) : list string :=
  match l with
  | [] => []
  | y :: rest => if String.eqb y x then rest else y :: list_remove x rest
  end.

Module Game.
Definition DEFAULT_SAVE_ZONE_RANGE : Z := Constants.DEFAULT_SAVE_ZONE_RANGE.
Definition INITIAL_ENEMY_SPEED : float := 1.5%float.
Definition INITIAL_ENEMY_HEALTH : Z := 3.
Definition ENEMY_HEALTH_INCREASE : float := 0.4%float.
Definition ENEMY_SPEED_SMALL_INC : float := 0.1%float.
Definition ENEMY_SPEED_LARGE_INC : float := 0.4%float.
Definition ENEMY_DAMAGE_INCREASE : float := 0.2%float.
Definition LEVEL_INTERVAL_FOR_ENEMY_STATS : Z := 2.

(** The six player methods an upgrade can name. *)
Definition functions : list string :=
  [ "increase_damage"; "increase_health"; "heal";
    "decrease_shoot_cooldown"; "increase_speed"; "increase_bullet_speed"
  ]%string.

(** [Game.balanced_randint(lower, upper)] *)
Definition balanced_randint (lower upper : Z) : M Z :=
  let upper := if lower >=? upper then lower + 1 else upper in
  randint lower upper.

(** The [(lower, upper)] pair the [match] of [get_upgrade_rects] computes
    for a function name; [None] when no [case] applies. *)
Definition upgrade_range (chosen_function : string) (level : Z)
  : option (Z * Z) :=
  if String.eqb chosen_function "increase_damage"
    then Some (Z.max 1 (int_div level 2), Z.max 2 (int_div level 2))
  else if String.eqb chosen_function "increase_health"
    then Some (Z.max 1 (int_div level 2), Z.max 2 (int_div level 2))
  else if String.eqb chosen_function "heal"
    then Some (Z.max 2 (int_div level 2), Z.max 4 level)
  else if String.eqb chosen_function "decrease_shoot_cooldown"
    then Some (Z.max 1 (int_div level 2), Z.max 1 (int_div level 2))
  else if String.eqb chosen_function "increase_speed"
    then Some (Z.max 1 (int_div level 2), Z.max 2 level)
  else if String.eqb chosen_function "increase_bullet_speed"
    then Some (Z.max 1 (int_div level 2), Z.max 2 (int_div level 3))
  else None.

(** The body of [for i in range(3)], for the iterations [i, i+1, ...]. *)
Fixpoint upgrade_loop (level : Z) (n : nat) (i : Z) (functions : list string)
    (upgrade_rects : list upgrade) : M (list upgrade) :=
  match n with
  | O => ret upgrade_rects
  | S n =>
      chosen_function <- choice functions ;;
      let functions := list_remove chosen_function functions in
      match upgrade_range chosen_function level with
      | None => stop (Raised UnboundLocalError)
      | Some (lower, upper) =>
          number <- balanced_randint lower upper ;;
          upgrade_loop level n (i + 1) functions
            (upgrade_rects ++ [Upgrade.init i chosen_function number])
      end
  end.

(** [Game.get_upgrade_rects()] *)
Definition get_upgrade_rects (s : Statics) : M (list upgrade) :=
  upgrade_loop (RoomClass.get_reached_level s) 3 0 functions [].

(** One event of the loop in [upgrade]: a click activates every offer it
    lands on and ends the pause; a quit event exits. *)
Definition upgrade_event (upgrade_rects : list upgrade) (ev : event)
    (g : game) : res game :=
  match ev with
  | QUIT => Halt SystemExit
  | MOUSEBUTTONDOWN pos _ =>
      fold_left
        (fun r u =>
           res_bind r (fun g =>
             if collidepoint (u_rect u) pos
             then res_bind (of_option AttributeError (Upgrade.activate u g))
                    (fun g => Ok (with_g_can_upgrade g false))
             else Ok g))
        upgrade_rects (Ok g)
  | _ => Ok g
  end.

(** [while self.can_upgrade: for event in pygame.event.get(): ...] *)
Fixpoint upgrade_wait (upgrade_rects : list upgrade) (g : game) (fuel : nat)
  : M game :=
  match fuel with
  | O => stop OutOfEvents
  | S fuel =>
      if g_can_upgrade g then
        batch <- event_get ;;
        match fold_left (fun r ev => res_bind r (upgrade_event upgrade_rects ev))
                        batch (Ok g) with
        | Ok g => upgrade_wait upgrade_rects g fuel
        | Halt h => stop h
        end
      else ret g
  end.

(** [Game.upgrade()] *)
Definition upgrade (g : game) : M game :=
  upgrade_rects <- get_upgrade_rects (g_statics g) ;;
  fun i => upgrade_wait upgrade_rects g (S (List.length (events i))) i.

(** The first lines of [new_level]: the enemy tier moves when the level
    is not a multiple of [LEVEL_INTERVAL_FOR_ENEMY_STATS]. *)
Definition adjust_enemy_stats (s : Statics) : Statics :=
  if negb (RoomClass.get_reached_level s mod LEVEL_INTERVAL_FOR_ENEMY_STATS =? 0)
  then
    let s := Enemy.increase_max_health (PFloat ENEMY_HEALTH_INCREASE) s in
    let s :=
      if py_lt (Enemy.get_speed s) (PInt 5)
      then Enemy.increase_speed (PFloat ENEMY_SPEED_LARGE_INC) s
      else Enemy.increase_speed (PFloat ENEMY_SPEED_SMALL_INC) s in
    Enemy.increase_damage (PFloat ENEMY_DAMAGE_INCREASE) s
  else s.

(** [Game.new_level()] *)
Definition new_level (g : game) : M game :=
  let s := adjust_enemy_stats (g_statics g) in
  let s := RoomClass.increase_reached_level 1 s in
  let p := Player.add_points RoomClass.POINTS (g_player g) in
  '(r, s) <- Room.init (g_assets g) s (g_save_zone_range g) ;;
  let p := Player.resetLocation p in
  let p := with_immunity_timer p 0 in
  let g :=
    mkGame p [] r (g_can_upgrade g) (g_difficulty g) (g_save_zone_range g)
           s (g_assets g) in
  if g_difficulty g + 1 =? 0 then stop (Raised ZeroDivisionError)
  else if (RoomClass.get_reached_level s + 1) mod (g_difficulty g + 1) =? 0
  then upgrade (with_g_can_upgrade g true)
  else ret g.

(** The test of [run] that advances the level: [new_level] is called
    when, and only when, no enemy is left in the room. *)
Definition advance_if_cleared (g : game) : M game :=
  if (List.length (enemies (g_room g)) =? 0)%nat then new_level g else ret g.

(** [Game.setup_game()], from [Game.__init__]'s defaults. *)
Definition setup_game (a : Assets) (s : Statics) : M game :=
  let s := Bullet.set_bullet_speed (PInt Bullet.DEFAULT_BULLET_SPEED) s in
  let s := Enemy.set_speed (PFloat INITIAL_ENEMY_SPEED) s in
  let s := RoomClass.set_reached_level RoomClass.DEFAULT_ROOM_LEVEL s in
  let s := Enemy.set_max_health (PInt INITIAL_ENEMY_HEALTH) s in
  let s := Enemy.set_damage (PInt Enemy.DEFAULT_DAMAGE) s in
  let p := Player.init a (WIDTH / 2) (HEIGHT / 2) in
  let p := Player.set_points 0 p in
  let p := Player.set_speed 3 p in
  '(r, s) <- Room.init a s DEFAULT_SAVE_ZONE_RANGE ;;
  ret (mkGame p [] r false 0 DEFAULT_SAVE_ZONE_RANGE s a).
End Game.

(* ------------------------------------------------------------------ *)
(** * Vocabulary of the properties *)
(* ------------------------------------------------------------------ *)

Definition boss_room (s : Statics) : bool :=
  (RoomClass.get_reached_level s + 1) mod Enemy.BOSS_LEVEL_INTERVAL =? 0.

(** The invariant of the player's health. *)
Definition health_inv (p : player) : Prop :=
  current_health p <= max_health p /\ max_health p <= Player.MAX_HEALTH.

(** The operations on a game that write the player's health, and the
    activation of an upgrade (one of the six effects; under a name that is no
    player method the lookup raises before anything is changed). *)
Inductive player_op : Type :=
| OpHeal (number : Z)
| OpSetCurrentHealth (number : Z)
| OpSetMaxHealth (number : Z)
| OpIncreaseHealth (number : Z)
| OpTakeDamage
| OpActivate (u : upgrade).

Definition apply_op (op : player_op) (g : game) : game :=
  match op with
  | OpHeal n => with_g_player g (Player.heal n (g_player g))
  | OpSetCurrentHealth n =>
      with_g_player g (Player.set_current_health n (g_player g))
  | OpSetMaxHealth n => with_g_player g (Player.set_max_health n (g_player g))
  | OpIncreaseHealth n =>
      with_g_player g (Player.increase_health n (g_player g))
  | OpTakeDamage =>
      with_g_player g (Player.take_damage (g_statics g) (g_player g))
  | OpActivate u =>
      match Upgrade.activate u g with Some g' => g' | None => g end
  end.

Definition run_ops (ops : list player_op) (g : game) : game :=
  fold_left (fun g op => apply_op op g) ops g.

(** An operation that raises the maximum health does so by a non-negative
    amount. *)
Definition raises_by_nonneg (op : player_op) : bool :=
  match op with
  | OpIncreaseHealth n => 0 <=? n
  | OpActivate u =>
      if String.eqb (function_name u) "increase_health"
      then 0 <=? function_number u else true
  | _ => true
  end.

(** Concrete data for the examples: image sizes, the class attributes as
    [setup_game] leaves them at the start of a session, and a game in its
    first room before any wall or enemy is generated. *)
Definition example_assets : Assets :=
  mkAssets (38, 45) (12, 12) (40, 30) (90, 80).

Definition session_start : Statics :=
  mkStatics (PInt 3) (PFloat 1.5) (PInt 1) 0 (PInt 7) None.

Definition example_player : player :=
  Player.set_speed 3
    (Player.set_points 0
       (Player.init example_assets (WIDTH / 2) (HEIGHT / 2))).

Definition example_game (s : Statics) : game :=
  mkGame example_player [] (mkRoom Room.make_outer_walls []) false 0
    Game.DEFAULT_SAVE_ZONE_RANGE s example_assets.

(** The enemy tier: the three class attributes of [Enemy] that
    [new_level] moves. *)
Definition tier (s : Statics) : num * num * num :=
  (enemy_max_health s, enemy_speed s, enemy_damage s).

(** The tier is within the maxima the code defines for it,
    [Enemy.MAX_SPEED] and [Enemy.MAX_DAMAGE]. *)
Definition tier_capped (s : Statics) : Prop :=
  py_le (enemy_speed s) (PInt Enemy.MAX_SPEED) = true
  /\ py_le (enemy_damage s) (PInt Enemy.MAX_DAMAGE) = true.

(** What one call of [new_level] does to the tier and the level, and [n]
    calls in a row. *)
Definition transition (s : Statics) : Statics :=
  RoomClass.increase_reached_level 1 (Game.adjust_enemy_stats s).

Fixpoint transitions (n : nat) (s : Statics) : Statics :=
  match n with
  | O => s
  | S n => transitions n (transition s)
  end.

(** What the upgrade pause leaves alone: the player's score, rectangle and
    immunity, the room, the bullets, the level, the tier and the outer
    walls. *)
Definition upgrade_frame (g g' : game) : Prop :=
  earned_points (g_player g') = earned_points (g_player g)
  /\ rect (g_player g') = rect (g_player g)
  /\ is_immune (g_player g') = is_immune (g_player g)
  /\ immunity_timer (g_player g') = immunity_timer (g_player g)
  /\ g_room g' = g_room g
  /\ g_bullets g' = g_bullets g
  /\ reached_level (g_statics g') = reached_level (g_statics g)
  /\ tier (g_statics g') = tier (g_statics g)
  /\ outer_walls (g_statics g') = outer_walls (g_statics g).

(** An input on which a room and three upgrade offers are generated: three
    inner walls (the zero behind [randint(3, 6)]), enemies whose first
    candidate position lies on a wall and is drawn again, and a click on the
    first offer. *)
Definition example_input : Input :=
  mkInput
    [ 0;  0; 0; 0; 0;  100; 0; 1; 1;  300; 400; 2; 2;
      0;  0; 0;  500; 300;  100; 400;  7; 7;
      1; 5;  3; 0;  2; 1;  9; 9 ]
    [ [OtherEvent; MOUSEBUTTONDOWN (5, 5) 1];
      [KEYDOWN 32; MOUSEBUTTONDOWN (100, 200) 1];
      [QUIT] ].

(** The example game just after its player was hit: immune, with the
    countdown at its full duration. *)
Definition hurt_game (s : Statics) : game :=
  with_g_player (example_game s) (Player.take_damage s example_player).

(** The inner walls [inner], placed one after the other on top of the
    walls [base], are clear of the zone and of every wall placed before
    them. *)
Definition walls_clear (zone : Rect) (base inner : list Rect) : Prop :=
  forall (l1 : list Rect) (w : Rect) (l2 : list Rect),
    inner = l1 ++ w :: l2 ->
    colliderect w zone = false
    /\ Forall (fun v => colliderect w v = false) (base ++ l1).

(** The enemy [e] is clear of the zone and of the walls [ws]. *)
Definition enemy_clear (zone : Rect) (ws : list Rect) (e : enemy) : Prop :=
  colliderect (e_rect e) zone = false
  /\ Forall (fun w => colliderect (e_rect e) w = false) ws.

(** The outer walls a room is built on: the shared ones if they exist,
    new ones otherwise. *)
Definition outer_walls_of (s : Statics) : list Rect :=
  match outer_walls s with
  | Some ws => ws
  | None => Room.make_outer_walls
  end.

(** The rectangle of a bullet after the move of [Bullet.update]. *)
Definition bullet_moved_rect (b : bullet) : Rect :=
  rect_move_y (rect_move_x (b_rect b) (b_dx b)) (b_dy b).

(** A bullet flying right into the corner between a wall and two enemies,
    for the examples. *)
Definition example_bullet : bullet :=
  mkBullet (mkRect 100 100 12 12) (PFloat 4.2) (PFloat 5.6) 30.

Definition example_enemies : list enemy :=
  [ Enemy.init example_assets session_start 300 300;
    Enemy.init example_assets (transitions 2 session_start) 110 115;
    Enemy.init example_assets session_start 112 112 ].

(** The upper bound [balanced_randint] samples up to: [upper], or
    [lower + 1] when [lower >= upper]. *)
Definition balanced_upper (lower upper : Z) : Z :=
  if lower >=? upper then lower + 1 else upper.

(** The offer [u] names one of the six functions and its number lies in
    the (corrected) range of that function at the level. *)
Definition offer_in_range (level : Z) (u : upgrade) : Prop :=
  In (function_name u) Game.functions
  /\ exists lower upper : Z,
       Game.upgrade_range (function_name u) level = Some (lower, upper)
       /\ lower <= function_number u <= balanced_upper lower upper.

(** What the game relies on of [math.hypot] at a pair of integers: the
    result is zero exactly when both are. *)
Definition hypot_zero_iff (hypot : num -> num -> num) (dx dy : Z) : Prop :=
  py_eq (hypot (PInt dx) (PInt dy)) (PInt 0) = true <-> dx = 0 /\ dy = 0.

(** The textbook formula in binary64, which stands for [math.hypot] in the
    examples. *)
Definition hypot_binary64 (a b : num) : num :=
  PFloat (PrimFloat.sqrt (to_float a * to_float a + to_float b * to_float b)).








(* ------------------------------------------------------------------ *)
(** * Further vocabulary: frames of player and bullet updates *)
(* ------------------------------------------------------------------ *)

(** Successive calls of [Player.update], each with the keys held and the
    walls of that frame. *)
Definition player_updates (frames : list (Keys * list Rect)) (p : player)
  : player :=
  fold_left (fun p f => Player.update (fst f) (snd f) p) frames p.

(** Successive calls of [bullets.update], each with the walls and the
    player of that frame; the enemies carry over. *)
Fixpoint bullet_rounds (frames : list (list Rect * player))
    (bullets : list bullet) (es : list enemy) : list bullet * list enemy :=
  match frames with
  | [] => (bullets, es)
  | (ws, p) :: frames =>
      let '(bullets, es) := bullets_update bullets ws es p in
      bullet_rounds frames bullets es
  end.

(** The held keys with only "d" down, and with nothing down. *)
Definition keys_none : Keys :=
  mkKeys false false false false false false false false.

Definition keys_right : Keys :=
  mkKeys false false true false false false false false.

(** The statistics an upgrade can move are within their limits. *)
Definition stats_capped (g : game) : Prop :=
  damage (g_player g) <= Player.MAX_DAMAGE
  /\ max_health (g_player g) <= Player.MAX_HEALTH
  /\ Player.MIN_SHOOT_COOLDOWN <= shoot_cooldown_set (g_player g)
  /\ py_le (speed (g_player g)) (PInt Player.MAX_SPEED) = true
  /\ py_le (bullet_speed (g_statics g)) (PInt Bullet.MAX_BULLET_SPEED) = true.

(** The rectangles of the three offers on the screen. *)
Definition offer_rects : list Rect :=
  [ mkRect 20 85 240 550; mkRect 280 85 240 550; mkRect 540 85 240 550 ].

(** Activating offers one after the other, as the clicks of the upgrade
    pause do: each activation also ends the pause. *)
Definition apply_offer (g : option game) (u : upgrade) : option game :=
  match g with
  | Some g =>
      option_map (fun g => with_g_can_upgrade g false) (Upgrade.activate u g)
  | None => None
  end.

Definition apply_offers (picks : list upgrade) (g : game) : option game :=
  fold_left apply_offer picks (Some g).

(** The rectangle lies between the border walls of the playfield. *)
Definition inside_border (r : Rect) : Prop :=
  TILE_SIZE <= left r /\ right r <= WIDTH - TILE_SIZE
  /\ TILE_SIZE <= top r /\ bottom r <= HEIGHT - TILE_SIZE.

(** An enemy as [Enemy.__init__] leaves it, somewhere: of class [Enemy],
    with the tier's speed and maximum health, standing still. *)
Definition fresh_enemy (s : Statics) (e : enemy) : Prop :=
  e_class e = IsEnemy
  /\ e_health e = enemy_max_health s
  /\ e_speed e = enemy_speed s
  /\ e_damage e = None
  /\ e_dx e = PInt 0 /\ e_dy e = PInt 0 /\ e_move_timer e = 0.

(* ------------------------------------------------------------------ *)
(** * Enemy.update and the frame of Game.run *)
(* ------------------------------------------------------------------ *)

(** A result without input, as a computation. *)
Definition lift {A : Type} (r : res A) : M A :=
  fun i => match r with Ok a => Ok (a, i) | Halt h => Halt h end.

(** [random.random()]: a multiple of 2^-53 in [0, 1). *)
Definition random_float : M float :=
  d <- draw ;;
  ret (PrimFloat.div (Z2float (d mod 2 ^ 53)) (Z2float (2 ^ 53))).

(** [random.uniform(a, b)] is [a + (b - a) * random()]. *)
Definition uniform (a b : float) : M float :=
  u <- random_float ;;
  ret (PrimFloat.add a (PrimFloat.mul (PrimFloat.sub b a) u)).

(** The instance method [Enemy.update], which [BossEnemy] inherits. *)
Module EnemySprite.
Definition DIRECTION_RANDOMNESS_RANGE : float := 0.5%float.
Definition ENEMY_MOVEMENT_CHANGE_MIN : Z := 30.
Definition ENEMY_MOVEMENT_CHANGE_MAX : Z := 90.

Section Update.
(** [math.hypot] *)
Variable hypot : num -> num -> num.

(** [dist = math.hypot(dx, dy)] and, if it is not zero,
    [dx, dy = dx / dist, dy / dist]. *)
Definition normalize (dx dy : num) : res (num * num) :=
  let dist := hypot dx dy in
  if negb (py_eq dist (PInt 0)) then
    res_bind (of_option ZeroDivisionError (py_truediv dx dist)) (fun dx' =>
    res_bind (of_option ZeroDivisionError (py_truediv dy dist)) (fun dy' =>
    Ok (dx', dy')))
  else Ok (dx, dy).

(** The first part of [update]: a new direction toward the player, with
    noise, when the timer has run out; one tick of the timer otherwise. *)
Definition plan (p : player) (e : enemy) : M enemy :=
  if e_move_timer e <=? 0 then
    let dx := PInt (centerx (rect p) - centerx (e_rect e)) in
    let dy := PInt (centery (rect p) - centery (e_rect e)) in
    '(dx, dy) <- lift (normalize dx dy) ;;
    ux <- uniform (PrimFloat.opp DIRECTION_RANDOMNESS_RANGE)
            DIRECTION_RANDOMNESS_RANGE ;;
    let dx := py_add dx (PFloat ux) in
    uy <- uniform (PrimFloat.opp DIRECTION_RANDOMNESS_RANGE)
            DIRECTION_RANDOMNESS_RANGE ;;
    let dy := py_add dy (PFloat uy) in
    '(dx, dy) <- lift (normalize dx dy) ;;
    timer <- randint ENEMY_MOVEMENT_CHANGE_MIN ENEMY_MOVEMENT_CHANGE_MAX ;;
    ret (mkEnemy (e_class e) (e_rect e) (e_speed e) timer
           (py_mul dx (e_speed e)) (py_mul dy (e_speed e))
           (e_health e) (e_damage e))
  else
    ret (mkEnemy (e_class e) (e_rect e) (e_speed e) (e_move_timer e - 1)
           (e_dx e) (e_dy e) (e_health e) (e_damage e)).

(** One wall of the loops over [wall_hit]: the enemy is put against the
    wall and its velocity on that axis is reversed. *)
Definition bounce_x (st : Rect * num) (wall : Rect) : Rect * num :=
  let '(r, dx) := st in
  let r :=
    if py_lt (PInt 0) dx then set_right r (left wall)
    else if py_lt dx (PInt 0) then set_left r (right wall)
    else r in
  (r, py_mul dx (PInt (-1))).

Definition bounce_y (st : Rect * num) (wall : Rect) : Rect * num :=
  let '(r, dy) := st in
  let r :=
    if py_lt (PInt 0) dy then set_bottom r (top wall)
    else if py_lt dy (PInt 0) then set_top r (bottom wall)
    else r in
  (r, py_mul dy (PInt (-1))).

(** [Enemy.update(player, walls)].  The result is the enemy, or [None] if
    it was killed, and the player, whose score a kill raises. *)
Definition update (p : player) (ws : list Rect) (e : enemy)
  : M (option enemy * player) :=
  e <- plan p e ;;
  let r := rect_move_x (e_rect e) (e_dx e) in
  let '(r, dx) :=
    fold_left bounce_x (spritecollide r (fun w => w) ws) (r, e_dx e) in
  let r := rect_move_y r (e_dy e) in
  let '(r, dy) :=
    fold_left bounce_y (spritecollide r (fun w => w) ws) (r, e_dy e) in
  let e :=
    mkEnemy (e_class e) r (e_speed e) (e_move_timer e) dx dy (e_health e)
      (e_damage e) in
  if py_int (e_health e) <=? 0
  then ret (None, Player.add_points Enemy.POINTS p)
  else ret (Some e, p).

(** [enemies.update(player, walls)]: every enemy of the group in turn. *)
Fixpoint group_update (p : player) (ws : list Rect) (es : list enemy)
  : M (list enemy * player) :=
  match es with
  | [] => ret ([], p)
  | e :: rest =>
      '(oe, p) <- update p ws e ;;
      '(rest', p) <- group_update p ws rest ;;
      ret (match oe with Some e' => e' :: rest' | None => rest' end, p)
  end.
End Update.
End EnemySprite.

(** The body of the loop of [Game.run]. *)
Module GameLoop.
Section Frame.
Variable hypot : num -> num -> num.

(** One event of the loop: quitting exits, a press of the left mouse button
    shoots toward the mouse position. *)
Definition handle_event (mouse : Z * Z) (ev : event) (g : game) : res game :=
  match ev with
  | QUIT => Halt SystemExit
  | MOUSEBUTTONDOWN _ button =>
      if button =? Constants.MOUSE_LEFT_BUTTON then
        res_bind
          (Player.shoot hypot (g_assets g) (g_statics g) mouse (g_player g)
             (g_bullets g))
          (fun pb => Ok (with_g_bullets (with_g_player g (fst pb)) (snd pb)))
      else Ok g
  | _ => Ok g
  end.

Definition handle_events (mouse : Z * Z) (batch : list event) (g : game)
  : res game :=
  fold_left (fun r ev => res_bind r (handle_event mouse ev)) batch (Ok g).

(** [Player.blink] switches to the damaged animation set. *)
Definition blink (p : player) : player := with_move_set p 1.

(** One iteration of [while running], with the keys held and the mouse
    position of the frame.  The boolean is [running] after it. *)
Definition frame (keys : Keys) (mouse : Z * Z) (g : game) : M (game * bool) :=
  batch <- event_get ;;
  g <- lift (handle_events mouse batch g) ;;
  let ws := walls (g_room g) in
  let p := Player.update keys ws (g_player g) in
  let '(bullets, es) := bullets_update (g_bullets g) ws (enemies (g_room g)) p in
  '(es, p) <- EnemySprite.group_update hypot p ws es ;;
  let p :=
    if nonempty (spritecollide (rect p) e_rect es)
    then Player.take_damage (g_statics g) p
    else p in
  let g :=
    mkGame p bullets (mkRoom ws es) (g_can_upgrade g) (g_difficulty g)
      (g_save_zone_range g) (g_statics g) (g_assets g) in
  g <- Game.advance_if_cleared g ;;
  let g :=
    if is_immune (g_player g)
    then with_g_player g (blink (g_player g))
    else g in
  ret (g, negb (current_health (g_player g) <? 1)).

(** The first iterations of [while running], one for each state of the
    keyboard and the mouse given; the boolean is [running] after them. *)
Fixpoint frames (inputs : list (Keys * (Z * Z))) (g : game)
  : M (game * bool) :=
  match inputs with
  | [] => ret (g, true)
  | (keys, mouse) :: rest =>
      '(g, running) <- frame keys mouse g ;;
      if running then frames rest g else ret (g, false)
  end.
End Frame.
End GameLoop.

(** ** Vocabulary for the enemy group and the frame *)

(** An enemy that [Enemy.update] does not remove. *)
Definition alive (e : enemy) : bool := 0 <? py_int (e_health e).

(** An enemy whose timer has run out, so that its next update draws a new
    direction. *)
Definition replans (e : enemy) : bool := e_move_timer e <=? 0.

(** What an update leaves alone: class, health, speed, damage and size. *)
Definition enemy_identity (e : enemy)
  : enemy_class * num * num * option num * (Z * Z) :=
  (e_class e, e_health e, e_speed e, e_damage e,
   (rw (e_rect e), rh (e_rect e))).

(** [i'] is [i] after [n] random draws and no call to
    [pygame.event.get()]. *)
Definition consumed (n : nat) (i i' : Input) : Prop :=
  (n <= List.length (draws i))%nat
  /\ draws i' = skipn n (draws i)
  /\ events i' = events i.

Definition left_click (ev : event) : bool :=
  match ev with
  | MOUSEBUTTONDOWN _ button => button =? Constants.MOUSE_LEFT_BUTTON
  | _ => false
  end.

(** A boss that has lost all its health, next to an enemy that has not. *)
Definition example_group : list enemy :=
  [ with_e_health (BossEnemy.init example_assets session_start 300 300)
      (PInt 0);
    Enemy.init example_assets session_start 500 500 ].

(** A game in its first room with one enemy left, which the bullet in flight
    is about to kill. *)
Definition last_enemy_game : game :=
  mkGame example_player
    [mkBullet (mkRect 494 494 12 12) (PInt 0) (PInt 0) 60]
    (mkRoom Room.make_outer_walls
       [with_e_health (Enemy.init example_assets session_start 500 500)
          (PInt 1)])
    false 0 Game.DEFAULT_SAVE_ZONE_RANGE session_start example_assets.

(** The player's statistics that upgrades move. *)
Definition same_stats (p q : player) : Prop :=
  damage p = damage q /\ max_health p = max_health q
  /\ shoot_cooldown_set p = shoot_cooldown_set q /\ speed p = speed q.

(* ================================================================== *)
(** * Properties *)
(* ================================================================== *)

(** ** Numbers *)

Lemma float_ltb_leb (x y : float) :
  PrimFloat.ltb x y = true -> PrimFloat.leb x y = true.
Proof.
  rewrite ltb_spec, leb_spec. unfold SFltb, SFleb.
  destruct (SFcompare (Prim2SF x) (Prim2SF y)) as [[]|]; congruence.
Qed.

Lemma py_lt_le (a b : num) : py_lt a b = true -> py_le a b = true.
Proof.
  destruct a, b; simpl; try apply float_ltb_leb.
  rewrite Z.ltb_lt, Z.leb_le. lia.
Qed.

(** [min(M, x)] never exceeds the integer [M]. *)
Lemma py_min_le (M : Z) (x : num) : py_le (py_min (PInt M) x) (PInt M) = true.
Proof.
  unfold py_min. destruct (py_lt x (PInt M)) eqn:E.
  - now apply py_lt_le.
  - simpl. apply Z.leb_refl.
Qed.

(** The arithmetic agrees with Python's on the values the game meets:
    [3 + 0.4], [0.1 + 0.2], [int(-2.5)], [int(1.9999999999999998)],
    [min(5, 4.9)], [min(5, 5.0)] (the first argument wins a tie), [7 / 2]
    and [1 / 0]. *)
Lemma python_arithmetic_examples :
  py_add (PInt 3) (PFloat 0.4) = PFloat 3.4
  /\ py_add (PFloat 0.1) (PFloat 0.2) = PFloat 0.30000000000000004
  /\ py_int (PFloat (-2.5)) = -2
  /\ py_int (PFloat 1.9999999999999998) = 1
  /\ py_min (PInt 5) (PFloat 4.9) = PFloat 4.9
  /\ py_min (PInt 5) (PFloat 5) = PInt 5
  /\ py_truediv (PInt 7) (PInt 2) = Some (PFloat 3.5)
  /\ py_truediv (PInt 1) (PInt 0) = None.
Proof. vm_compute. repeat split; reflexivity. Qed.

(** A float assigned to a coordinate of a rectangle is rounded to the
    nearest pixel, halves away from zero: [100 + 5.6] is stored as 106,
    [120 - 6.4] as 114, [381 - 2.1213203435596424] as 379, [10 + 0.5] as 11,
    [0 - 2.5] as -3; an [int] is stored as it is.  A bullet that the move
    brings to x = 114 beside a wall whose right edge is 114 does not touch
    it. *)
Lemma rect_store_examples :
  rect_move_y (mkRect 100 100 12 12) (PFloat 5.6) = mkRect 100 106 12 12
  /\ rect_move_x (mkRect 120 100 12 12) (PFloat (-6.4))
     = mkRect 114 100 12 12
  /\ rect_move_x (mkRect 381 328 38 45) (PFloat (-2.1213203435596424))
     = mkRect 379 328 38 45
  /\ rect_move_x (mkRect 10 0 1 1) (PFloat 0.5) = mkRect 11 0 1 1
  /\ rect_move_x (mkRect 0 0 1 1) (PFloat (-2.5)) = mkRect (-3) 0 1 1
  /\ rect_move_x (mkRect 10 0 1 1) (PInt (-3)) = mkRect 7 0 1 1
  /\ Bullet.update (mkBullet (mkRect 120 100 12 12) (PFloat (-6.4)) (PInt 0) 60)
       [mkRect 100 90 14 40] [] example_player
     = (mkBullet (mkRect 114 100 12 12) (PFloat (-6.4)) (PInt 0) 59, false,
        []).
Proof. vm_compute. repeat split; reflexivity. Qed.

(** [int(level / 2)] and [int(level / 3)] are the integer quotients, here
    checked on the first thousand levels. *)
Lemma int_div_small_levels :
  forallb (fun level => (int_div level 2 =? level / 2)
                        && (int_div level 3 =? level / 3))
    (map Z.of_nat (seq 0 1000)) = true.
Proof. vm_compute. reflexivity. Qed.

(** ** The player's health *)

Lemma take_damage_immune (s : Statics) (p : player) :
  is_immune p = true -> Player.take_damage s p = p.
Proof. intros H. unfold Player.take_damage. now rewrite H. Qed.

Lemma take_damage_health (s : Statics) (p : player) :
  is_immune p = false ->
  current_health (Player.take_damage s p)
  = current_health p
    - (if boss_room s then BossEnemy.damage else py_int (Enemy.get_damage s)).
Proof.
  intros H. unfold Player.take_damage, boss_room. rewrite H. simpl.
  now destruct (_ =? 0).
Qed.

Lemma take_damage_max_health (s : Statics) (p : player) :
  max_health (Player.take_damage s p) = max_health p.
Proof.
  unfold Player.take_damage.
  destruct (negb (is_immune p)); [destruct (_ =? 0)|]; reflexivity.
Qed.

(** What an activated upgrade does to the health fields. *)
Lemma activate_cases (u : upgrade) (g g' : game) :
  Upgrade.activate u g = Some g' ->
  enemy_damage (g_statics g') = enemy_damage (g_statics g)
  /\ reached_level (g_statics g') = reached_level (g_statics g)
  /\ ((String.eqb (function_name u) "increase_health" = true
       /\ g_player g' = Player.increase_health (function_number u) (g_player g))
      \/ (String.eqb (function_name u) "increase_health" = false
          /\ g_player g' = Player.heal (function_number u) (g_player g))
      \/ (String.eqb (function_name u) "increase_health" = false
          /\ max_health (g_player g') = max_health (g_player g)
          /\ current_health (g_player g') = current_health (g_player g))).
Proof.
  unfold Upgrade.activate. intros H.
  destruct (String.eqb (function_name u) "increase_damage") eqn:E1.
  { apply String.eqb_eq in E1. rewrite E1 in *. inversion H; subst; clear H.
    simpl. auto 10. }
  destruct (String.eqb (function_name u) "increase_health") eqn:E2.
  { inversion H; subst; clear H. simpl. auto 10. }
  destruct (String.eqb (function_name u) "heal") eqn:E3.
  { inversion H; subst; clear H. simpl. auto 10. }
  destruct (String.eqb (function_name u) "decrease_shoot_cooldown") eqn:E4.
  { inversion H; subst; clear H. simpl. auto 10. }
  destruct (String.eqb (function_name u) "increase_speed") eqn:E5.
  { inversion H; subst; clear H. simpl. auto 10. }
  destruct (String.eqb (function_name u) "increase_bullet_speed") eqn:E6.
  { inversion H; subst; clear H. simpl. auto 10. }
  discriminate.
Qed.

Lemma apply_op_enemy_damage (op : player_op) (g : game) :
  enemy_damage (g_statics (apply_op op g)) = enemy_damage (g_statics g).
Proof.
  destruct op; simpl; try reflexivity.
  destruct (Upgrade.activate u g) eqn:E; [|reflexivity].
  now apply activate_cases in E.
Qed.

Lemma apply_op_max_health_cap (op : player_op) (g : game) :
  max_health (g_player g) <= Player.MAX_HEALTH ->
  max_health (g_player (apply_op op g)) <= Player.MAX_HEALTH.
Proof.
  intros H. destruct op; simpl; try lia.
  - now rewrite take_damage_max_health.
  - destruct (Upgrade.activate u g) eqn:E; [|assumption].
    apply activate_cases in E.
    destruct E as (_ & _ & [[_ ->]|[[_ ->]|(_ & -> & _)]]); simpl; lia.
Qed.

Lemma apply_op_health_inv (op : player_op) (g : game) :
  raises_by_nonneg op = true ->
  0 <= py_int (Enemy.get_damage (g_statics g)) ->
  health_inv (g_player g) -> health_inv (g_player (apply_op op g)).
Proof.
  unfold health_inv. intros Hop Hd [H1 H2].
  destruct op as [n|n|n|n| |u]; simpl in *.
  - lia.
  - lia.
  - lia.
  - apply Z.leb_le in Hop. lia.
  - rewrite take_damage_max_health. split; [|assumption].
    destruct (is_immune (g_player g)) eqn:Ei.
    + now rewrite take_damage_immune.
    + rewrite take_damage_health by assumption.
      unfold BossEnemy.damage. destruct (boss_room _); lia.
  - destruct (Upgrade.activate u g) eqn:E; [|lia].
    apply activate_cases in E.
    destruct E as (_ & _ & [[En ->]|[[_ ->]|(_ & -> & ->)]]); simpl; try lia.
    rewrite En in Hop. apply Z.leb_le in Hop. lia.
Qed.

Lemma run_ops_enemy_damage (ops : list player_op) (g : game) :
  enemy_damage (g_statics (run_ops ops g)) = enemy_damage (g_statics g).
Proof.
  revert g. induction ops as [|op ops IH]; intros g; simpl; [reflexivity|].
  unfold run_ops in IH. rewrite IH. apply apply_op_enemy_damage.
Qed.

Lemma run_ops_max_health_cap (ops : list player_op) (g : game) :
  max_health (g_player g) <= Player.MAX_HEALTH ->
  max_health (g_player (run_ops ops g)) <= Player.MAX_HEALTH.
Proof.
  revert g. induction ops as [|op ops IH]; intros g H; simpl; [assumption|].
  apply IH. now apply apply_op_max_health_cap.
Qed.

Lemma run_ops_health_inv (ops : list player_op) (g : game) :
  forallb raises_by_nonneg ops = true ->
  0 <= py_int (Enemy.get_damage (g_statics g)) ->
  health_inv (g_player g) -> health_inv (g_player (run_ops ops g)).
Proof.
  revert g. induction ops as [|op ops IH]; intros g Hops Hd Hi; simpl.
  - assumption.
  - simpl in Hops. apply andb_true_iff in Hops. destruct Hops as [Hop Hops].
    apply IH; [assumption| |now apply apply_op_health_inv].
    unfold Enemy.get_damage in *. now rewrite apply_op_enemy_damage.
Qed.

(** C1, at level 7 (a boss room): a player who is not immune loses
    [BossEnemy.damage] = 5 health, whatever the level, while the boss that
    the same level spawns stores the level-scaled damage
    [min(10, 5 * ((7 + 1) / 4))] = 10 in its own attribute, which
    [BossEnemy.get_damage] does not read. *)
Theorem take_damage_boss_room_level_7 :
  let s := with_reached_level session_start 7 in
  let p := example_player in
  boss_room s = true
  /\ is_immune p = false
  /\ current_health p = 3
  /\ current_health (Player.take_damage s p) = -2
  /\ e_damage (BossEnemy.init example_assets s 500 300) = Some (PInt 10)
  /\ current_health p - py_int (BossEnemy.scaled_damage s) = -7.
Proof. vm_compute. repeat split; reflexivity. Qed.

(** C7, as stated, fails: raising the maximum health by a negative amount
    leaves the current health above the maximum, and so does a hit when the
    enemy damage was set to a negative value. *)
Lemma increase_health_negative_breaks_invariant :
  let g := example_game session_start in
  let g' := example_game (Enemy.set_damage (PInt (-1)) session_start) in
  health_inv (g_player g)
  /\ ~ health_inv (g_player (run_ops [OpIncreaseHealth (-1)] g))
  /\ health_inv (g_player g')
  /\ ~ health_inv (g_player (run_ops [OpTakeDamage] g')).
Proof.
  unfold health_inv. cbv zeta. repeat split; vm_compute; try discriminate.
  - intros [H _]. now apply H.
  - intros [H _]. now apply H.
Qed.

(** C7, amended: the maximum health stays at most 21 under every sequence
    of the operations; the current health stays at most the maximum when the
    maximum is only raised by non-negative amounts and the enemy damage is
    not negative; and the current health can become negative. *)
Theorem health_invariant_preserved :
  (forall (ops : list player_op) (g : game),
      max_health (g_player g) <= 21 ->
      max_health (g_player (run_ops ops g)) <= 21)
  /\ (forall (ops : list player_op) (g : game),
         forallb raises_by_nonneg ops = true ->
         0 <= py_int (Enemy.get_damage (g_statics g)) ->
         health_inv (g_player g) ->
         health_inv (g_player (run_ops ops g)))
  /\ (exists (ops : list player_op) (g : game),
         forallb raises_by_nonneg ops = true
         /\ 0 <= py_int (Enemy.get_damage (g_statics g))
         /\ health_inv (g_player g)
         /\ current_health (g_player (run_ops ops g)) < 0).
Proof.
  split; [|split].
  - intros ops g. apply run_ops_max_health_cap.
  - intros ops g. apply run_ops_health_inv.
  - exists [OpTakeDamage], (example_game (with_reached_level session_start 3)).
    vm_compute. repeat split; congruence.
Qed.

Lemma health_invariant_preserved_witness :
  let ops :=
    [ OpActivate (Upgrade.init 0 "increase_health" 30);
      OpHeal 50; OpTakeDamage; OpSetMaxHealth 4; OpIncreaseHealth 2;
      OpSetCurrentHealth 9; OpActivate (Upgrade.init 1 "heal" 2) ] in
  let g := example_game session_start in
  max_health (g_player (run_ops ops g)) <= 21
  /\ health_inv (g_player (run_ops ops g)).
Proof.
  split.
  - apply (proj1 health_invariant_preserved). vm_compute. discriminate.
  - apply (proj1 (proj2 health_invariant_preserved)).
    + reflexivity.
    + vm_compute. discriminate.
    + vm_compute. split; discriminate.
Defined.

(** ** Computations on input *)

Lemma bind_Ok {A B : Type} (m : M A) (k : A -> M B) (i : Input)
    (r : B * Input) :
  bind m k i = Ok r -> exists a i1, m i = Ok (a, i1) /\ k a i1 = Ok r.
Proof.
  unfold bind. destruct (m i) as [[a i1]|h]; [|discriminate].
  intros H. now exists a, i1.
Qed.

Lemma ret_Ok {A : Type} (a : A) (i : Input) (r : A * Input) :
  ret a i = Ok r -> r = (a, i).
Proof. unfold ret. congruence. Qed.

Lemma fold_res_halt {A S : Type} (f : A -> S -> res S) (l : list A) (h : halt) :
  fold_left (fun r x => res_bind r (f x)) l (Halt h) = Halt h.
Proof. induction l as [|x l IH]; simpl; auto. Qed.

Lemma fold_res_inv {A S : Type} (P : S -> Prop) (f : A -> S -> res S)
    (l : list A) :
  (forall x s s', f x s = Ok s' -> P s -> P s') ->
  forall s s', fold_left (fun r x => res_bind r (f x)) l (Ok s) = Ok s' ->
               P s -> P s'.
Proof.
  intros Hf. induction l as [|x l IH]; simpl; intros s s' H Hs.
  - congruence.
  - destruct (f x s) as [s1|h] eqn:E.
    + eapply IH; eauto.
    + rewrite fold_res_halt in H. discriminate.
Qed.

(** Inversion of a bind that returned: names the intermediate result, the
    input left after it and the equation of the first computation. *)
Tactic Notation "inv_bind" hyp(H) "as" ident(a) ident(i) ident(E) :=
  apply bind_Ok in H; destruct H as (a & i & E & H).

(** ** The upgrade pause leaves score, position, immunity, room and tier
    alone *)

Lemma upgrade_frame_refl (g : game) : upgrade_frame g g.
Proof. unfold upgrade_frame. tauto. Qed.

Lemma upgrade_frame_trans (g1 g2 g3 : game) :
  upgrade_frame g1 g2 -> upgrade_frame g2 g3 -> upgrade_frame g1 g3.
Proof.
  unfold upgrade_frame. intros H1 H2.
  decompose [and] H1. decompose [and] H2. repeat split; congruence.
Qed.

Lemma activate_frame (u : upgrade) (g g' : game) :
  Upgrade.activate u g = Some g' -> upgrade_frame g g'.
Proof.
  unfold Upgrade.activate. intros H.
  repeat match type of H with
         | (if ?c then _ else _) = _ => destruct c
         end;
    try discriminate; inversion H; subst; clear H;
    unfold upgrade_frame; simpl; tauto.
Qed.

Lemma upgrade_event_frame (rects : list upgrade) (ev : event) (g g' : game) :
  Game.upgrade_event rects ev g = Ok g' -> upgrade_frame g g'.
Proof.
  destruct ev as [|pos button|key|]; simpl; try discriminate;
    try (intros H; inversion H; apply upgrade_frame_refl).
  intros H.
  eapply (fold_res_inv (fun x => upgrade_frame g x)); [|exact H|apply upgrade_frame_refl].
  clear. intros u s s' H Hs. cbv beta in H. revert H.
  destruct (collidepoint (u_rect u) pos); intros H.
  - destruct (Upgrade.activate u s) as [s1|] eqn:E; simpl in H; [|discriminate].
    inversion H; subst; clear H. apply activate_frame in E.
    eapply upgrade_frame_trans; [exact Hs|].
    eapply upgrade_frame_trans; [exact E|].
    unfold upgrade_frame. simpl. tauto.
  - inversion H; subst. assumption.
Qed.

Lemma upgrade_wait_frame (rects : list upgrade) (fuel : nat) :
  forall (g : game) (i : Input) (g' : game) (i' : Input),
    Game.upgrade_wait rects g fuel i = Ok (g', i') -> upgrade_frame g g'.
Proof.
  induction fuel as [|fuel IH]; simpl; intros g i g' i' H; [discriminate|].
  destruct (g_can_upgrade g).
  - inv_bind H as batch j E.
    destruct (fold_left _ batch (Ok g)) as [g1|h] eqn:Ef; [|discriminate].
    apply IH in H.
    eapply upgrade_frame_trans; [|exact H].
    eapply (fold_res_inv (fun x => upgrade_frame g x)); [|exact Ef|apply upgrade_frame_refl].
    intros ev s s' Hev Hs. apply upgrade_event_frame in Hev.
    eapply upgrade_frame_trans; eauto.
  - apply ret_Ok in H. inversion H; subst. apply upgrade_frame_refl.
Qed.

Lemma upgrade_frame_of (g : game) (i : Input) (g' : game) (i' : Input) :
  Game.upgrade g i = Ok (g', i') -> upgrade_frame g g'.
Proof.
  unfold Game.upgrade. intros H. inv_bind H as rects j E.
  now apply upgrade_wait_frame in H.
Qed.

(** ** The level transition *)

Lemma room_init_statics (a : Assets) (s : Statics) (szr : Z) (i : Input)
    (r : room) (s' : Statics) (i' : Input) :
  Room.init a s szr i = Ok (r, s', i') ->
  tier s' = tier s /\ reached_level s' = reached_level s
  /\ bullet_speed s' = bullet_speed s.
Proof.
  unfold Room.init. intros H. inv_bind H as r0 j E. apply ret_Ok in H.
  inversion H; subst; clear H.
  destruct (outer_walls s); auto.
Qed.

(** A call of [new_level] that returns has generated one room, from the
    input it was given and the class attributes after the tier adjustment
    and the level increment; the rest of the new game is fixed up to what an
    upgrade may change. *)
Lemma new_level_inv (g : game) (i : Input) (g' : game) (i' : Input) :
  Game.new_level g i = Ok (g', i') ->
  exists (r : room) (s1 : Statics) (i1 : Input),
    Room.init (g_assets g) (transition (g_statics g)) (g_save_zone_range g) i
    = Ok (r, s1, i1)
    /\ upgrade_frame
         (mkGame
            (with_immunity_timer
               (Player.resetLocation
                  (Player.add_points RoomClass.POINTS (g_player g))) 0)
            [] r (g_can_upgrade g) (g_difficulty g) (g_save_zone_range g)
            s1 (g_assets g))
         g'.
Proof.
  unfold Game.new_level. intros H. inv_bind H as rs j E.
  destruct rs as [r s1]. exists r, s1, j. split; [exact E|].
  cbv zeta in H. revert H. cbn [g_difficulty].
  destruct (g_difficulty g + 1 =? 0); [discriminate|].
  destruct (_ =? 0); intros H.
  - apply upgrade_frame_of in H. unfold upgrade_frame in *. simpl in *. exact H.
  - apply ret_Ok in H. inversion H; subst. apply upgrade_frame_refl.
Qed.

Lemma adjust_enemy_stats_level (s : Statics) :
  reached_level (Game.adjust_enemy_stats s) = reached_level s.
Proof.
  unfold Game.adjust_enemy_stats.
  destruct (negb _); [|reflexivity]. now destruct (py_lt _ _).
Qed.

Lemma new_level_statics (g : game) (i : Input) (g' : game) (i' : Input) :
  Game.new_level g i = Ok (g', i') ->
  tier (g_statics g') = tier (Game.adjust_enemy_stats (g_statics g))
  /\ reached_level (g_statics g') = reached_level (g_statics g) + 1.
Proof.
  intros H. apply new_level_inv in H. destruct H as (r & s1 & i1 & Hr & Hf).
  apply room_init_statics in Hr. destruct Hr as (Ht & Hl & _).
  destruct Hf as (_ & _ & _ & _ & _ & _ & Hlv & Htier & _).
  simpl in Hlv, Htier. split.
  - rewrite Htier, Ht. reflexivity.
  - rewrite Hlv, Hl. unfold transition. simpl.
    now rewrite adjust_enemy_stats_level.
Qed.

(** [session_start] is what [setup_game] makes of the class attributes,
    whatever they were, up to the outer walls. *)
Lemma setup_game_statics (a : Assets) (s : Statics) (i : Input) (g : game)
    (i' : Input) :
  Game.setup_game a s i = Ok (g, i') ->
  tier (g_statics g) = tier session_start
  /\ reached_level (g_statics g) = reached_level session_start
  /\ bullet_speed (g_statics g) = bullet_speed session_start.
Proof.
  unfold Game.setup_game. intros H. inv_bind H as rs j E.
  destruct rs as [r s1]. apply ret_Ok in H. inversion H; subst; clear H.
  apply room_init_statics in E. destruct E as (Ht & Hl & Hb). cbn [g_statics].
  rewrite Ht, Hl, Hb. repeat split.
Qed.

(** ** The enemy tier *)

Lemma adjust_enemy_stats_odd (s : Statics) :
  reached_level s mod 2 <> 0 ->
  enemy_max_health (Game.adjust_enemy_stats s)
  = py_add (enemy_max_health s) (PFloat 0.4)
  /\ enemy_speed (Game.adjust_enemy_stats s)
     = py_min (PInt 20)
         (py_add (enemy_speed s)
            (PFloat (if py_lt (enemy_speed s) (PInt 5) then 0.4 else 0.1)))
  /\ enemy_damage (Game.adjust_enemy_stats s)
     = py_min (PInt 5) (py_add (enemy_damage s) (PFloat 0.2)).
Proof.
  intros H. unfold Game.adjust_enemy_stats, RoomClass.get_reached_level,
    Game.LEVEL_INTERVAL_FOR_ENEMY_STATS.
  apply Z.eqb_neq in H. rewrite H. cbn [negb].
  unfold Enemy.get_speed. cbn [Enemy.increase_max_health enemy_speed
    with_enemy_max_health].
  destruct (py_lt (enemy_speed s) (PInt 5)); repeat split.
Qed.

Lemma adjust_enemy_stats_even (s : Statics) :
  reached_level s mod 2 = 0 -> Game.adjust_enemy_stats s = s.
Proof.
  intros H. unfold Game.adjust_enemy_stats, RoomClass.get_reached_level,
    Game.LEVEL_INTERVAL_FOR_ENEMY_STATS.
  now rewrite H.
Qed.

Lemma adjust_enemy_stats_capped (s : Statics) :
  tier_capped s -> tier_capped (Game.adjust_enemy_stats s).
Proof.
  intros Hc. destruct (Z.eq_dec (reached_level s mod 2) 0) as [E|E].
  - now rewrite adjust_enemy_stats_even.
  - destruct (adjust_enemy_stats_odd s E) as (_ & Hs & Hd).
    unfold tier_capped. rewrite Hs, Hd. split; apply py_min_le.
Qed.

Lemma transitions_capped (n : nat) :
  forall s : Statics, tier_capped s -> tier_capped (transitions n s).
Proof.
  induction n as [|n IH]; intros s H; simpl; [assumption|].
  apply IH. unfold transition. apply adjust_enemy_stats_capped in H.
  exact H.
Qed.

(** C2, as stated, fails for the maximum health: [Enemy.increase_max_health]
    adds without a maximum, so no integer bounds what it can produce; and in
    a session, after 500 transitions the speed and the damage sit at their
    maxima 20 and 5 while the maximum health has passed 100 and rises again
    with the next odd level. *)
Lemma enemy_max_health_is_not_capped :
  (forall M : Z, exists (s : Statics) (n : num),
      py_le (enemy_max_health s) (PInt M) = true
      /\ py_lt (PInt M) (enemy_max_health (Enemy.increase_max_health n s))
         = true)
  /\ (let s := transitions 500 session_start in
      enemy_speed s = PInt Enemy.MAX_SPEED
      /\ enemy_damage s = PInt Enemy.MAX_DAMAGE
      /\ py_lt (PInt 100) (enemy_max_health s) = true
      /\ enemy_speed (transitions 2 s) = PInt Enemy.MAX_SPEED
      /\ enemy_damage (transitions 2 s) = PInt Enemy.MAX_DAMAGE
      /\ py_lt (enemy_max_health s) (enemy_max_health (transitions 2 s))
         = true).
Proof.
  split.
  - intros M. exists (with_enemy_max_health session_start (PInt M)), (PInt 1).
    simpl. split; [apply Z.leb_le|apply Z.ltb_lt]; lia.
  - vm_compute. repeat split; reflexivity.
Qed.

(** C2, amended: a call of [new_level] that returns leaves the tier that
    [adjust_enemy_stats] computes.  At an odd level that is: the maximum
    health plus 0.4, with no maximum; the speed plus 0.4 if it is below 5 and
    plus 0.1 otherwise, capped at 20; the damage plus 0.2, capped at 5.  At an
    even level the class attributes are unchanged.  Speed and damage stay
    within 20 and 5 over any number of transitions. *)
Theorem enemy_tier_adjustment :
  (forall (g : game) (i : Input) (g' : game) (i' : Input),
      Game.new_level g i = Ok (g', i') ->
      tier (g_statics g') = tier (Game.adjust_enemy_stats (g_statics g)))
  /\ (forall s : Statics,
         reached_level s mod 2 <> 0 ->
         enemy_max_health (Game.adjust_enemy_stats s)
         = py_add (enemy_max_health s) (PFloat 0.4)
         /\ enemy_speed (Game.adjust_enemy_stats s)
            = py_min (PInt 20)
                (py_add (enemy_speed s)
                   (PFloat (if py_lt (enemy_speed s) (PInt 5)
                            then 0.4 else 0.1)))
         /\ enemy_damage (Game.adjust_enemy_stats s)
            = py_min (PInt 5) (py_add (enemy_damage s) (PFloat 0.2))
         /\ py_le (enemy_speed (Game.adjust_enemy_stats s)) (PInt 20) = true
         /\ py_le (enemy_damage (Game.adjust_enemy_stats s)) (PInt 5) = true)
  /\ (forall s : Statics,
         reached_level s mod 2 = 0 -> Game.adjust_enemy_stats s = s)
  /\ (forall (n : nat) (s : Statics),
         tier_capped s -> tier_capped (transitions n s)).
Proof.
  split; [|split; [|split]].
  - intros g i g' i' H. now apply new_level_statics in H.
  - intros s H. destruct (adjust_enemy_stats_odd s H) as (Hh & Hs & Hd).
    repeat split; try assumption.
    + rewrite Hs. apply py_min_le.
    + rewrite Hd. apply py_min_le.
  - apply adjust_enemy_stats_even.
  - intros n s. apply transitions_capped.
Qed.

Lemma enemy_tier_adjustment_witness :
  let g := example_game (with_reached_level session_start 1) in
  let s := g_statics g in
  (exists g' i', Game.new_level g example_input = Ok (g', i')
                 /\ tier (g_statics g') = tier (Game.adjust_enemy_stats s))
  /\ enemy_max_health (Game.adjust_enemy_stats s)
     = py_add (enemy_max_health s) (PFloat 0.4)
  /\ py_le (enemy_speed (Game.adjust_enemy_stats s)) (PInt 20) = true
  /\ Game.adjust_enemy_stats session_start = session_start
  /\ tier_capped (transitions 7 session_start).
Proof.
  cbv zeta.
  destruct (Game.new_level (example_game (with_reached_level session_start 1))
              example_input) as [[g' i']|h] eqn:E; [|vm_compute in E; discriminate].
  split; [|split; [|split; [|split]]].
  - exists g', i'. split; [reflexivity|].
    exact (proj1 enemy_tier_adjustment _ _ _ _ E).
  - apply (proj1 (proj2 enemy_tier_adjustment)). vm_compute. discriminate.
  - apply (proj1 (proj2 enemy_tier_adjustment)). vm_compute. discriminate.
  - apply (proj1 (proj2 (proj2 enemy_tier_adjustment))). reflexivity.
  - apply (proj2 (proj2 (proj2 enemy_tier_adjustment))).
    split; vm_compute; reflexivity.
Defined.

(** ** What a level transition does *)

Lemma set_center_center (r : Rect) (c : Z * Z) :
  (centerx (set_center r c), centery (set_center r c)) = c.
Proof.
  destruct c as [cx cy]. unfold centerx, centery, set_center. simpl.
  f_equal; lia.
Qed.

Lemma update_is_immune (keys : Keys) (ws : list Rect) (p : player) :
  is_immune (Player.update keys ws p) = is_immune (Player.tick_immunity p).
Proof.
  unfold Player.update.
  destruct (Player.py_displacement keys (speed (Player.tick_immunity p)))
    as [dx dy].
  cbv zeta. now destruct (0 <? shoot_cooldown _).
Qed.

Lemma tick_immunity_expired (p : player) :
  immunity_timer p = 0 -> is_immune (Player.tick_immunity p) = false.
Proof.
  intros H. unfold Player.tick_immunity.
  destruct (is_immune p) eqn:E; [|assumption].
  simpl. rewrite H. reflexivity.
Qed.

(** C3, as stated, fails on the immunity: a player who is immune when the
    room is cleared is still immune when [new_level] returns. *)
Lemma new_level_keeps_immune_flag :
  let g := hurt_game (with_reached_level session_start 1) in
  is_immune (g_player g) = true
  /\ exists g' i',
       Game.new_level g example_input = Ok (g', i')
       /\ is_immune (g_player g') = true
       /\ immunity_timer (g_player g') = 0.
Proof.
  cbv zeta. split; [reflexivity|].
  destruct (Game.new_level (hurt_game (with_reached_level session_start 1))
              example_input) as [[g' i']|h] eqn:E;
    vm_compute in E; [|discriminate].
  exists g', i'. inversion E; subst. repeat split.
Qed.

(** C3, amended: [new_level] is called exactly when the room has no enemy
    left.  A call that returns has incremented the level by 1, added the 10
    room-clear points to the score, generated one room (from the input at the
    call and the class attributes after the tier adjustment and the level
    increment), which is the game's room, and put the player's center at
    (WIDTH // 2, HEIGHT // 2).  It sets the immunity countdown to 0 and leaves
    the immune flag as it was; the next [Player.update] clears the flag. *)
Theorem new_level_effects :
  (forall (g : game) (i : Input),
      Game.advance_if_cleared g i
      = match enemies (g_room g) with
        | [] => Game.new_level g i
        | _ :: _ => Ok (g, i)
        end)
  /\ (forall (g : game) (i : Input) (g' : game) (i' : Input),
         Game.new_level g i = Ok (g', i') ->
         reached_level (g_statics g') = reached_level (g_statics g) + 1
         /\ earned_points (g_player g') = earned_points (g_player g) + 10
         /\ (exists (s1 : Statics) (i1 : Input),
                Room.init (g_assets g) (transition (g_statics g))
                  (g_save_zone_range g) i
                = Ok (g_room g', s1, i1))
         /\ (centerx (rect (g_player g')), centery (rect (g_player g')))
            = (WIDTH / 2, HEIGHT / 2)
         /\ immunity_timer (g_player g') = 0
         /\ is_immune (g_player g') = is_immune (g_player g)
         /\ (forall (keys : Keys) (ws : list Rect),
                is_immune (Player.update keys ws (g_player g')) = false)).
Proof.
  split.
  - intros g i. unfold Game.advance_if_cleared.
    now destruct (enemies (g_room g)).
  - intros g i g' i' H.
    pose proof (new_level_statics _ _ _ _ H) as [_ Hlevel].
    apply new_level_inv in H. destruct H as (r & s1 & i1 & Hr & Hf).
    destruct Hf as (Hp & Hrect & Him & Htimer & Hroom & _).
    simpl in Hp, Hrect, Him, Htimer, Hroom.
    split; [exact Hlevel|]. split; [exact Hp|].
    split; [exists s1, i1; now rewrite Hroom|].
    split; [rewrite Hrect; apply set_center_center|].
    split; [exact Htimer|]. split; [exact Him|].
    intros keys ws. rewrite update_is_immune.
    now apply tick_immunity_expired.
Qed.

Lemma new_level_effects_witness :
  let g := hurt_game (with_reached_level session_start 1) in
  exists g' i',
    Game.new_level g example_input = Ok (g', i')
    /\ reached_level (g_statics g') = 1 + 1
    /\ earned_points (g_player g') = 0 + 10
    /\ (centerx (rect (g_player g')), centery (rect (g_player g')))
       = (400, 350)
    /\ immunity_timer (g_player g') = 0
    /\ is_immune (g_player g') = true.
Proof.
  cbv zeta.
  destruct (Game.new_level (hurt_game (with_reached_level session_start 1))
              example_input) as [[g' i']|h] eqn:E;
    [|vm_compute in E; discriminate].
  exists g', i'. split; [reflexivity|].
  destruct (proj2 new_level_effects _ _ _ _ E)
    as (Hl & Hp & _ & Hc & Ht & Hi & _).
  repeat split; assumption.
Defined.

(** ** Room generation *)

Lemma colliderect_sym (a b : Rect) : colliderect a b = colliderect b a.
Proof.
  unfold colliderect.
  destruct (rw a =? 0), (rh a =? 0), (rw b =? 0), (rh b =? 0); simpl;
    try reflexivity.
  destruct (Z.min (rx a) (rx a + rw a) <? Z.max (rx b) (rx b + rw b)),
    (Z.min (ry a) (ry a + rh a) <? Z.max (ry b) (ry b + rh b)),
    (Z.min (rx b) (rx b + rw b) <? Z.max (rx a) (rx a + rw a)),
    (Z.min (ry b) (ry b + rh b) <? Z.max (ry a) (ry a + rh a)); reflexivity.
Qed.

(** For rectangles of positive size, [colliderect] is the overlap of the
    two boxes. *)
Lemma colliderect_overlap (a b : Rect) :
  0 < rw a -> 0 < rh a -> 0 < rw b -> 0 < rh b ->
  colliderect a b = true
  <-> (left a < right b /\ left b < right a
       /\ top a < bottom b /\ top b < bottom a).
Proof.
  intros Ha1 Ha2 Hb1 Hb2. unfold colliderect, left, right, top, bottom.
  replace (rw a =? 0) with false by (symmetry; apply Z.eqb_neq; lia).
  replace (rh a =? 0) with false by (symmetry; apply Z.eqb_neq; lia).
  replace (rw b =? 0) with false by (symmetry; apply Z.eqb_neq; lia).
  replace (rh b =? 0) with false by (symmetry; apply Z.eqb_neq; lia).
  cbn [orb]. rewrite !andb_true_iff, !Z.ltb_lt. lia.
Qed.

Lemma clear_of_spec (r zone : Rect) (ws : list Rect) :
  Room.clear_of r zone ws = true
  <-> colliderect r zone = false
      /\ Forall (fun v => colliderect r v = false) ws.
Proof.
  unfold Room.clear_of. rewrite andb_true_iff, !negb_true_iff.
  split; intros [H1 H2]; split; try assumption.
  - apply Forall_forall. intros v Hv.
    destruct (colliderect r v) eqn:E; [|reflexivity].
    assert (existsb (colliderect r) ws = true) by (apply existsb_exists; eauto).
    congruence.
  - destruct (existsb (colliderect r) ws) eqn:E; [|reflexivity].
    apply existsb_exists in E. destruct E as (v & Hv & Hc).
    rewrite Forall_forall in H2. rewrite (H2 v Hv) in Hc. discriminate.
Qed.

Lemma place_wall_clear (zone : Rect) (ws : list Rect) (fuel : nat) :
  forall (i : Input) (w : Rect) (i' : Input),
    Room.place_wall zone ws fuel i = Ok (w, i') ->
    Room.clear_of w zone ws = true.
Proof.
  induction fuel as [|fuel IH]; intros i w i' H; [discriminate|].
  cbn [Room.place_wall] in H.
  inv_bind H as x j1 E1. inv_bind H as y j2 E2.
  inv_bind H as width j3 E3. inv_bind H as height j4 E4.
  destruct (Room.clear_of (mkRect x y width height) zone ws) eqn:Ec.
  - apply ret_Ok in H. inversion H; subst. exact Ec.
  - eapply IH; eauto.
Qed.

(** The fuel of the rejection loops is no cut-off of its own: a loop that
    has as much fuel as there are draws left runs until it returns or the
    draws run out, and more fuel changes nothing. *)
Lemma randint_consumes (a b : Z) (i : Input) (x : Z) (i' : Input) :
  randint a b i = Ok (x, i') ->
  S (List.length (draws i')) = List.length (draws i).
Proof.
  unfold randint. destruct (b <? a); [discriminate|].
  unfold bind, draw. destruct (draws i) as [|d ds] eqn:E; [discriminate|].
  intros H. inversion H; subst. reflexivity.
Qed.

Lemma choice_consumes {A : Type} (l : list A) (i : Input) (x : A)
    (i' : Input) :
  choice l i = Ok (x, i') ->
  S (List.length (draws i')) = List.length (draws i).
Proof.
  unfold choice. destruct l as [|y l]; [discriminate|].
  unfold bind, draw. destruct (draws i) as [|d ds] eqn:E; [discriminate|].
  intros H. inversion H; subst. reflexivity.
Qed.

Lemma place_wall_fuel (zone : Rect) (ws : list Rect) (fuel : nat) :
  forall i : Input,
    (List.length (draws i) <= fuel)%nat ->
    Room.place_wall zone ws (S fuel) i = Room.place_wall zone ws fuel i.
Proof.
  induction fuel as [|fuel IH]; intros i Hi.
  - destruct i as [[|d ds] evs]; [reflexivity|simpl in Hi; lia].
  - change (Room.place_wall zone ws (S (S fuel)) i)
      with ((x <- randint (TILE_SIZE * RoomClass.INNER_WALL_MARGIN)
                    (WIDTH - TILE_SIZE * RoomClass.INNER_WALL_MULTIPLIER) ;;
             y <- randint (TILE_SIZE * RoomClass.INNER_WALL_MARGIN)
                    (HEIGHT - TILE_SIZE * RoomClass.INNER_WALL_MULTIPLIER) ;;
             width <- choice [TILE_SIZE; TILE_SIZE * 2; TILE_SIZE * 3] ;;
             height <- choice [TILE_SIZE; TILE_SIZE * 2; TILE_SIZE * 3] ;;
             if Room.clear_of (mkRect x y width height) zone ws
             then ret (mkRect x y width height)
             else Room.place_wall zone ws (S fuel)) i).
    cbn [Room.place_wall]. unfold bind.
    destruct (randint _ _ i) as [[x j1]|h] eqn:E1; [|reflexivity].
    destruct (randint _ _ j1) as [[y j2]|h] eqn:E2; [|reflexivity].
    destruct (choice _ j2) as [[w j3]|h] eqn:E3; [|reflexivity].
    destruct (choice _ j3) as [[h j4]|h] eqn:E4; [|reflexivity].
    destruct (Room.clear_of _ zone ws); [reflexivity|].
    apply IH.
    apply randint_consumes in E1, E2. apply choice_consumes in E3, E4. lia.
Qed.

Lemma spawn_enemy_fuel (a : Assets) (s : Statics) (zone : Rect)
    (ws : list Rect) (boss : bool) (fuel : nat) :
  forall (bs : bool) (i : Input),
    (List.length (draws i) <= fuel)%nat ->
    Room.spawn_enemy a s zone ws boss bs (S fuel) i
    = Room.spawn_enemy a s zone ws boss bs fuel i.
Proof.
  induction fuel as [|fuel IH]; intros bs i Hi.
  - destruct i as [[|d ds] evs]; [reflexivity|simpl in Hi; lia].
  - change (Room.spawn_enemy a s zone ws boss bs (S (S fuel)) i)
      with ((x <- randint (TILE_SIZE * Constants.ENEMY_SPAWN_MARGIN)
                    (WIDTH - TILE_SIZE * Constants.ENEMY_SPAWN_MARGIN) ;;
             y <- randint (TILE_SIZE * Constants.ENEMY_SPAWN_MARGIN)
                    (HEIGHT - TILE_SIZE * Constants.ENEMY_SPAWN_MARGIN) ;;
             let temp_enemy :=
               if boss then BossEnemy.init a s x y else Enemy.init a s x y in
             let boss_spawned := if boss then true else bs in
             if Room.clear_of (e_rect temp_enemy) zone ws
             then ret (temp_enemy, boss_spawned)
             else Room.spawn_enemy a s zone ws boss boss_spawned (S fuel)) i).
    cbn [Room.spawn_enemy]. unfold bind.
    destruct (randint _ _ i) as [[x j1]|h] eqn:E1; [|reflexivity].
    destruct (randint _ _ j1) as [[y j2]|h] eqn:E2; [|reflexivity].
    cbv zeta. destruct (Room.clear_of _ zone ws); [reflexivity|].
    apply IH.
    apply randint_consumes in E1, E2. lia.
Qed.

Lemma place_walls_spec (zone : Rect) (n : nat) :
  forall (ws : list Rect) (i : Input) (ws' : list Rect) (i' : Input),
    Room.place_walls zone n ws i = Ok (ws', i') ->
    exists inner, ws' = ws ++ inner /\ walls_clear zone ws inner.
Proof.
  induction n as [|n IH]; intros ws i ws' i' H.
  - apply ret_Ok in H. inversion H; subst. exists []. split.
    + now rewrite app_nil_r.
    + intros l1 w l2 E. now destruct l1.
  - cbn [Room.place_walls] in H. inv_bind H as w0 j E.
    unfold with_draw_fuel in E. apply place_wall_clear in E.
    apply clear_of_spec in E. destruct E as [Ez Ew].
    apply IH in H. destruct H as (inner & -> & Hc).
    exists (w0 :: inner). split; [now rewrite <- app_assoc|].
    intros l1 w l2 El. destruct l1 as [|v l1]; simpl in El.
    + inversion El; subst. rewrite app_nil_r. now split.
    + inversion El; subst. destruct (Hc l1 w l2 eq_refl) as [Hz Hf].
      split; [exact Hz|]. now rewrite <- app_assoc in Hf.
Qed.

Lemma spawn_enemy_spec (a : Assets) (s : Statics) (zone : Rect)
    (ws : list Rect) (boss : bool) (fuel : nat) :
  forall (bs : bool) (i : Input) (e : enemy) (bs' : bool) (i' : Input),
    Room.spawn_enemy a s zone ws boss bs fuel i = Ok (e, bs', i') ->
    Room.clear_of (e_rect e) zone ws = true
    /\ (exists x y,
           e = if boss then BossEnemy.init a s x y else Enemy.init a s x y)
    /\ bs' = (if boss then true else bs).
Proof.
  induction fuel as [|fuel IH]; intros bs i e bs' i' H; [discriminate|].
  cbn [Room.spawn_enemy] in H.
  inv_bind H as x j1 E1. inv_bind H as y j2 E2. cbv zeta in H.
  revert H.
  destruct (Room.clear_of
              (e_rect (if boss then BossEnemy.init a s x y
                       else Enemy.init a s x y)) zone ws) eqn:Ec; intros H.
  - apply ret_Ok in H. inversion H; subst. split; [exact Ec|].
    split; [now exists x, y|reflexivity].
  - apply IH in H. destruct H as (H1 & H2 & ->).
    split; [exact H1|]. split; [exact H2|]. now destruct boss.
Qed.

Lemma spawn_enemies_clear (a : Assets) (s : Statics) (zone : Rect)
    (ws : list Rect) (boss : bool) (n : nat) :
  forall (bs : bool) (es : list enemy) (i : Input) (es' : list enemy)
         (i' : Input),
    Room.spawn_enemies a s zone ws boss bs n es i = Ok (es', i') ->
    Forall (enemy_clear zone ws) es -> Forall (enemy_clear zone ws) es'.
Proof.
  induction n as [|n IH]; intros bs es i es' i' H Hes.
  - apply ret_Ok in H. now inversion H; subst.
  - cbn [Room.spawn_enemies] in H. destruct bs.
    + apply ret_Ok in H. now inversion H; subst.
    + inv_bind H as eb j E. destruct eb as [e bs1].
      unfold with_draw_fuel in E.
      apply spawn_enemy_spec in E. destruct E as (Hc & _ & _).
      apply clear_of_spec in Hc.
      eapply IH; [exact H|]. apply Forall_app. split; [exact Hes|].
      constructor; [exact Hc|constructor].
Qed.

Lemma spawn_enemies_spawned (a : Assets) (s : Statics) (zone : Rect)
    (ws : list Rect) (boss : bool) (n : nat) (es : list enemy) (i : Input) :
  Room.spawn_enemies a s zone ws boss true n es i = Ok (es, i).
Proof. now destruct n. Qed.

Lemma spawn_enemies_boss (a : Assets) (s : Statics) (zone : Rect)
    (ws : list Rect) (n : nat) (es : list enemy) (i : Input)
    (es' : list enemy) (i' : Input) :
  Room.spawn_enemies a s zone ws true false (S n) es i = Ok (es', i') ->
  exists x y, es' = es ++ [BossEnemy.init a s x y].
Proof.
  cbn [Room.spawn_enemies]. intros H.
  inv_bind H as eb j E. destruct eb as [e bs1].
  unfold with_draw_fuel in E. apply spawn_enemy_spec in E.
  destruct E as (_ & (x & y & ->) & ->).
  rewrite spawn_enemies_spawned in H. inversion H; subst. now exists x, y.
Qed.

(** A room that was generated: its walls are the outer walls followed by
    inner walls placed by [place_walls], and its enemies were spawned on those
    walls. *)
Lemma room_init_inv (a : Assets) (s : Statics) (szr : Z) (i : Input)
    (r : room) (s' : Statics) (i' : Input) :
  Room.init a s szr i = Ok (r, s', i') ->
  exists (inner : list Rect) (n : nat) (i1 i2 : Input),
    walls r = outer_walls_of s ++ inner
    /\ walls_clear (Room.safe_zone szr) (outer_walls_of s) inner
    /\ reached_level s' = reached_level s
    /\ tier s' = tier s
    /\ Room.spawn_enemies a s' (Room.enemy_safe_zone szr) (walls r)
         (boss_room s) false
         (if boss_room s then 1%nat else n) [] i1
       = Ok (enemies r, i2).
Proof.
  unfold Room.init. intros H. inv_bind H as r0 j E. apply ret_Ok in H.
  inversion H; subst; clear H.
  set (s1 := match outer_walls s with
             | Some _ => s
             | None => with_outer_walls s (Some Room.make_outer_walls)
             end) in *.
  assert (Hw : match outer_walls s1 with Some ws => ws | None => [] end
               = outer_walls_of s).
  { unfold s1, outer_walls_of. destruct (outer_walls s) eqn:Eo; simpl.
    - now rewrite Eo.
    - reflexivity. }
  assert (Hl : reached_level s1 = reached_level s)
    by (unfold s1; now destruct (outer_walls s)).
  assert (Ht : tier s1 = tier s) by (unfold s1; now destruct (outer_walls s)).
  rewrite Hw in E. unfold Room.create_room in E.
  inv_bind E as nw j1 E1. inv_bind E as ws1 j2 E2.
  inv_bind E as ne j3 E3. inv_bind E as es j4 E4. apply ret_Ok in E.
  inversion E; subst; clear E.
  apply place_walls_spec in E2. destruct E2 as (inner & -> & Hc).
  exists inner, (Z.to_nat ne), j3, j4. cbn [walls enemies].
  split; [reflexivity|]. split; [exact Hc|]. split; [exact Hl|].
  split; [exact Ht|].
  unfold boss_room, RoomClass.get_reached_level. rewrite <- Hl.
  unfold RoomClass.get_reached_level in E4.
  destruct (_ =? 0); exact E4.
Qed.

(** C4: in every room that was generated, whatever the random draws, the
    walls are the outer walls followed by inner walls of which none
    intersects the safe zone (2s x 2s, centered on the playfield's center) or
    a wall placed before it, and no enemy intersects the enemy safe zone
    (4s x 4s, same center) or a wall of the room. *)
Theorem generated_room_is_clear
    (a : Assets) (s : Statics) (szr : Z) (i : Input)
    (r : room) (s' : Statics) (i' : Input) :
  Room.init a s szr i = Ok (r, s', i') ->
  (let z := Room.safe_zone szr in
   rw z = 2 * szr /\ rh z = 2 * szr
   /\ (centerx z, centery z) = (WIDTH / 2, HEIGHT / 2))
  /\ (let z := Room.enemy_safe_zone szr in
      rw z = 4 * szr /\ rh z = 4 * szr
      /\ (centerx z, centery z) = (WIDTH / 2, HEIGHT / 2))
  /\ exists inner : list Rect,
       walls r = outer_walls_of s ++ inner
       /\ walls_clear (Room.safe_zone szr) (outer_walls_of s) inner
       /\ Forall (enemy_clear (Room.enemy_safe_zone szr) (walls r))
            (enemies r).
Proof.
  intros H. split; [|split].
  - unfold Room.safe_zone, centerx, centery. cbn [rx ry rw rh].
    rewrite Z.div_mul by discriminate. repeat split; try lia. f_equal; lia.
  - unfold Room.enemy_safe_zone, centerx, centery,
      RoomClass.ENEMY_SPAWN_SAFE_MULTIPLIER. cbn [rx ry rw rh].
    rewrite Z.div_mul by discriminate. repeat split; try lia. f_equal; lia.
  - apply room_init_inv in H.
    destruct H as (inner & n & i1 & i2 & Hw & Hc & _ & _ & Hs).
    exists inner. split; [exact Hw|]. split; [exact Hc|].
    eapply spawn_enemies_clear; [exact Hs|constructor].
Qed.

Lemma generated_room_is_clear_witness :
  exists r s' i',
    Room.init example_assets session_start 70 example_input = Ok (r, s', i')
    /\ List.length (walls r) = 7%nat
    /\ List.length (enemies r) = 1%nat
    /\ exists inner : list Rect,
         walls r = Room.make_outer_walls ++ inner
         /\ walls_clear (Room.safe_zone 70) Room.make_outer_walls inner
         /\ Forall (enemy_clear (Room.enemy_safe_zone 70) (walls r))
              (enemies r).
Proof.
  destruct (Room.init example_assets session_start 70 example_input)
    as [[[r s'] i']|h] eqn:E; [|vm_compute in E; discriminate].
  exists r, s', i'. split; [reflexivity|].
  pose proof (generated_room_is_clear _ _ _ _ _ _ _ E) as (_ & _ & Hc).
  vm_compute in E. inversion E; subst. repeat split. exact Hc.
Defined.

(** C5: a room generated at a level with (level + 1) % 4 == 0 holds exactly
    one enemy, a [BossEnemy], whose health is 30 + 3 * level. *)
Theorem boss_room_has_one_boss
    (a : Assets) (s : Statics) (szr : Z) (i : Input)
    (r : room) (s' : Statics) (i' : Input) :
  (reached_level s + 1) mod 4 = 0 ->
  Room.init a s szr i = Ok (r, s', i') ->
  exists e : enemy,
    enemies r = [e]
    /\ e_class e = IsBossEnemy
    /\ e_health e = PInt (30 + 3 * reached_level s).
Proof.
  intros Hb H. apply room_init_inv in H.
  destruct H as (inner & n & i1 & i2 & _ & _ & Hl & _ & Hs).
  assert (Eb : boss_room s = true).
  { unfold boss_room, RoomClass.get_reached_level, Enemy.BOSS_LEVEL_INTERVAL.
    now apply Z.eqb_eq. }
  rewrite Eb in Hs. apply spawn_enemies_boss in Hs.
  destruct Hs as (x & y & Hs). exists (BossEnemy.init a s' x y).
  split; [exact Hs|]. split; [reflexivity|].
  unfold BossEnemy.init, RoomClass.get_reached_level. cbn [e_health].
  now rewrite Hl.
Qed.

Lemma boss_room_has_one_boss_witness :
  exists r s' i',
    Room.init example_assets (with_reached_level session_start 3) 70
      example_input = Ok (r, s', i')
    /\ exists e : enemy,
         enemies r = [e] /\ e_class e = IsBossEnemy
         /\ e_health e = PInt 39.
Proof.
  destruct (Room.init example_assets (with_reached_level session_start 3) 70
              example_input) as [[[r s'] i']|h] eqn:E;
    [|vm_compute in E; discriminate].
  exists r, s', i'. split; [reflexivity|].
  exact (boss_room_has_one_boss example_assets
           (with_reached_level session_start 3) 70 example_input r s' i'
           eq_refl E).
Defined.

(** ** Bullets *)

Lemma hit_first_spec (r : Rect) (dmg : Z) (pre : list enemy) (e : enemy)
    (post : list enemy) :
  Forall (fun x => colliderect r (e_rect x) = false) pre ->
  colliderect r (e_rect e) = true ->
  Bullet.hit_first r dmg (pre ++ e :: post)
  = Some (pre ++ with_e_health e (py_sub (e_health e) (PInt dmg)) :: post).
Proof.
  intros Hpre He. induction Hpre as [|x pre Hx Hpre IH]; simpl.
  - now rewrite He.
  - now rewrite Hx, IH.
Qed.

(** C10: a bullet whose moved rectangle overlaps a wall and an enemy is
    killed, and the first enemy it overlaps, in the order of the group, loses
    the player's damage in that same update; the other enemies are
    untouched. *)
Theorem bullet_wall_hit_still_damages_enemy
    (b : bullet) (ws : list Rect) (p : player)
    (pre : list enemy) (e : enemy) (post : list enemy) :
  (exists w, In w ws /\ colliderect (bullet_moved_rect b) w = true) ->
  Forall (fun x => colliderect (bullet_moved_rect b) (e_rect x) = false) pre ->
  colliderect (bullet_moved_rect b) (e_rect e) = true ->
  Bullet.update b ws (pre ++ e :: post) p
  = (mkBullet (bullet_moved_rect b) (b_dx b) (b_dy b) (b_lifetime b - 1),
     true,
     pre ++ with_e_health e (py_sub (e_health e) (PInt (damage p))) :: post).
Proof.
  intros _ Hpre He. unfold Bullet.update. fold (bullet_moved_rect b).
  rewrite (hit_first_spec _ _ _ _ _ Hpre He). cbn [b_lifetime].
  now destruct (_ || _).
Qed.

Lemma bullet_wall_hit_still_damages_enemy_witness :
  let ws := Room.make_outer_walls ++ [mkRect 110 100 40 40] in
  Bullet.update example_bullet ws example_enemies example_player
  = (mkBullet (mkRect 104 106 12 12) (PFloat 4.2) (PFloat 5.6) 29,
     true,
     [ Enemy.init example_assets session_start 300 300;
       with_e_health
         (Enemy.init example_assets (transitions 2 session_start) 110 115)
         (PFloat 2.4);
       Enemy.init example_assets session_start 112 112 ]).
Proof.
  cbv zeta. etransitivity.
  - apply (bullet_wall_hit_still_damages_enemy example_bullet
             (Room.make_outer_walls ++ [mkRect 110 100 40 40]) example_player
             [Enemy.init example_assets session_start 300 300]
             (Enemy.init example_assets (transitions 2 session_start) 110 115)
             [Enemy.init example_assets session_start 112 112]).
    + exists (mkRect 110 100 40 40). split; [|reflexivity].
      apply in_or_app. right. now left.
    + repeat constructor.
    + reflexivity.
  - vm_compute. reflexivity.
Defined.

(** ** Upgrade offers *)

Lemma randint_Ok (a b d : Z) (ds : list Z) (evs : list (list event)) :
  a <= b ->
  randint a b (mkInput (d :: ds) evs)
  = Ok (a + d mod (b - a + 1), mkInput ds evs)
  /\ a <= a + d mod (b - a + 1) <= b.
Proof.
  intros H. unfold randint.
  replace (b <? a) with false by (symmetry; apply Z.ltb_ge; lia).
  split; [reflexivity|].
  pose proof (Z.mod_pos_bound d (b - a + 1)). lia.
Qed.

Lemma balanced_randint_Ok (lower upper d : Z) (ds : list Z)
    (evs : list (list event)) :
  exists n,
    Game.balanced_randint lower upper (mkInput (d :: ds) evs)
    = Ok (n, mkInput ds evs)
    /\ lower <= n <= balanced_upper lower upper.
Proof.
  unfold Game.balanced_randint. fold (balanced_upper lower upper).
  assert (H : lower <= balanced_upper lower upper).
  { unfold balanced_upper. destruct (Z.geb_spec lower upper); lia. }
  destruct (randint_Ok lower (balanced_upper lower upper) d ds evs H) as [E B].
  eauto.
Qed.

Lemma choice_Ok {A : Type} (l : list A) (d : Z) (ds : list Z)
    (evs : list (list event)) :
  l <> [] ->
  exists x, choice l (mkInput (d :: ds) evs) = Ok (x, mkInput ds evs)
            /\ In x l.
Proof.
  intros Hl. destruct l as [|y l]; [congruence|].
  eexists. split; [reflexivity|]. apply nth_In.
  pose proof (Z.mod_pos_bound d (Z.of_nat (List.length (y :: l)))).
  cbn [List.length] in *. lia.
Qed.

Lemma list_remove_spec (x : string) (l : list string) :
  NoDup l -> In x l ->
  NoDup (list_remove x l)
  /\ ~ In x (list_remove x l)
  /\ (forall y, In y (list_remove x l) -> In y l)
  /\ S (List.length (list_remove x l)) = List.length l.
Proof.
  induction l as [|y l IH]; intros Hnd Hin; [contradiction|].
  inversion Hnd as [|? ? Hy Hl]; subst. simpl.
  destruct (String.eqb_spec y x) as [->|Hne].
  - repeat split; auto with datatypes.
  - destruct Hin as [->|Hin]; [congruence|].
    destruct (IH Hl Hin) as (H1 & H2 & H3 & H4).
    repeat split.
    + constructor; [|exact H1]. intros Hc. apply Hy. now apply H3.
    + intros [Hc|Hc]; [congruence|now apply H2].
    + intros z [->|Hz]; [now left|right; now apply H3].
    + simpl. now rewrite H4.
Qed.

Lemma upgrade_range_defined (f : string) (level : Z) :
  In f Game.functions -> exists lower upper,
    Game.upgrade_range f level = Some (lower, upper).
Proof.
  unfold Game.functions. simpl.
  intros [<-|[<-|[<-|[<-|[<-|[<-|[]]]]]]]; unfold Game.upgrade_range; simpl;
    eauto.
Qed.

(** The loop of [get_upgrade_rects]: with two draws per iteration left and
    enough distinct function names to choose from, it returns the offers it
    had plus one per iteration, each in range, under names that are new. *)
Lemma upgrade_loop_spec (level : Z) (n : nat) :
  forall (k : Z) (fs : list string) (acc : list upgrade) (i : Input),
    NoDup fs ->
    (forall f, In f fs -> In f Game.functions) ->
    (n <= List.length fs)%nat ->
    (2 * n <= List.length (draws i))%nat ->
    exists (new : list upgrade) (i' : Input),
      Game.upgrade_loop level n k fs acc i = Ok (acc ++ new, i')
      /\ List.length new = n
      /\ NoDup (map function_name new)
      /\ Forall (fun u => In (function_name u) fs) new
      /\ Forall (offer_in_range level) new
      /\ map u_rect new
         = map (fun j => u_rect (Upgrade.init (k + Z.of_nat j) "" 0)) (seq 0 n).
Proof.
  induction n as [|n IH]; intros k fs acc [ds evs] Hnd Hfs Hlen Hdr.
  - exists [], (mkInput ds evs). rewrite app_nil_r.
    repeat split; constructor.
  - cbn [draws] in Hdr.
    destruct ds as [|d1 [|d2 ds]]; try (simpl in Hdr; lia).
    assert (Hne : fs <> []) by (destruct fs; [simpl in Hlen; lia|congruence]).
    destruct (choice_Ok fs d1 (d2 :: ds) evs Hne) as (f & Ec & Hf).
    destruct (upgrade_range_defined f level (Hfs f Hf)) as (lo & hi & Er).
    destruct (balanced_randint_Ok lo hi d2 ds evs) as (m & Eb & Hm).
    destruct (list_remove_spec f fs Hnd Hf) as (R1 & R2 & R3 & R4).
    destruct (IH (k + 1) (list_remove f fs)
                (acc ++ [Upgrade.init k f m]) (mkInput ds evs))
      as (new & i' & El & Hl & Hn & Hin & Hr & Hq); auto.
    { lia. }
    { cbn [draws]. simpl in Hdr. lia. }
    exists (Upgrade.init k f m :: new), i'. split.
    { cbn [Game.upgrade_loop]. unfold bind at 1. rewrite Ec. rewrite Er.
      unfold bind at 1. rewrite Eb. rewrite El. now rewrite <- app_assoc. }
    split; [simpl; now rewrite Hl|].
    split.
    { simpl. constructor; [|exact Hn]. intros Hc. apply in_map_iff in Hc.
      destruct Hc as (u & Hu & Hi). rewrite Forall_forall in Hin.
      apply R2. specialize (Hin u Hi). now rewrite Hu in Hin. }
    split.
    { constructor; [exact Hf|]. eapply Forall_impl; [|exact Hin].
      intros u Hu. now apply R3. }
    split.
    { constructor; [|exact Hr]. split; [now apply Hfs|].
      exists lo, hi. now split. }
    cbn [seq map]. rewrite Z.add_0_r. f_equal.
    rewrite Hq, <- seq_shift, map_map. apply map_ext. intros j.
    replace (k + Z.of_nat (S j)) with (k + 1 + Z.of_nat j) by lia.
    reflexivity.
Qed.

(** C9: with the six draws it consumes, [get_upgrade_rects] returns exactly
    3 offers; their function names are pairwise distinct members of the fixed
    list of 6 names; every offer's number lies between the [lower] of its
    function at the current level and the [upper], or [lower + 1] when
    [lower >= upper]; and [balanced_randint] returns a value in that range
    for every pair of bounds, so the sampling does not fail. *)
Theorem upgrade_offers :
  (List.length Game.functions = 6%nat /\ NoDup Game.functions)
  /\ (forall (s : Statics) (i : Input),
         (6 <= List.length (draws i))%nat ->
         exists (offers : list upgrade) (i' : Input),
           Game.get_upgrade_rects s i = Ok (offers, i')
           /\ List.length offers = 3%nat
           /\ NoDup (map function_name offers)
           /\ Forall (offer_in_range (reached_level s)) offers)
  /\ (forall (lower upper d : Z) (ds : list Z) (evs : list (list event)),
         exists n : Z,
           Game.balanced_randint lower upper (mkInput (d :: ds) evs)
           = Ok (n, mkInput ds evs)
           /\ lower <= n <= balanced_upper lower upper).
Proof.
  assert (Hnd : NoDup Game.functions).
  { unfold Game.functions.
    repeat (constructor; [simpl; intuition discriminate|]). constructor. }
  split; [split; [reflexivity|exact Hnd]|]. split.
  - intros s i Hi. unfold Game.get_upgrade_rects.
    destruct (upgrade_loop_spec (RoomClass.get_reached_level s) 3 0
                Game.functions [] i Hnd (fun f H => H))
      as (new & i' & E & Hl & Hn & _ & Hr & _).
    + simpl. lia.
    + simpl. lia.
    + exists new, i'. repeat split; assumption.
  - apply balanced_randint_Ok.
Qed.

Lemma upgrade_offers_witness :
  let s := with_reached_level session_start 7 in
  let i := mkInput [7; 7; 1; 9; 3; 0; 4] [] in
  exists (offers : list upgrade) (i' : Input),
    Game.get_upgrade_rects s i = Ok (offers, i')
    /\ map (fun u => (function_name u, function_number u)) offers
       = [ ("increase_health", 4); ("heal", 7); ("increase_bullet_speed", 3) ]%string
    /\ NoDup (map function_name offers)
    /\ Forall (offer_in_range 7) offers.
Proof.
  cbv zeta.
  destruct (proj1 (proj2 upgrade_offers) (with_reached_level session_start 7)
              (mkInput [7; 7; 1; 9; 3; 0; 4] []))
    as (offers & i' & E & Hl & Hn & Hr).
  - simpl. lia.
  - exists offers, i'. split; [exact E|].
    vm_compute in E. inversion E; subst. repeat split; assumption.
Defined.

(** ** Shooting *)

Lemma py_truediv_Some (a b : num) :
  py_eq b (PInt 0) = false ->
  py_truediv a b = Some (PFloat (to_float a / to_float b)).
Proof. intros H. unfold py_truediv. now rewrite H. Qed.

(** [shoot] never raises: the division is behind the test [dist == 0]. *)
Lemma shoot_returns (hypot : num -> num -> num) (a : Assets) (s : Statics)
    (mouse : Z * Z) (p : player) (bullets : list bullet) :
  exists r, Player.shoot hypot a s mouse p bullets = Ok r.
Proof.
  unfold Player.shoot. destruct (shoot_cooldown p =? 0); [|eauto].
  cbv zeta. destruct (py_eq (hypot _ _) (PInt 0)) eqn:E; [eauto|].
  rewrite !(py_truediv_Some _ _ E). simpl. eauto.
Qed.

(** C6: [shoot] always returns (no division by zero); it returns the player
    and the bullets unchanged when the cooldown has not expired or the mouse
    is exactly on the player's center; otherwise it appends one bullet, whose
    velocity is (dx / dist, dy / dist) times the current bullet speed, and
    resets the cooldown to [shoot_cooldown_set]. *)
Theorem shoot_spec
    (hypot : num -> num -> num) (a : Assets) (s : Statics)
    (mouse : Z * Z) (p : player) (bullets : list bullet) :
  let cx := centerx (rect p) in
  let cy := centery (rect p) in
  let dx := fst mouse - cx in
  let dy := snd mouse - cy in
  let dist := hypot (PInt dx) (PInt dy) in
  hypot_zero_iff hypot dx dy ->
  (exists r, Player.shoot hypot a s mouse p bullets = Ok r)
  /\ (shoot_cooldown p <> 0 \/ mouse = (cx, cy) ->
      Player.shoot hypot a s mouse p bullets = Ok (p, bullets))
  /\ (shoot_cooldown p = 0 -> mouse <> (cx, cy) ->
      Player.shoot hypot a s mouse p bullets
      = Ok (with_shoot_cooldown p (shoot_cooldown_set p),
            bullets
            ++ [mkBullet (get_rect_center (bullet_size a) (cx, cy))
                  (py_mul (PFloat (Z2float dx / to_float dist)) (bullet_speed s))
                  (py_mul (PFloat (Z2float dy / to_float dist)) (bullet_speed s))
                  Bullet.INITIAL_LIFETIME])).
Proof.
  intros cx cy dx dy dist Hh. split; [apply shoot_returns|].
  unfold Player.shoot. fold cx cy. fold dx dy. fold dist. split.
  - intros [Hc|Hm].
    + apply Z.eqb_neq in Hc. now rewrite Hc.
    + destruct (shoot_cooldown p =? 0); [|reflexivity].
      assert (E : py_eq dist (PInt 0) = true).
      { apply Hh. subst dx dy. rewrite Hm. simpl. lia. }
      now rewrite E.
  - intros Hc Hm. rewrite Hc. cbn [Z.eqb].
    assert (E : py_eq dist (PInt 0) = false).
    { destruct (py_eq dist (PInt 0)) eqn:E; [|reflexivity].
      apply Hh in E. destruct E as [E1 E2]. exfalso. apply Hm.
      destruct mouse as [mx my]. subst dx dy. simpl in *. f_equal; lia. }
    rewrite E, !(py_truediv_Some _ _ E). reflexivity.
Qed.

Lemma shoot_spec_witness :
  Player.shoot hypot_binary64 example_assets session_start (403, 354)
    example_player []
  = Ok (with_shoot_cooldown example_player 20,
        [mkBullet (mkRect 394 344 12 12) (PFloat 4.2)
           (PFloat 5.6000000000000005) 60])
  /\ Player.shoot hypot_binary64 example_assets session_start (400, 350)
       example_player []
     = Ok (example_player, []).
Proof.
  split.
  - etransitivity.
    + apply (shoot_spec hypot_binary64 example_assets session_start (403, 354)
               example_player []).
      * unfold hypot_zero_iff. vm_compute. split; [discriminate|].
        intros [H _]. discriminate.
      * reflexivity.
      * vm_compute. discriminate.
    + vm_compute. reflexivity.
  - apply (shoot_spec hypot_binary64 example_assets session_start (400, 350)
             example_player []).
    + unfold hypot_zero_iff. vm_compute. split; auto.
    + right. reflexivity.
Defined.

(** ** Diagonal movement *)

Lemma tick_immunity_rect_speed (p : player) :
  rect (Player.tick_immunity p) = rect p
  /\ speed (Player.tick_immunity p) = speed p.
Proof.
  unfold Player.tick_immunity. destruct (is_immune p); [|tauto].
  simpl. destruct (_ <=? 0); tauto.
Qed.







(* ================================================================== *)
(** * Further properties of the code *)
(* ================================================================== *)

(** ** Player.update *)

Lemma resolve_x_size (dx : num) (hits : list Rect) :
  forall r : Rect,
    rw (Player.resolve_x dx r hits) = rw r
    /\ rh (Player.resolve_x dx r hits) = rh r
    /\ ry (Player.resolve_x dx r hits) = ry r.
Proof.
  unfold Player.resolve_x.
  induction hits as [|w hits IH]; intros r; cbn [fold_left]; [tauto|].
  match goal with
  | |- context [fold_left _ hits ?r0] => destruct (IH r0) as (H1 & H2 & H3)
  end.
  rewrite H1, H2, H3.
  destruct (py_lt (PInt 0) dx); [|destruct (py_lt dx (PInt 0))];
    repeat split.
Qed.

Lemma resolve_y_size (dy : num) (hits : list Rect) :
  forall r : Rect,
    rw (Player.resolve_y dy r hits) = rw r
    /\ rh (Player.resolve_y dy r hits) = rh r
    /\ rx (Player.resolve_y dy r hits) = rx r.
Proof.
  unfold Player.resolve_y.
  induction hits as [|w hits IH]; intros r; cbn [fold_left]; [tauto|].
  match goal with
  | |- context [fold_left _ hits ?r0] => destruct (IH r0) as (H1 & H2 & H3)
  end.
  rewrite H1, H2, H3.
  destruct (py_lt (PInt 0) dy); [|destruct (py_lt dy (PInt 0))];
    repeat split.
Qed.

(** The rectangle [update] leaves, in terms of the one it computed before
    the clamping. *)
Lemma update_rect (keys : Keys) (ws : list Rect) (p : player) :
  exists r : Rect,
    rw r = rw (rect p) /\ rh r = rh (rect p)
    /\ rect (Player.update keys ws p)
       = mkRect (Z.max 0 (Z.min (WIDTH - rw r) (rx r)))
                (Z.max 0 (Z.min (HEIGHT - rh r) (ry r))) (rw r) (rh r).
Proof.
  unfold Player.update.
  assert (Hr : rect (Player.tick_immunity p) = rect p).
  { unfold Player.tick_immunity. destruct (is_immune p); [|reflexivity].
    simpl. now destruct (_ <=? 0). }
  destruct (Player.py_displacement keys (speed (Player.tick_immunity p)))
    as [dx dy]. cbv zeta. rewrite Hr.
  set (r1 := rect_move_x (rect p) dx).
  set (r2 := Player.resolve_x dx r1 (spritecollide r1 (fun w => w) ws)).
  set (r3 := rect_move_y r2 dy).
  set (r4 := Player.resolve_y dy r3 (spritecollide r3 (fun w => w) ws)).
  exists r4.
  destruct (resolve_y_size dy (spritecollide r3 (fun w => w) ws) r3)
    as (Hw4 & Hh4 & _). fold r4 in Hw4, Hh4.
  destruct (resolve_x_size dx (spritecollide r1 (fun w => w) ws) r1)
    as (Hw2 & Hh2 & _). fold r2 in Hw2, Hh2.
  split; [rewrite Hw4; unfold r3; simpl; rewrite Hw2; reflexivity|].
  split; [rewrite Hh4; unfold r3; simpl; rewrite Hh2; reflexivity|].
  now destruct (0 <? shoot_cooldown _).
Qed.

(** X1: whatever the keys and the walls, [Player.update] keeps the size of
    the player's rectangle and leaves it inside the playfield, provided the
    player is no larger than the playfield. *)
Theorem update_stays_in_playfield
    (keys : Keys) (ws : list Rect) (p : player) :
  rw (rect p) <= WIDTH -> rh (rect p) <= HEIGHT ->
  let r := rect (Player.update keys ws p) in
  rw r = rw (rect p) /\ rh r = rh (rect p)
  /\ 0 <= left r /\ right r <= WIDTH
  /\ 0 <= top r /\ bottom r <= HEIGHT.
Proof.
  intros Hw Hh. destruct (update_rect keys ws p) as (r0 & Ew & Eh & E).
  cbv zeta. rewrite E. unfold left, right, top, bottom. cbn [rx ry rw rh].
  rewrite Ew, Eh. repeat split; lia.
Qed.

Lemma update_stays_in_playfield_witness :
  let ws := Room.make_outer_walls in
  let r := rect (Player.update keys_right ws
                   (with_rect example_player (mkRect 790 (-30) 38 45))) in
  0 <= left r /\ right r <= WIDTH /\ 0 <= top r /\ bottom r <= HEIGHT.
Proof.
  cbv zeta.
  destruct (update_stays_in_playfield keys_right Room.make_outer_walls
              (with_rect example_player (mkRect 790 (-30) 38 45)))
    as (_ & _ & H); [vm_compute; discriminate|vm_compute; discriminate|].
  exact H.
Defined.

(** [update] is the immunity countdown, a new rectangle and the cooldown
    step. *)
Lemma update_shape (keys : Keys) (ws : list Rect) (p : player) :
  exists r : Rect,
    Player.update keys ws p
    = let q := with_rect (Player.tick_immunity p) r in
      if 0 <? shoot_cooldown q
      then with_shoot_cooldown q (shoot_cooldown q - 1)
      else q.
Proof.
  unfold Player.update.
  destruct (Player.py_displacement keys (speed (Player.tick_immunity p)))
    as [dx dy]. cbv zeta. eexists. reflexivity.
Qed.

Lemma tick_immunity_cooldown (p : player) :
  shoot_cooldown (Player.tick_immunity p) = shoot_cooldown p.
Proof.
  unfold Player.tick_immunity. destruct (is_immune p); [|reflexivity].
  simpl. now destruct (_ <=? 0).
Qed.

Lemma update_cooldown (keys : Keys) (ws : list Rect) (p : player) :
  shoot_cooldown (Player.update keys ws p)
  = if 0 <? shoot_cooldown p then shoot_cooldown p - 1 else shoot_cooldown p.
Proof.
  destruct (update_shape keys ws p) as [r ->]. cbv zeta.
  cbn [shoot_cooldown with_rect]. rewrite tick_immunity_cooldown.
  destruct (0 <? shoot_cooldown p); simpl; [reflexivity|].
  apply tick_immunity_cooldown.
Qed.

Lemma player_updates_app (l1 l2 : list (Keys * list Rect)) (p : player) :
  player_updates (l1 ++ l2) p = player_updates l2 (player_updates l1 p).
Proof. unfold player_updates. apply fold_left_app. Qed.

Lemma player_updates_cons (f : Keys * list Rect)
    (frames : list (Keys * list Rect)) (p : player) :
  player_updates (f :: frames) p
  = player_updates frames (Player.update (fst f) (snd f) p).
Proof. reflexivity. Qed.

Lemma player_updates_cooldown (frames : list (Keys * list Rect)) :
  forall p : player,
    0 <= shoot_cooldown p ->
    shoot_cooldown (player_updates frames p)
    = Z.max 0 (shoot_cooldown p - Z.of_nat (List.length frames)).
Proof.
  induction frames as [|f frames IH]; intros p Hp.
  - simpl. lia.
  - rewrite player_updates_cons.
    rewrite IH; rewrite update_cooldown;
      destruct (Z.ltb_spec 0 (shoot_cooldown p)); cbn [List.length]; lia.
Qed.

(** X2: the cooldown counts down by one per [update] and stops at 0, and
    [shoot] does nothing on any frame before it has reached 0: a player who
    has just shot (cooldown [c]) cannot shoot again during the next [c - 1]
    updates, whatever happens in them. *)
Theorem cooldown_blocks_shooting
    (hypot : num -> num -> num) (a : Assets) (s : Statics) (mouse : Z * Z)
    (frames : list (Keys * list Rect)) (p : player) (bullets : list bullet) :
  0 <= shoot_cooldown p ->
  shoot_cooldown (player_updates frames p)
  = Z.max 0 (shoot_cooldown p - Z.of_nat (List.length frames))
  /\ (Z.of_nat (List.length frames) < shoot_cooldown p ->
      Player.shoot hypot a s mouse (player_updates frames p) bullets
      = Ok (player_updates frames p, bullets)).
Proof.
  intros Hp. pose proof (player_updates_cooldown frames p Hp) as E.
  split; [exact E|]. intros Hlt. unfold Player.shoot. rewrite E.
  replace (Z.max 0 _ =? 0) with false; [reflexivity|].
  symmetry. apply Z.eqb_neq. lia.
Qed.

Lemma cooldown_blocks_shooting_witness :
  let p := with_shoot_cooldown example_player 20 in
  let frames := repeat (keys_right, Room.make_outer_walls) 19 in
  shoot_cooldown (player_updates frames p) = 1
  /\ Player.shoot hypot_binary64 example_assets session_start (10, 10)
       (player_updates frames p) []
     = Ok (player_updates frames p, []).
Proof.
  cbv zeta.
  destruct (cooldown_blocks_shooting hypot_binary64 example_assets
              session_start (10, 10)
              (repeat (keys_right, Room.make_outer_walls) 19)
              (with_shoot_cooldown example_player 20) [])
    as [E H]; [vm_compute; discriminate|].
  split; [rewrite E; reflexivity|apply H; reflexivity].
Defined.

(** ** Immunity *)

Lemma update_immunity (keys : Keys) (ws : list Rect) (p : player) :
  is_immune (Player.update keys ws p) = is_immune (Player.tick_immunity p)
  /\ immunity_timer (Player.update keys ws p)
     = immunity_timer (Player.tick_immunity p)
  /\ current_health (Player.update keys ws p) = current_health p
  /\ max_health (Player.update keys ws p) = max_health p
  /\ immunity_duration (Player.update keys ws p) = immunity_duration p.
Proof.
  destruct (update_shape keys ws p) as [r ->]. cbv zeta.
  assert (H : current_health (Player.tick_immunity p) = current_health p
              /\ max_health (Player.tick_immunity p) = max_health p
              /\ immunity_duration (Player.tick_immunity p)
                 = immunity_duration p).
  { unfold Player.tick_immunity. destruct (is_immune p); [|tauto].
    simpl. destruct (_ <=? 0); tauto. }
  destruct H as (H1 & H2 & H3).
  destruct (0 <? shoot_cooldown _); simpl; auto.
Qed.

Lemma player_updates_immune (frames : list (Keys * list Rect)) :
  forall p : player,
    is_immune p = true ->
    (Z.of_nat (List.length frames) < immunity_timer p ->
     is_immune (player_updates frames p) = true
     /\ immunity_timer (player_updates frames p)
        = immunity_timer p - Z.of_nat (List.length frames))
    /\ (frames <> [] -> immunity_timer p <= Z.of_nat (List.length frames) ->
        is_immune (player_updates frames p) = false).
Proof.
  induction frames as [|f frames IH]; intros p Hi.
  - split; [intros _; simpl; split; [assumption|lia]|congruence].
  - rewrite player_updates_cons. cbn [List.length].
    destruct (update_immunity (fst f) (snd f) p) as (Ei & Et & _).
    unfold Player.tick_immunity in Ei, Et. rewrite Hi in Ei, Et.
    cbn [immunity_timer with_immunity_timer] in Ei, Et.
    destruct (Z.leb_spec (immunity_timer p - 1) 0) as [Hle|Hgt].
    + (* the countdown ends in this frame *)
      cbn [is_immune with_move_set with_is_immune] in Ei.
      split; [lia|]. intros _ _.
      clear IH Et. revert Ei. generalize (Player.update (fst f) (snd f) p).
      induction frames as [|f' frames IH']; intros q Hq; [exact Hq|].
      rewrite player_updates_cons. apply IH'.
      destruct (update_immunity (fst f') (snd f') q) as (Ei' & _).
      rewrite Ei'. unfold Player.tick_immunity. now rewrite Hq.
    + cbn [is_immune with_immunity_timer] in Ei.
      cbn [immunity_timer with_immunity_timer] in Et.
      rewrite Hi in Ei.
      destruct (IH (Player.update (fst f) (snd f) p) Ei) as [IH1 IH2].
      rewrite Et in IH1, IH2. split.
      * intros Hlt. destruct IH1 as [H1 H2]; [lia|]. split; [exact H1|lia].
      * intros _ Hle. apply IH2; [|lia].
        destruct frames; [simpl in Hle; lia|congruence].
Qed.

Lemma player_updates_health (frames : list (Keys * list Rect)) :
  forall p : player,
    current_health (player_updates frames p) = current_health p
    /\ max_health (player_updates frames p) = max_health p.
Proof.
  induction frames as [|f frames IH]; intros p; [split; reflexivity|].
  rewrite player_updates_cons.
  destruct (IH (Player.update (fst f) (snd f) p)) as [H1 H2].
  destruct (update_immunity (fst f) (snd f) p) as (_ & _ & H3 & H4 & _).
  rewrite H1, H2. now split.
Qed.

Lemma take_damage_sets_immunity (s : Statics) (p : player) :
  is_immune p = false ->
  is_immune (Player.take_damage s p) = true
  /\ immunity_timer (Player.take_damage s p) = immunity_duration p.
Proof.
  intros H. unfold Player.take_damage. rewrite H. cbn [negb].
  now destruct (_ =? 0).
Qed.

(** X3: a hit makes the player immune for [immunity_duration] updates.
    During the updates before the last of them every further [take_damage] is
    a no-op and the health stays what the hit left; the update that brings the
    countdown to 0 ends the immunity. *)
Theorem immunity_window
    (s s' : Statics) (frames : list (Keys * list Rect)) (p : player) :
  is_immune p = false ->
  1 <= immunity_duration p ->
  let q := player_updates frames (Player.take_damage s p) in
  current_health q = current_health (Player.take_damage s p)
  /\ (Z.of_nat (List.length frames) < immunity_duration p ->
      is_immune q = true /\ Player.take_damage s' q = q)
  /\ (immunity_duration p <= Z.of_nat (List.length frames) ->
      is_immune q = false).
Proof.
  intros Hi Hd q.
  destruct (take_damage_sets_immunity s p Hi) as [Hi' Ht].
  destruct (player_updates_immune frames _ Hi') as [H1 H2].
  rewrite Ht in H1, H2.
  split; [apply player_updates_health|]. split.
  - intros Hlt. destruct (H1 Hlt) as [Hq _].
    split; [exact Hq|now apply take_damage_immune].
  - intros Hle. apply H2; [|exact Hle].
    destruct frames; [simpl in Hle; lia|congruence].
Qed.

Lemma immunity_window_witness :
  let hit := Player.take_damage session_start example_player in
  let frame := (keys_right, Room.make_outer_walls) in
  current_health hit = 2
  /\ is_immune (player_updates (repeat frame 59) hit) = true
  /\ Player.take_damage session_start (player_updates (repeat frame 59) hit)
     = player_updates (repeat frame 59) hit
  /\ is_immune (player_updates (repeat frame 60) hit) = false.
Proof.
  cbv zeta. split; [reflexivity|].
  destruct (immunity_window session_start session_start
              (repeat (keys_right, Room.make_outer_walls) 59) example_player)
    as (_ & H59 & _); [reflexivity|vm_compute; discriminate|].
  destruct (immunity_window session_start session_start
              (repeat (keys_right, Room.make_outer_walls) 60) example_player)
    as (_ & _ & H60); [reflexivity|vm_compute; discriminate|].
  destruct H59 as [Ha Hb]; [reflexivity|].
  split; [exact Ha|]. split; [exact Hb|]. apply H60. vm_compute. discriminate.
Defined.

(** ** Running into a wall *)

Lemma resolve_y_still (r : Rect) (hits : list Rect) :
  Player.resolve_y (PInt 0) r hits = r.
Proof.
  unfold Player.resolve_y. induction hits as [|w hits IH]; [reflexivity|].
  exact IH.
Qed.

(** X4: a player who holds only the "d" key and, after the horizontal move,
    overlaps exactly one wall ends the update with the right edge on that
    wall's left edge, neither overlapping it nor leaving a gap (as long as
    that position is inside the playfield). *)
Theorem move_right_stops_at_wall
    (ws : list Rect) (p : player) (spd : Z) (w : Rect) :
  speed p = PInt spd -> 0 < spd ->
  0 < rw (rect p) -> 0 < rw w ->
  spritecollide (set_x (rect p) (rx (rect p) + spd)) (fun v => v) ws = [w] ->
  0 <= left w - rw (rect p) -> left w <= WIDTH ->
  let r := rect (Player.update keys_right ws p) in
  right r = left w /\ colliderect r w = false.
Proof.
  intros Hs Hspd Hw Hww Hhit H0 HW.
  assert (E : rect (Player.update keys_right ws p)
              = let r2 := set_right (set_x (rect p) (rx (rect p) + spd))
                            (left w) in
                mkRect (Z.max 0 (Z.min (WIDTH - rw r2) (rx r2)))
                       (Z.max 0 (Z.min (HEIGHT - rh r2) (ry r2)))
                       (rw r2) (rh r2)).
  { unfold Player.update.
    destruct (tick_immunity_rect_speed p) as [Er Esp]. rewrite Er, Esp, Hs.
    assert (Ed : Player.py_displacement keys_right (PInt spd)
                 = (PInt spd, PInt 0)).
    { unfold Player.py_displacement, Player.key_displacement, keys_right.
      cbn [K_a K_LEFT K_d K_RIGHT K_w K_UP K_s K_DOWN orb py_eq].
      now rewrite andb_false_r. }
    rewrite Ed. cbv zeta.
    assert (E1 : rect_move_x (rect p) (PInt spd)
                 = set_x (rect p) (rx (rect p) + spd)) by reflexivity.
    rewrite E1, Hhit.
    assert (E2 : Player.resolve_x (PInt spd)
                   (set_x (rect p) (rx (rect p) + spd)) [w]
                 = set_right (set_x (rect p) (rx (rect p) + spd)) (left w)).
    { unfold Player.resolve_x. cbn [fold_left py_lt].
      now replace (0 <? spd) with true by (symmetry; apply Z.ltb_lt; lia). }
    rewrite E2.
    set (r2 := set_right (set_x (rect p) (rx (rect p) + spd)) (left w)).
    assert (E3 : rect_move_y r2 (PInt 0) = r2).
    { unfold rect_move_y, set_y. cbn [py_add py_int]. rewrite Z.add_0_r.
      now destruct r2. }
    rewrite E3, resolve_y_still.
    now destruct (0 <? shoot_cooldown _). }
  cbv zeta. rewrite E. clear E. cbv zeta.
  unfold set_right, set_x, left, right, colliderect in *. cbn [rx ry rw rh].
  assert (Ex : Z.max 0 (Z.min (WIDTH - rw (rect p)) (rx w - rw (rect p)))
               = rx w - rw (rect p)) by lia.
  rewrite Ex. split; [lia|].
  destruct (_ || _); [reflexivity|].
  replace (Z.min (rx w) (rx w + rw w)
           <? Z.max (rx w - rw (rect p)) (rx w - rw (rect p) + rw (rect p)))
    with false by (symmetry; apply Z.ltb_ge; lia).
  now rewrite andb_false_r.
Qed.

Lemma move_right_stops_at_wall_witness :
  let wall := mkRect 420 300 40 100 in
  let ws := Room.make_outer_walls ++ [wall] in
  let r := rect (Player.update keys_right ws example_player) in
  rect example_player = mkRect 381 328 38 45
  /\ right r = 420 /\ colliderect r wall = false.
Proof.
  cbv zeta. split; [reflexivity|].
  apply (move_right_stops_at_wall
           (Room.make_outer_walls ++ [mkRect 420 300 40 100])
           example_player 3 (mkRect 420 300 40 100));
    try reflexivity; vm_compute; discriminate.
Defined.

(** ** Upgrades and the limits of the statistics *)

Lemma activate_keeps_caps (u : upgrade) (g g' : game) :
  stats_capped g -> Upgrade.activate u g = Some g' -> stats_capped g'.
Proof.
  unfold stats_capped, Upgrade.activate. intros (H1 & H2 & H3 & H4 & H5) H.
  repeat match type of H with
         | (if ?c then _ else _) = _ => destruct c
         end;
    try discriminate; inversion H; subst; clear H; cbn;
    repeat split; try assumption; try lia; apply py_min_le.
Qed.

Lemma apply_op_keeps_caps (op : player_op) (g : game) :
  stats_capped g -> stats_capped (apply_op op g).
Proof.
  intros H. destruct op as [n|n|n|n| |u]; cbn [apply_op].
  - exact H.
  - exact H.
  - unfold stats_capped in *. cbn. intuition lia.
  - unfold stats_capped in *. cbn. intuition lia.
  - unfold stats_capped in *. cbn [g_player g_statics with_g_player].
    rewrite take_damage_max_health.
    unfold Player.take_damage.
    destruct (negb (is_immune (g_player g))); [destruct (_ =? 0)|]; exact H.
  - destruct (Upgrade.activate u g) eqn:E; [|exact H].
    eapply activate_keeps_caps; eauto.
Qed.

(** X5: however many upgrades are activated, and whatever else is done to
    the player's health, the damage never exceeds 10, the maximum health 21,
    the speed 15 and the bullet speed 30, and the cooldown setting never drops
    below 1. *)
Theorem stats_stay_capped (ops : list player_op) (g : game) :
  stats_capped g -> stats_capped (run_ops ops g).
Proof.
  revert g. induction ops as [|op ops IH]; intros g H; [exact H|].
  apply IH. now apply apply_op_keeps_caps.
Qed.

Lemma stats_stay_capped_witness :
  let ops :=
    [ OpActivate (Upgrade.init 0 "increase_damage" 5);
      OpActivate (Upgrade.init 1 "increase_damage" 5);
      OpActivate (Upgrade.init 2 "increase_speed" 40);
      OpActivate (Upgrade.init 0 "decrease_shoot_cooldown" 25);
      OpActivate (Upgrade.init 1 "increase_bullet_speed" 100);
      OpActivate (Upgrade.init 2 "increase_health" 50) ] in
  let g := run_ops ops (example_game session_start) in
  stats_capped g
  /\ damage (g_player g) = 10
  /\ speed (g_player g) = PInt 15
  /\ shoot_cooldown_set (g_player g) = 1
  /\ bullet_speed (g_statics g) = PInt 30
  /\ max_health (g_player g) = 21.
Proof.
  cbv zeta. split; [|vm_compute; repeat split; reflexivity].
  apply stats_stay_capped. unfold stats_capped. vm_compute.
  repeat split; congruence.
Defined.

(** X6: the bounded changes add up: two heals, two increases of the damage
    or of the maximum health, or two decreases of the cooldown, the second by
    a non-negative amount, are one change by the sum. *)
Theorem bounded_changes_compose (m n : Z) (p : player) :
  0 <= n ->
  Player.heal n (Player.heal m p) = Player.heal (m + n) p
  /\ Player.increase_damage n (Player.increase_damage m p)
     = Player.increase_damage (m + n) p
  /\ Player.increase_health n (Player.increase_health m p)
     = Player.increase_health (m + n) p
  /\ Player.decrease_shoot_cooldown n (Player.decrease_shoot_cooldown m p)
     = Player.decrease_shoot_cooldown (m + n) p.
Proof.
  intros Hn.
  unfold Player.heal, Player.increase_damage, Player.increase_health,
    Player.decrease_shoot_cooldown, Player.MAX_DAMAGE, Player.MAX_HEALTH,
    Player.MIN_SHOOT_COOLDOWN.
  unfold with_current_health, with_damage, with_max_health,
    with_shoot_cooldown_set. cbn.
  repeat split; f_equal; lia.
Qed.

Lemma bounded_changes_compose_witness :
  Player.increase_damage 5 (Player.increase_damage 5 example_player)
  = Player.increase_damage 10 example_player
  /\ damage (Player.increase_damage 10 example_player) = 10.
Proof.
  split; [|reflexivity].
  apply (bounded_changes_compose 5 5 example_player). vm_compute. discriminate.
Defined.

(** ** Bullets *)

Lemma bullet_update_lifetime (b : bullet) (ws : list Rect) (es : list enemy)
    (p : player) :
  let '(b', killed, _) := Bullet.update b ws es p in
  b_lifetime b' = b_lifetime b - 1
  /\ (b_lifetime b <= 1 -> killed = true).
Proof.
  unfold Bullet.update.
  destruct (Bullet.hit_first _ (damage p) es) as [es'|]; cbn [b_lifetime];
    (split; [reflexivity|]); intros H;
    replace (b_lifetime b - 1 <=? 0) with true
      by (symmetry; apply Z.leb_le; lia);
    now rewrite !orb_true_r.
Qed.

Lemma bullets_update_lifetimes (n : Z) (ws : list Rect) (p : player)
    (bullets : list bullet) :
  forall es : list enemy,
    Forall (fun b => b_lifetime b <= n + 1) bullets ->
    Forall (fun b => 0 < b_lifetime b <= n)
           (fst (bullets_update bullets ws es p)).
Proof.
  induction bullets as [|b bullets IH]; intros es H; [constructor|].
  inversion H as [|? ? Hb Hrest]; subst. cbn [bullets_update].
  pose proof (bullet_update_lifetime b ws es p) as Hu.
  destruct (Bullet.update b ws es p) as [[b' killed] es'].
  destruct Hu as [Hl Hk].
  specialize (IH es' Hrest).
  destruct (bullets_update bullets ws es' p) as [rest' es''].
  cbn [fst] in *. destruct killed; [exact IH|].
  constructor; [|exact IH].
  destruct (Z_le_gt_dec (b_lifetime b) 1) as [Hle|Hgt];
    [specialize (Hk Hle); discriminate|lia].
Qed.

(** X7: no bullet outlives its lifetime: if every bullet of the group has a
    positive lifetime of at most [n] (a new bullet has 60), the group is empty
    after [n] calls of [bullets.update], whatever walls, enemies and player
    they are given. *)
Theorem bullets_expire (frames : list (list Rect * player)) :
  forall (bullets : list bullet) (es : list enemy),
    Forall (fun b => 0 < b_lifetime b <= Z.of_nat (List.length frames))
           bullets ->
    fst (bullet_rounds frames bullets es) = [].
Proof.
  induction frames as [|[ws p] frames IH]; intros bullets es H.
  - destruct bullets as [|b bullets]; [reflexivity|].
    inversion H; subst. simpl in *. lia.
  - cbn [bullet_rounds].
    pose proof (bullets_update_lifetimes
                  (Z.of_nat (List.length frames)) ws p bullets es) as Hu.
    destruct (bullets_update bullets ws es p) as [bullets' es'].
    apply IH. apply Hu. eapply Forall_impl; [|exact H].
    intros b Hb. cbn [List.length] in Hb. lia.
Qed.

Lemma bullets_expire_witness :
  let b := Bullet.init example_assets session_start 400 350
             (PFloat 0) (PFloat 0) in
  b_lifetime b = 60
  /\ fst (bullet_rounds (repeat ([], example_player) 60) [b; b] []) = [].
Proof.
  cbv zeta. split; [reflexivity|].
  apply bullets_expire. repeat constructor; vm_compute; discriminate.
Defined.

Lemma hit_first_none (r : Rect) (dmg : Z) (es : list enemy) :
  Forall (fun e => colliderect r (e_rect e) = false) es ->
  Bullet.hit_first r dmg es = None.
Proof.
  induction 1 as [|e es He Hes IH]; [reflexivity|].
  simpl. now rewrite He, IH.
Qed.

Lemma hit_first_cases (r : Rect) (dmg : Z) (es : list enemy) :
  (Forall (fun e => colliderect r (e_rect e) = false) es
   /\ Bullet.hit_first r dmg es = None)
  \/ (exists pre e post,
         es = pre ++ e :: post
         /\ Forall (fun x => colliderect r (e_rect x) = false) pre
         /\ colliderect r (e_rect e) = true
         /\ Bullet.hit_first r dmg es
            = Some (pre ++ with_e_health e (py_sub (e_health e) (PInt dmg))
                          :: post)).
Proof.
  induction es as [|e es IH].
  - left. split; [constructor|reflexivity].
  - destruct (colliderect r (e_rect e)) eqn:E.
    + right. exists [], e, es. repeat split; [constructor|exact E|].
      simpl. now rewrite E.
    + destruct IH as [[Hf Hn]|(pre & x & post & -> & Hpre & Hx & Hh)].
      * left. split; [now constructor|]. simpl. now rewrite E, Hn.
      * right. exists (e :: pre), x, post.
        repeat split; [now constructor|exact Hx|].
        simpl. now rewrite E, Hh.
Qed.

(** X8: one call of [Bullet.update] changes at most one enemy.  Either no
    enemy overlaps the moved bullet: then the enemies are untouched and the
    bullet is killed exactly when it overlaps a wall, has left the playfield
    or its lifetime is used up; or the first overlapping enemy alone loses the
    player's damage and the bullet is killed. *)
Theorem bullet_update_cases
    (b : bullet) (ws : list Rect) (es : list enemy) (p : player) :
  let r := bullet_moved_rect b in
  let '(b', killed, es') := Bullet.update b ws es p in
  b_rect b' = r
  /\ ((Forall (fun e => colliderect r (e_rect e) = false) es
       /\ es' = es
       /\ killed
          = existsb (colliderect r) ws
            || (right r <? 0) || (WIDTH <? left r) || (bottom r <? 0)
            || (HEIGHT <? top r) || (b_lifetime b <=? 1))
      \/ (exists pre e post,
             es = pre ++ e :: post
             /\ Forall (fun x => colliderect r (e_rect x) = false) pre
             /\ colliderect r (e_rect e) = true
             /\ es' = pre ++ with_e_health e
                               (py_sub (e_health e) (PInt (damage p)))
                             :: post
             /\ killed = true)).
Proof.
  cbv zeta. unfold Bullet.update. fold (bullet_moved_rect b).
  set (r := bullet_moved_rect b).
  destruct (hit_first_cases r (damage p) es)
    as [[Hf Hn]|(pre & e & post & -> & Hpre & He & Hh)].
  - rewrite Hn. cbn [b_rect b_lifetime]. split; [reflexivity|]. left.
    split; [exact Hf|]. split; [reflexivity|].
    assert (Ew : nonempty (spritecollide r (fun w => w) ws)
                 = existsb (colliderect r) ws).
    { unfold spritecollide. induction ws as [|w ws IHw]; [reflexivity|].
      simpl. destruct (colliderect r w); [reflexivity|exact IHw]. }
    rewrite Ew.
    assert (El : (b_lifetime b - 1 <=? 0) = (b_lifetime b <=? 1)).
    { destruct (Z.leb_spec (b_lifetime b - 1) 0),
        (Z.leb_spec (b_lifetime b) 1); reflexivity || lia. }
    rewrite El.
    destruct (existsb (colliderect r) ws), (right r <? 0), (WIDTH <? left r),
      (bottom r <? 0), (HEIGHT <? top r), (b_lifetime b <=? 1); reflexivity.
  - rewrite Hh. cbn [b_rect b_lifetime]. split; [reflexivity|]. right.
    exists pre, e, post. repeat split; try assumption.
    now destruct (_ || _).
Qed.

(** ** The upgrade pause *)

Lemma NoDup_map_inj {A B : Type} (f : A -> B) (l : list A) (x y : A) :
  NoDup (map f l) -> In x l -> In y l -> f x = f y -> x = y.
Proof.
  induction l as [|a l IH]; intros Hnd Hx Hy E; [contradiction|].
  simpl in Hnd. inversion Hnd as [|? ? Ha Hl]; subst.
  destruct Hx as [->|Hx], Hy as [->|Hy]; auto.
  - exfalso. apply Ha. rewrite E. now apply in_map.
  - exfalso. apply Ha. rewrite <- E. now apply in_map.
Qed.

(** X9: the three offers of [get_upgrade_rects] occupy three fixed
    rectangles side by side, inside the 800 x 700 window, and no point of the
    screen lies in two of them. *)
Theorem offers_layout (s : Statics) (i : Input) :
  (6 <= List.length (draws i))%nat ->
  exists (offers : list upgrade) (i' : Input),
    Game.get_upgrade_rects s i = Ok (offers, i')
    /\ map u_rect offers = offer_rects
    /\ Forall (fun r => 0 <= left r /\ right r <= WIDTH
                        /\ 0 <= top r /\ bottom r <= HEIGHT) offer_rects
    /\ (forall (pos : Z * Z) (u v : upgrade),
           In u offers -> In v offers ->
           collidepoint (u_rect u) pos = true ->
           collidepoint (u_rect v) pos = true -> u = v).
Proof.
  intros Hi. unfold Game.get_upgrade_rects.
  assert (Hnd : NoDup Game.functions).
  { unfold Game.functions.
    repeat (constructor; [simpl; intuition discriminate|]). constructor. }
  destruct (upgrade_loop_spec (RoomClass.get_reached_level s) 3 0
              Game.functions [] i Hnd (fun f H => H))
    as (new & i' & E & _ & _ & _ & _ & Hr); [simpl; lia|simpl; lia|].
  exists new, i'. split; [exact E|]. change (map u_rect new = offer_rects) in Hr.
  split; [exact Hr|]. split.
  - unfold offer_rects, left, right, top, bottom, WIDTH, HEIGHT,
      Constants.GAME_WIDTH, Constants.GAME_HEIGHT.
    repeat constructor; simpl; lia.
  - intros pos u v Hu Hv Cu Cv.
    apply (NoDup_map_inj u_rect new); try assumption.
    + rewrite Hr. unfold offer_rects.
      repeat (constructor; [simpl; intuition discriminate|]). constructor.
    + apply (in_map u_rect) in Hu, Hv. rewrite Hr in Hu, Hv.
      unfold collidepoint in Cu, Cv.
      rewrite !andb_true_iff, !Z.leb_le, !Z.ltb_lt in Cu, Cv.
      unfold offer_rects in Hu, Hv. simpl in Hu, Hv.
      destruct Hu as [Hu|[Hu|[Hu|[]]]], Hv as [Hv|[Hv|[Hv|[]]]];
        rewrite <- Hu, <- Hv in *; simpl in Cu, Cv; try reflexivity; lia.
Qed.

Lemma offers_layout_witness :
  exists (offers : list upgrade) (i' : Input),
    Game.get_upgrade_rects (with_reached_level session_start 7)
      (mkInput [7; 7; 1; 9; 3; 0; 4] []) = Ok (offers, i')
    /\ map u_rect offers = offer_rects.
Proof.
  destruct (offers_layout (with_reached_level session_start 7)
              (mkInput [7; 7; 1; 9; 3; 0; 4] []))
    as (offers & i' & E & Hr & _); [simpl; lia|].
  exists offers, i'. now split.
Defined.

Lemma apply_offers_snoc (picks : list upgrade) (u : upgrade) (g : game) :
  apply_offers (picks ++ [u]) g = apply_offer (apply_offers picks g) u.
Proof. unfold apply_offers. now rewrite fold_left_app. Qed.

(** What the clicks of one event, one batch and the whole pause amount
    to: some of the offers, activated in order. *)
Lemma upgrade_event_picks (offers : list upgrade) (ev : event) (g0 g g' : game)
    (picks : list upgrade) :
  Forall (fun u => In u offers) picks ->
  apply_offers picks g0 = Some g ->
  Game.upgrade_event offers ev g = Ok g' ->
  exists picks',
    Forall (fun u => In u offers) picks'
    /\ apply_offers picks' g0 = Some g'
    /\ (List.length picks <= List.length picks')%nat.
Proof.
  intros Hin Hap H.
  destruct ev as [|pos button|key|]; simpl in H;
    [discriminate| |inversion H; subst; exists picks; auto
    |inversion H; subst; exists picks; auto].
  assert (Hall : forall l, (forall u, In u l -> In u offers) ->
            forall g1 picks1,
              Forall (fun u => In u offers) picks1 ->
              apply_offers picks1 g0 = Some g1 ->
              fold_left
                (fun r u =>
                   res_bind r (fun g =>
                     if collidepoint (u_rect u) pos
                     then res_bind
                            (of_option AttributeError (Upgrade.activate u g))
                            (fun g => Ok (with_g_can_upgrade g false))
                     else Ok g)) l (Ok g1) = Ok g' ->
              exists picks',
                Forall (fun u => In u offers) picks'
                /\ apply_offers picks' g0 = Some g'
                /\ (List.length picks1 <= List.length picks')%nat).
  { induction l as [|u l IH]; intros Hl g1 picks1 Hp1 Ha1 Hf.
    - simpl in Hf. inversion Hf; subst. exists picks1. auto.
    - cbn [fold_left res_bind] in Hf.
      destruct (collidepoint (u_rect u) pos).
      + destruct (Upgrade.activate u g1) as [g2|] eqn:Ea; cbn in Hf.
        * destruct (IH (fun v Hv => Hl v (or_intror Hv))
                      (with_g_can_upgrade g2 false) (picks1 ++ [u]))
            as (picks' & P1 & P2 & P3); try assumption.
          { apply Forall_app. split; [exact Hp1|].
            constructor; [apply Hl; now left|constructor]. }
          { rewrite apply_offers_snoc, Ha1. cbn. now rewrite Ea. }
          exists picks'. repeat split; try assumption.
          rewrite length_app in P3. simpl in P3. lia.
        * rewrite fold_res_halt in Hf. discriminate.
      + apply (IH (fun v Hv => Hl v (or_intror Hv)) g1 picks1); assumption. }
  apply (Hall offers (fun u H => H) g picks); assumption.
Qed.

Lemma upgrade_batch_picks (offers : list upgrade) (batch : list event) :
  forall (g0 g g' : game) (picks : list upgrade),
    Forall (fun u => In u offers) picks ->
    apply_offers picks g0 = Some g ->
    fold_left (fun r ev => res_bind r (Game.upgrade_event offers ev))
      batch (Ok g) = Ok g' ->
    exists picks',
      Forall (fun u => In u offers) picks'
      /\ apply_offers picks' g0 = Some g'.
Proof.
  induction batch as [|ev batch IH]; intros g0 g g' picks Hp Ha Hf.
  - simpl in Hf. inversion Hf; subst. eauto.
  - cbn [fold_left res_bind] in Hf.
    destruct (Game.upgrade_event offers ev g) as [g1|h] eqn:Ee.
    + destruct (upgrade_event_picks offers ev g0 g g1 picks Hp Ha Ee)
        as (picks1 & P1 & P2 & _).
      eapply IH; eauto.
    + rewrite fold_res_halt in Hf. discriminate.
Qed.

Lemma upgrade_wait_picks (offers : list upgrade) (fuel : nat) :
  forall (g0 g : game) (i : Input) (g' : game) (i' : Input)
         (picks : list upgrade),
    Forall (fun u => In u offers) picks ->
    apply_offers picks g0 = Some g ->
    Game.upgrade_wait offers g fuel i = Ok (g', i') ->
    g_can_upgrade g' = false
    /\ exists picks',
         Forall (fun u => In u offers) picks'
         /\ apply_offers picks' g0 = Some g'.
Proof.
  induction fuel as [|fuel IH]; intros g0 g i g' i' picks Hp Ha H;
    [discriminate|].
  cbn [Game.upgrade_wait] in H.
  destruct (g_can_upgrade g) eqn:Ec.
  - inv_bind H as batch j E.
    destruct (fold_left _ batch (Ok g)) as [g1|h] eqn:Ef; [|discriminate].
    destruct (upgrade_batch_picks offers batch g0 g g1 picks Hp Ha Ef)
      as (picks1 & P1 & P2).
    eapply IH; eauto.
  - apply ret_Ok in H. inversion H; subst. split; [exact Ec|eauto].
Qed.



(** ** More on generated rooms *)

Lemma randint_range (a b : Z) (i : Input) (x : Z) (i' : Input) :
  randint a b i = Ok (x, i') -> a <= x <= b.
Proof.
  unfold randint. destruct (Z.ltb_spec b a); [discriminate|].
  unfold bind, draw. destruct (draws i) as [|d ds]; [discriminate|].
  intros E. inversion E; subst.
  pose proof (Z.mod_pos_bound d (b - a + 1)). lia.
Qed.

Lemma choice_in {A : Type} (l : list A) (i : Input) (x : A) (i' : Input) :
  choice l i = Ok (x, i') -> In x l.
Proof.
  destruct l as [|y l]; [discriminate|].
  destruct i as [[|d ds] evs]; [discriminate|]. intros E.
  destruct (choice_Ok (y :: l) d ds evs) as (x' & E' & Hin); [discriminate|].
  rewrite E in E'. now inversion E'; subst.
Qed.

Lemma place_wall_bounds (zone : Rect) (ws : list Rect) (fuel : nat) :
  forall (i : Input) (w : Rect) (i' : Input),
    Room.place_wall zone ws fuel i = Ok (w, i') ->
    80 <= rx w <= 680 /\ 80 <= ry w <= 580
    /\ In (rw w) [40; 80; 120] /\ In (rh w) [40; 80; 120].
Proof.
  induction fuel as [|fuel IH]; intros i w i' H; [discriminate|].
  cbn [Room.place_wall] in H.
  inv_bind H as x j1 E1. inv_bind H as y j2 E2.
  inv_bind H as width j3 E3. inv_bind H as height j4 E4.
  destruct (Room.clear_of (mkRect x y width height) zone ws).
  - apply ret_Ok in H. inversion H; subst. cbn [rx ry rw rh].
    apply randint_range in E1, E2. apply choice_in in E3, E4.
    repeat split; try assumption; vm_compute in E1, E2 |- *;
      destruct E1, E2; assumption.
  - eapply IH; eauto.
Qed.

Lemma place_walls_inner (zone : Rect) (n : nat) :
  forall (ws : list Rect) (i : Input) (ws' : list Rect) (i' : Input),
    Room.place_walls zone n ws i = Ok (ws', i') ->
    exists inner,
      ws' = ws ++ inner /\ List.length inner = n
      /\ Forall (fun w => 80 <= rx w <= 680 /\ 80 <= ry w <= 580
                          /\ In (rw w) [40; 80; 120]
                          /\ In (rh w) [40; 80; 120]) inner.
Proof.
  induction n as [|n IH]; intros ws i ws' i' H.
  - apply ret_Ok in H. inversion H; subst. exists [].
    rewrite app_nil_r. repeat split. constructor.
  - cbn [Room.place_walls] in H. inv_bind H as w0 j E.
    unfold with_draw_fuel in E. apply place_wall_bounds in E.
    apply IH in H. destruct H as (inner & -> & Hl & Hf).
    exists (w0 :: inner). rewrite <- app_assoc. simpl.
    repeat split; [now rewrite Hl|now constructor].
Qed.

Lemma spawn_enemy_position (a : Assets) (s : Statics) (zone : Rect)
    (ws : list Rect) (boss : bool) (fuel : nat) :
  forall (bs : bool) (i : Input) (e : enemy) (bs' : bool) (i' : Input),
    Room.spawn_enemy a s zone ws boss bs fuel i = Ok (e, bs', i') ->
    exists x y,
      80 <= x <= 720 /\ 80 <= y <= 620
      /\ e = if boss then BossEnemy.init a s x y else Enemy.init a s x y.
Proof.
  induction fuel as [|fuel IH]; intros bs i e bs' i' H; [discriminate|].
  cbn [Room.spawn_enemy] in H.
  inv_bind H as x j1 E1. inv_bind H as y j2 E2. cbv zeta in H.
  revert H.
  destruct (Room.clear_of
              (e_rect (if boss then BossEnemy.init a s x y
                       else Enemy.init a s x y)) zone ws); intros H.
  - apply ret_Ok in H. inversion H; subst.
    apply randint_range in E1, E2. exists x, y.
    vm_compute in E1, E2. destruct E1, E2.
    repeat split; assumption.
  - eapply IH; eauto.
Qed.

Lemma spawn_enemies_plain (a : Assets) (s : Statics) (zone : Rect)
    (ws : list Rect) (n : nat) :
  forall (es : list enemy) (i : Input) (es' : list enemy) (i' : Input),
    Room.spawn_enemies a s zone ws false false n es i = Ok (es', i') ->
    exists new,
      es' = es ++ new /\ List.length new = n
      /\ Forall (fun e => exists x y,
                     80 <= x <= 720 /\ 80 <= y <= 620
                     /\ e = Enemy.init a s x y) new.
Proof.
  induction n as [|n IH]; intros es i es' i' H.
  - apply ret_Ok in H. inversion H; subst. exists [].
    rewrite app_nil_r. repeat split. constructor.
  - cbn [Room.spawn_enemies] in H.
    inv_bind H as eb j E. destruct eb as [e bs1].
    unfold with_draw_fuel in E.
    pose proof (spawn_enemy_spec _ _ _ _ _ _ _ _ _ _ _ E) as (_ & _ & ->).
    apply spawn_enemy_position in E. destruct E as (x & y & Hx & Hy & ->).
    apply IH in H. destruct H as (new & -> & Hl & Hf).
    exists (Enemy.init a s x y :: new). rewrite <- app_assoc. simpl.
    repeat split; [now rewrite Hl|]. constructor; [|exact Hf].
    now exists x, y.
Qed.

(** The parts of a room that was generated. *)
Lemma room_init_parts (a : Assets) (s : Statics) (szr : Z) (i : Input)
    (r : room) (s' : Statics) (i' : Input) :
  Room.init a s szr i = Ok (r, s', i') ->
  s' = with_outer_walls s (Some (outer_walls_of s))
  /\ exists (nw ne : Z) (j1 j2 j3 : Input),
       3 <= nw <= 6
       /\ Room.place_walls (Room.safe_zone szr) (Z.to_nat nw)
            (outer_walls_of s) j1 = Ok (walls r, j2)
       /\ 1 + int_div (reached_level s) 2 <= ne
          <= 3 + int_div (reached_level s) 2
       /\ Room.spawn_enemies a s' (Room.enemy_safe_zone szr) (walls r)
            (boss_room s) false
            (if boss_room s then 1%nat else Z.to_nat ne) [] j3
          = Ok (enemies r, i').
Proof.
  unfold Room.init. intros H. inv_bind H as r0 j E. apply ret_Ok in H.
  inversion H; subst; clear H.
  assert (Es : match outer_walls s with
               | Some _ => s
               | None => with_outer_walls s (Some Room.make_outer_walls)
               end = with_outer_walls s (Some (outer_walls_of s))).
  { unfold outer_walls_of. destruct s as [h sp d l b [o|]]; reflexivity. }
  rewrite Es in *. split; [reflexivity|].
  cbn [outer_walls with_outer_walls] in E. unfold Room.create_room in E.
  inv_bind E as nw j1 E1. inv_bind E as ws1 j2 E2.
  inv_bind E as ne j3 E3. inv_bind E as es j4 E4. apply ret_Ok in E.
  inversion E; subst; clear E. cbn [walls enemies].
  exists nw, ne, j1, j2, j3.
  apply randint_range in E1, E3.
  split; [exact E1|]. split; [exact E2|].
  split; [cbn [reached_level with_outer_walls] in E3;
          unfold Room.NUMBER_OF_ENEMIES_BASE in E3; lia|].
  unfold boss_room. unfold RoomClass.get_reached_level in *.
  cbn [reached_level with_outer_walls] in E4.
  destruct (_ =? 0); exact E4.
Qed.

(** X11: a generated room has its outer walls and between 3 and 6 inner
    walls; unless it is a boss room, it has between [1 + int(level / 2)] and
    [3 + int(level / 2)] enemies, all of class [Enemy], standing still, with
    the health and the speed of the current tier. *)
Theorem room_population
    (a : Assets) (s : Statics) (szr : Z) (i : Input)
    (r : room) (s' : Statics) (i' : Input) :
  Room.init a s szr i = Ok (r, s', i') ->
  (exists inner,
      walls r = outer_walls_of s ++ inner
      /\ (3 <= List.length inner <= 6)%nat)
  /\ (boss_room s = false ->
      1 + int_div (reached_level s) 2 <= Z.of_nat (List.length (enemies r))
      /\ Z.of_nat (List.length (enemies r))
         <= Z.max 0 (3 + int_div (reached_level s) 2)
      /\ Forall (fresh_enemy s) (enemies r)).
Proof.
  intros H. apply room_init_parts in H.
  destruct H as (-> & nw & ne & j1 & j2 & j3 & Hnw & Ew & Hne & Ee).
  split.
  - apply place_walls_inner in Ew. destruct Ew as (inner & -> & Hl & _).
    exists inner. split; [reflexivity|]. lia.
  - intros Hb. rewrite Hb in Ee. apply spawn_enemies_plain in Ee.
    destruct Ee as (new & -> & Hl & Hf). cbn [app]. rewrite Hl.
    split; [lia|]. split; [lia|].
    eapply Forall_impl; [|exact Hf].
    intros e (x & y & _ & _ & ->). unfold fresh_enemy, Enemy.init.
    cbn. repeat split.
Qed.

Lemma room_population_witness :
  exists r s' i',
    Room.init example_assets (with_reached_level session_start 2) 70
      example_input = Ok (r, s', i')
    /\ List.length (walls r) = 7%nat
    /\ List.length (enemies r) = 2%nat
    /\ Forall (fresh_enemy (with_reached_level session_start 2)) (enemies r).
Proof.
  destruct (Room.init example_assets (with_reached_level session_start 2) 70
              example_input) as [[[r s'] i']|h] eqn:E;
    [|vm_compute in E; discriminate].
  exists r, s', i'. split; [reflexivity|].
  destruct (room_population _ _ _ _ _ _ _ E) as [_ H].
  destruct H as (_ & _ & Hf); [reflexivity|].
  vm_compute in E. inversion E; subst. repeat split. exact Hf.
Defined.

Lemma collide_false_elim (a b : Rect) :
  0 < rw a -> 0 < rh a -> 0 < rw b -> 0 < rh b ->
  colliderect a b = false ->
  right b <= left a \/ right a <= left b \/ bottom b <= top a
  \/ bottom a <= top b.
Proof.
  intros Ha1 Ha2 Hb1 Hb2 H.
  destruct (Z_le_gt_dec (right b) (left a)); [now left|].
  destruct (Z_le_gt_dec (right a) (left b)); [now right; left|].
  destruct (Z_le_gt_dec (bottom b) (top a)); [now right; right; left|].
  destruct (Z_le_gt_dec (bottom a) (top b)); [now right; right; right|].
  assert (E : colliderect a b = true)
    by (apply colliderect_overlap; try assumption; lia).
  congruence.
Qed.

Lemma clear_of_outer_inside (r zone : Rect) (ws : list Rect) :
  0 < rw r -> 0 < rh r ->
  0 < right r -> left r < WIDTH -> 0 < bottom r -> top r < HEIGHT ->
  Room.clear_of r zone (Room.make_outer_walls ++ ws) = true ->
  inside_border r.
Proof.
  intros Hw Hh H1 H2 H3 H4 Hc. apply clear_of_spec in Hc.
  destruct Hc as [_ Hf]. apply Forall_app in Hf. destruct Hf as [Hf _].
  unfold Room.make_outer_walls in Hf.
  inversion Hf as [|? ? Ct Hf1]; subst. inversion Hf1 as [|? ? Cb Hf2]; subst.
  inversion Hf2 as [|? ? Cl Hf3]; subst. inversion Hf3 as [|? ? Cr _]; subst.
  apply collide_false_elim in Ct, Cb, Cl, Cr;
    try assumption; try (vm_compute; reflexivity).
  unfold inside_border, left, right, top, bottom, WIDTH, HEIGHT, TILE_SIZE,
    Constants.GAME_WIDTH, Constants.GAME_HEIGHT, Constants.GAME_TILE_SIZE in *.
  cbn [rx ry rw rh] in *. lia.
Qed.

Lemma place_wall_inside (zone : Rect) (ws : list Rect) (fuel : nat)
    (i : Input) (w : Rect) (i' : Input) :
  Room.place_wall zone (Room.make_outer_walls ++ ws) fuel i = Ok (w, i') ->
  inside_border w /\ 2 * TILE_SIZE <= left w /\ 2 * TILE_SIZE <= top w.
Proof.
  intros H. pose proof (place_wall_bounds _ _ _ _ _ _ H) as (Hx & Hy & Hw & Hh).
  apply place_wall_clear in H.
  assert (0 < rw w /\ rw w <= 120)
    by (simpl in Hw; destruct Hw as [<-|[<-|[<-|[]]]]; lia).
  assert (0 < rh w /\ rh w <= 120)
    by (simpl in Hh; destruct Hh as [<-|[<-|[<-|[]]]]; lia).
  split.
  - eapply clear_of_outer_inside; [| | | | | |exact H];
      unfold left, right, top, bottom, WIDTH, HEIGHT, Constants.GAME_WIDTH,
        Constants.GAME_HEIGHT; lia.
  - unfold left, top, TILE_SIZE, Constants.GAME_TILE_SIZE. lia.
Qed.

Lemma place_walls_inside (zone : Rect) (n : nat) :
  forall (ws : list Rect) (i : Input) (ws' : list Rect) (i' : Input),
    Room.place_walls zone n (Room.make_outer_walls ++ ws) i = Ok (ws', i') ->
    exists inner,
      ws' = Room.make_outer_walls ++ ws ++ inner
      /\ Forall (fun w => inside_border w /\ 2 * TILE_SIZE <= left w
                          /\ 2 * TILE_SIZE <= top w) inner.
Proof.
  induction n as [|n IH]; intros ws i ws' i' H.
  - apply ret_Ok in H. inversion H; subst. exists [].
    rewrite app_nil_r. split; [reflexivity|constructor].
  - cbn [Room.place_walls] in H. inv_bind H as w0 j E.
    unfold with_draw_fuel in E. apply place_wall_inside in E.
    rewrite <- app_assoc in H. apply IH in H.
    destruct H as (inner & -> & Hf).
    exists (w0 :: inner). rewrite <- app_assoc. split; [reflexivity|].
    now constructor.
Qed.

Lemma spawn_enemies_inside (a : Assets) (s : Statics) (zone : Rect)
    (ws : list Rect) (boss : bool) (n : nat) :
  0 < fst (enemy_size a) -> 0 < snd (enemy_size a) ->
  0 < fst (boss_size a) -> 0 < snd (boss_size a) ->
  forall (bs : bool) (es : list enemy) (i : Input) (es' : list enemy)
         (i' : Input),
    Room.spawn_enemies a s zone (Room.make_outer_walls ++ ws) boss bs n es i
    = Ok (es', i') ->
    Forall (fun e => inside_border (e_rect e)) es ->
    Forall (fun e => inside_border (e_rect e)) es'.
Proof.
  intros He1 He2 Hb1 Hb2.
  induction n as [|n IH]; intros bs es i es' i' H Hes.
  - apply ret_Ok in H. now inversion H; subst.
  - cbn [Room.spawn_enemies] in H. destruct bs.
    + apply ret_Ok in H. now inversion H; subst.
    + inv_bind H as eb j E. destruct eb as [e bs1].
      unfold with_draw_fuel in E.
      pose proof (spawn_enemy_spec _ _ _ _ _ _ _ _ _ _ _ E) as (Hc & _ & _).
      apply spawn_enemy_position in E.
      destruct E as (x & y & Hx & Hy & Ee).
      eapply IH; [exact H|]. apply Forall_app. split; [exact Hes|].
      constructor; [|constructor].
      assert (Hr : exists w h, 0 < w /\ 0 < h
                               /\ e_rect e = mkRect (x - w / 2) (y - h / 2) w h).
      { destruct boss; subst e.
        - exists (fst (boss_size a)), (snd (boss_size a)). now repeat split.
        - exists (fst (enemy_size a)), (snd (enemy_size a)).
          now repeat split. }
      destruct Hr as (w & h & Hw & Hh & Er). rewrite Er in *.
      assert (0 <= w / 2 /\ w / 2 <= w /\ 0 <= h / 2 /\ h / 2 <= h).
      { pose proof (Z.div_pos w 2). pose proof (Z.div_pos h 2).
        pose proof (Z.div_le_upper_bound w 2 w).
        pose proof (Z.div_le_upper_bound h 2 h). lia. }
      eapply clear_of_outer_inside; [| | | | | |exact Hc];
        unfold left, right, top, bottom, WIDTH, HEIGHT, Constants.GAME_WIDTH,
          Constants.GAME_HEIGHT; cbn [rx ry rw rh]; lia.
Qed.

(** X12: in a room generated on the four border walls, every inner wall and
    every enemy lies between the border walls, and the inner walls keep a
    further tile away from the top and left ones (sprites of positive
    size). *)
Theorem room_inside_border
    (a : Assets) (s : Statics) (szr : Z) (i : Input)
    (r : room) (s' : Statics) (i' : Input) :
  outer_walls_of s = Room.make_outer_walls ->
  0 < fst (enemy_size a) -> 0 < snd (enemy_size a) ->
  0 < fst (boss_size a) -> 0 < snd (boss_size a) ->
  Room.init a s szr i = Ok (r, s', i') ->
  (exists inner,
      walls r = Room.make_outer_walls ++ inner
      /\ Forall (fun w => inside_border w /\ 2 * TILE_SIZE <= left w
                          /\ 2 * TILE_SIZE <= top w) inner)
  /\ Forall (fun e => inside_border (e_rect e)) (enemies r).
Proof.
  intros Ho He1 He2 Hb1 Hb2 H. apply room_init_parts in H.
  destruct H as (-> & nw & ne & j1 & j2 & j3 & _ & Ew & _ & Ee).
  rewrite Ho in Ew.
  rewrite <- (app_nil_r Room.make_outer_walls) in Ew at 1.
  apply place_walls_inside in Ew. destruct Ew as (inner & Ew & Hf).
  cbn [app] in Ew. split; [now exists inner|].
  rewrite Ew in Ee.
  eapply spawn_enemies_inside; [| | | |exact Ee|constructor]; assumption.
Qed.

Lemma room_inside_border_witness :
  exists r s' i',
    Room.init example_assets session_start 70 example_input = Ok (r, s', i')
    /\ Forall (fun e => inside_border (e_rect e)) (enemies r)
    /\ enemies r <> [].
Proof.
  destruct (Room.init example_assets session_start 70 example_input)
    as [[[r s'] i']|h] eqn:E; [|vm_compute in E; discriminate].
  exists r, s', i'. split; [reflexivity|].
  destruct (room_inside_border example_assets session_start 70 example_input
              r s' i') as [_ H];
    try reflexivity; try exact E.
  split; [exact H|]. vm_compute in E. inversion E; subst. discriminate.
Defined.

Lemma room_init_outer (a : Assets) (s : Statics) (szr : Z) (i : Input)
    (r : room) (s' : Statics) (i' : Input) :
  Room.init a s szr i = Ok (r, s', i') ->
  outer_walls s' = Some (outer_walls_of s)
  /\ exists inner, walls r = outer_walls_of s ++ inner.
Proof.
  intros H. pose proof (room_init_parts _ _ _ _ _ _ _ H) as [-> _].
  split; [reflexivity|].
  apply room_init_inv in H. destruct H as (inner & _ & _ & _ & Hw & _).
  now exists inner.
Qed.

Lemma transition_outer_walls (s : Statics) :
  outer_walls_of (transition s) = outer_walls_of s.
Proof.
  unfold outer_walls_of, transition, Game.adjust_enemy_stats.
  destruct (negb _); [|reflexivity]. now destruct (py_lt _ _).
Qed.

(** X13: the outer walls are created by the first room of the process and
    shared from then on: every room generated later, by a level transition or
    by a restart of the game, starts with the same four walls, and the class
    attribute keeps them. *)
Theorem outer_walls_are_shared :
  (forall (g : game) (i : Input) (g' : game) (i' : Input),
      Game.new_level g i = Ok (g', i') ->
      outer_walls (g_statics g') = Some (outer_walls_of (g_statics g))
      /\ exists inner,
           walls (g_room g') = outer_walls_of (g_statics g) ++ inner)
  /\ (forall (a : Assets) (s : Statics) (i : Input) (g : game) (i' : Input),
         Game.setup_game a s i = Ok (g, i') ->
         outer_walls (g_statics g) = Some (outer_walls_of s)
         /\ exists inner, walls (g_room g) = outer_walls_of s ++ inner).
Proof.
  split.
  - intros g i g' i' H. apply new_level_inv in H.
    destruct H as (r & s1 & i1 & Hr & Hf).
    destruct Hf as (_ & _ & _ & _ & Hroom & _ & _ & _ & Ho).
    cbn [g_room g_statics] in Hroom, Ho. rewrite Hroom, Ho.
    apply room_init_outer in Hr. now rewrite transition_outer_walls in Hr.
  - intros a s i g i' H. unfold Game.setup_game in H.
    inv_bind H as rs j E. destruct rs as [r s1]. apply ret_Ok in H.
    inversion H; subst; clear H. cbn [g_room g_statics].
    apply room_init_outer in E. exact E.
Qed.

Lemma outer_walls_are_shared_witness :
  let custom := [mkRect 0 0 800 10] in
  let g := example_game (with_outer_walls session_start (Some custom)) in
  exists g' i',
    Game.new_level g example_input = Ok (g', i')
    /\ outer_walls (g_statics g') = Some custom
    /\ exists inner, walls (g_room g') = custom ++ inner.
Proof.
  cbv zeta.
  destruct (Game.new_level
              (example_game
                 (with_outer_walls session_start (Some [mkRect 0 0 800 10])))
              example_input) as [[g' i']|h] eqn:E;
    [|vm_compute in E; discriminate].
  exists g', i'. split; [reflexivity|].
  exact (proj1 outer_walls_are_shared _ _ _ _ E).
Defined.

(** ** The enemies' update *)

Lemma lift_Ok {A : Type} (r : res A) (i : Input) (a : A) (i' : Input) :
  lift r i = Ok (a, i') -> r = Ok a /\ i' = i.
Proof. unfold lift. destruct r; [|discriminate]. intros H. now inversion H. Qed.

Lemma bind_step {A B : Type} (m : M A) (k : A -> M B) (i : Input) (a : A)
    (i1 : Input) :
  m i = Ok (a, i1) -> bind m k i = k a i1.
Proof. unfold bind. now intros ->. Qed.

Lemma consumed_refl (i : Input) : consumed 0 i i.
Proof. unfold consumed. simpl. repeat split. lia. Qed.

Lemma consumed_trans (n m : nat) (i j k : Input) :
  consumed n i j -> consumed m j k -> consumed (n + m) i k.
Proof.
  unfold consumed. intros (Hn & Hd & He) (Hm & Hd' & He').
  rewrite Hd in Hm, Hd'. rewrite length_skipn in Hm.
  repeat split; [lia| |congruence].
  rewrite Hd', skipn_skipn. f_equal. lia.
Qed.

Lemma draw_consumed (i : Input) (d : Z) (i' : Input) :
  draw i = Ok (d, i') -> consumed 1 i i'.
Proof.
  unfold draw, consumed. destruct (draws i) as [|x l]; [discriminate|].
  intros H. inversion H; subst. simpl. repeat split. lia.
Qed.

Lemma uniform_consumed (a b : float) (i : Input) (u : float) (i' : Input) :
  uniform a b i = Ok (u, i') -> consumed 1 i i'.
Proof.
  unfold uniform, random_float. intros H.
  inv_bind H as x j E. inv_bind E as d j' E'.
  apply ret_Ok in H, E. inversion H; inversion E; subst.
  now apply draw_consumed in E'.
Qed.

Lemma randint_consumed (a b : Z) (i : Input) (x : Z) (i' : Input) :
  randint a b i = Ok (x, i') -> consumed 1 i i'.
Proof.
  unfold randint. destruct (b <? a); [discriminate|]. intros H.
  inv_bind H as d j E. apply ret_Ok in H. inversion H; subst.
  now apply draw_consumed in E.
Qed.

Lemma uniform_Ok (a b : float) (d : Z) (ds : list Z)
    (evs : list (list event)) :
  exists u, uniform a b (mkInput (d :: ds) evs) = Ok (u, mkInput ds evs).
Proof. eexists. reflexivity. Qed.

(** The direction is never divided by a zero distance. *)
Lemma normalize_returns (hypot : num -> num -> num) (dx dy : num) :
  exists d, EnemySprite.normalize hypot dx dy = Ok d.
Proof.
  unfold EnemySprite.normalize. cbv zeta.
  destruct (py_eq (hypot dx dy) (PInt 0)) eqn:E; simpl; [eauto|].
  rewrite !(py_truediv_Some _ _ E). simpl. eauto.
Qed.

Lemma plan_inv (hypot : num -> num -> num) (p : player) (e : enemy)
    (i : Input) (e' : enemy) (i' : Input) :
  EnemySprite.plan hypot p e i = Ok (e', i') ->
  consumed (if replans e then 3 else 0) i i'
  /\ enemy_identity e' = enemy_identity e
  /\ e_rect e' = e_rect e.
Proof.
  unfold EnemySprite.plan, replans. destruct (e_move_timer e <=? 0).
  - cbv zeta. intros H.
    inv_bind H as d1 i1 E1. destruct d1 as [dx dy]. apply lift_Ok in E1.
    destruct E1 as [_ ->].
    inv_bind H as ux i2 E2. inv_bind H as uy i3 E3.
    inv_bind H as d2 i4 E4. destruct d2 as [dx2 dy2]. apply lift_Ok in E4.
    destruct E4 as [_ ->].
    inv_bind H as t i5 E5. apply ret_Ok in H. inversion H; subst.
    apply uniform_consumed in E2, E3. apply randint_consumed in E5.
    split; [|split; reflexivity].
    exact (consumed_trans 2 1 _ _ _ (consumed_trans 1 1 _ _ _ E2 E3) E5).
  - intros H. apply ret_Ok in H. inversion H; subst.
    split; [apply consumed_refl|split; reflexivity].
Qed.

Lemma plan_returns (hypot : num -> num -> num) (p : player) (e : enemy)
    (i : Input) :
  ((if replans e then 3 else 0) <= List.length (draws i))%nat ->
  exists r, EnemySprite.plan hypot p e i = Ok r.
Proof.
  unfold EnemySprite.plan, replans. destruct (e_move_timer e <=? 0);
    [|intros _; eexists; reflexivity].
  destruct i as [[|d1 [|d2 [|d3 ds]]] evs]; simpl; try lia. intros _.
  cbv zeta.
  match goal with
  | |- context [EnemySprite.normalize hypot ?x ?y] =>
      destruct (normalize_returns hypot x y) as [[dx dy] E1]
  end.
  erewrite bind_step by (unfold lift; rewrite E1; reflexivity).
  cbv beta iota.
  destruct (uniform_Ok (- EnemySprite.DIRECTION_RANDOMNESS_RANGE)
              EnemySprite.DIRECTION_RANDOMNESS_RANGE d1 (d2 :: d3 :: ds) evs)
    as [ux E2].
  erewrite bind_step by exact E2.
  destruct (uniform_Ok (- EnemySprite.DIRECTION_RANDOMNESS_RANGE)
              EnemySprite.DIRECTION_RANDOMNESS_RANGE d2 (d3 :: ds) evs)
    as [uy E3].
  erewrite bind_step by exact E3.
  match goal with
  | |- context [EnemySprite.normalize hypot ?x ?y] =>
      destruct (normalize_returns hypot x y) as [[dx2 dy2] E4]
  end.
  erewrite bind_step by (unfold lift; rewrite E4; reflexivity).
  cbv beta iota.
  assert (Hr : EnemySprite.ENEMY_MOVEMENT_CHANGE_MIN
               <= EnemySprite.ENEMY_MOVEMENT_CHANGE_MAX)
    by (unfold EnemySprite.ENEMY_MOVEMENT_CHANGE_MIN,
          EnemySprite.ENEMY_MOVEMENT_CHANGE_MAX; lia).
  erewrite bind_step by exact (proj1 (randint_Ok _ _ d3 ds evs Hr)).
  eexists. reflexivity.
Qed.

Lemma bounce_x_size (ws : list Rect) :
  forall st : Rect * num,
    rw (fst (fold_left EnemySprite.bounce_x ws st)) = rw (fst st)
    /\ rh (fst (fold_left EnemySprite.bounce_x ws st)) = rh (fst st).
Proof.
  induction ws as [|w ws IH]; intros [r dx]; [now split|].
  cbn [fold_left]. destruct (IH (EnemySprite.bounce_x (r, dx) w)) as [-> ->].
  unfold EnemySprite.bounce_x.
  destruct (py_lt (PInt 0) dx); [now split|].
  destruct (py_lt dx (PInt 0)); now split.
Qed.

Lemma bounce_y_size (ws : list Rect) :
  forall st : Rect * num,
    rw (fst (fold_left EnemySprite.bounce_y ws st)) = rw (fst st)
    /\ rh (fst (fold_left EnemySprite.bounce_y ws st)) = rh (fst st).
Proof.
  induction ws as [|w ws IH]; intros [r dy]; [now split|].
  cbn [fold_left]. destruct (IH (EnemySprite.bounce_y (r, dy) w)) as [-> ->].
  unfold EnemySprite.bounce_y.
  destruct (py_lt (PInt 0) dy); [now split|].
  destruct (py_lt dy (PInt 0)); now split.
Qed.

Lemma update_inv (hypot : num -> num -> num) (p : player) (ws : list Rect)
    (e : enemy) (i : Input) (oe : option enemy) (p' : player) (i' : Input) :
  EnemySprite.update hypot p ws e i = Ok (oe, p', i') ->
  consumed (if replans e then 3 else 0) i i'
  /\ (if alive e
      then exists e', oe = Some e' /\ enemy_identity e' = enemy_identity e
                      /\ p' = p
      else oe = None /\ p' = Player.add_points Enemy.POINTS p).
Proof.
  unfold EnemySprite.update. intros H. inv_bind H as e1 i1 E.
  apply plan_inv in E. destruct E as (Hc & Hid & Hr).
  cbv zeta in H. revert H.
  match goal with
  | |- context [fold_left EnemySprite.bounce_x ?l ?st] =>
      pose proof (bounce_x_size l st) as Hx;
      destruct (fold_left EnemySprite.bounce_x l st) as [r1 dx1]
  end.
  match goal with
  | |- context [fold_left EnemySprite.bounce_y ?l ?st] =>
      pose proof (bounce_y_size l st) as Hy;
      destruct (fold_left EnemySprite.bounce_y l st) as [r2 dy2]
  end.
  cbn [fst] in Hx, Hy. cbn [e_health].
  assert (Hh : e_health e1 = e_health e)
    by (unfold enemy_identity in Hid; congruence).
  unfold alive. rewrite <- Hh.
  destruct (Z.leb_spec (py_int (e_health e1)) 0) as [L|L]; intros H;
    apply ret_Ok in H; inversion H; subst; (split; [exact Hc|]).
  - replace (0 <? py_int (e_health e1)) with false
      by (symmetry; apply Z.ltb_ge; lia).
    now split.
  - replace (0 <? py_int (e_health e1)) with true
      by (symmetry; apply Z.ltb_lt; lia).
    eexists. split; [reflexivity|]. split; [|reflexivity].
    rewrite <- Hid. unfold enemy_identity. cbn.
    destruct Hx as [Hx1 Hx2], Hy as [Hy1 Hy2].
    unfold rect_move_x, rect_move_y, set_x, set_y in *. cbn in *.
    congruence.
Qed.

Lemma update_returns (hypot : num -> num -> num) (p : player)
    (ws : list Rect) (e : enemy) (i : Input) :
  ((if replans e then 3 else 0) <= List.length (draws i))%nat ->
  exists r, EnemySprite.update hypot p ws e i = Ok r.
Proof.
  intros H. destruct (plan_returns hypot p e i H) as [[e1 i1] E].
  unfold EnemySprite.update. erewrite bind_step by exact E. cbv zeta.
  destruct (fold_left EnemySprite.bounce_x _ _) as [r1 dx1].
  destruct (fold_left EnemySprite.bounce_y _ _) as [r2 dy2].
  destruct (_ <=? 0); eexists; reflexivity.
Qed.

Lemma add_points_add (a b : Z) (p : player) :
  Player.add_points a (Player.add_points b p) = Player.add_points (b + a) p.
Proof.
  unfold Player.add_points, with_earned_points. destruct p. cbn. f_equal. lia.
Qed.

Lemma add_points_0 (p : player) : Player.add_points 0 p = p.
Proof.
  unfold Player.add_points, with_earned_points. destruct p. cbn. f_equal. lia.
Qed.

Lemma group_update_inv
    (hypot : num -> num -> num) (ws : list Rect) (es : list enemy) :
  forall (p : player) (i : Input) (es' : list enemy) (p' : player)
         (i' : Input),
    EnemySprite.group_update hypot p ws es i = Ok (es', p', i') ->
    map enemy_identity es' = map enemy_identity (filter alive es)
    /\ (List.length es' <= List.length es)%nat
    /\ p' = Player.add_points
              (5 * Z.of_nat (List.length es - List.length es')) p.
Proof.
  induction es as [|e es IH]; intros p i es' p' i' H.
  - apply ret_Ok in H. inversion H; subst. split; [reflexivity|].
    split; [reflexivity|]. symmetry. apply add_points_0.
  - cbn [EnemySprite.group_update] in H.
    inv_bind H as r1 i1 E1. destruct r1 as [oe p1].
    inv_bind H as r2 i2 E2. destruct r2 as [rest p2].
    apply ret_Ok in H. inversion H; subst; clear H.
    apply update_inv in E1. destruct E1 as [_ E1].
    apply IH in E2. destruct E2 as (Hm & Hl & Hp).
    cbn [filter]. destruct (alive e).
    + destruct E1 as (e' & -> & Hid & ->). cbn [map]. rewrite Hid, Hm.
      split; [reflexivity|]. split; [cbn [List.length]; lia|].
      rewrite Hp. reflexivity.
    + destruct E1 as [-> ->]. split; [exact Hm|].
      split; [cbn [List.length]; lia|].
      rewrite Hp, add_points_add. f_equal. unfold Enemy.POINTS.
      cbn [List.length]. lia.
Qed.

(** X14: the update of the enemy group removes exactly the enemies whose
    health, truncated to an integer, is not positive, and keeps the others in
    their order with their class, health, speed, damage and size.  The
    player gets [Enemy.POINTS] = 5 points for each enemy removed, a boss
    included, and is not changed in any other way. *)
Theorem group_update_removes_dead
    (hypot : num -> num -> num) (ws : list Rect) (es : list enemy)
    (p : player) (i : Input) (es' : list enemy) (p' : player) (i' : Input) :
  EnemySprite.group_update hypot p ws es i = Ok (es', p', i') ->
  map enemy_identity es' = map enemy_identity (filter alive es)
  /\ p' = Player.add_points
            (5 * Z.of_nat (List.length es - List.length es')) p.
Proof.
  intros H. apply group_update_inv in H. tauto.
Qed.

Lemma group_update_removes_dead_witness :
  exists es' p' i',
    EnemySprite.group_update hypot_binary64 example_player
      Room.make_outer_walls example_group (mkInput [1; 2; 3; 4; 5; 6] [])
    = Ok (es', p', i')
    /\ map e_class es' = [IsEnemy]
    /\ earned_points p' = 5.
Proof.
  destruct (EnemySprite.group_update hypot_binary64 example_player
              Room.make_outer_walls example_group
              (mkInput [1; 2; 3; 4; 5; 6] []))
    as [[[es' p'] i']|h] eqn:E; [|vm_compute in E; discriminate].
  exists es', p', i'. split; [reflexivity|].
  destruct (group_update_removes_dead _ _ _ _ _ _ _ _ E) as [Hm Hp].
  split.
  - apply (f_equal (map (fun x => fst (fst (fst (fst x)))))) in Hm.
    rewrite !map_map in Hm. exact Hm.
  - vm_compute in E. inversion E; subst. reflexivity.
Defined.

(** X15: the update of the enemy group never raises: the two divisions of
    [Enemy.update] are behind the tests [dist != 0].  It draws three random
    numbers for each enemy whose timer has run out and none for the others,
    reads no event, and returns whenever that many draws are there. *)
Theorem group_update_returns
    (hypot : num -> num -> num) (ws : list Rect) (es : list enemy) :
  forall (p : player) (i : Input),
    (3 * List.length (filter replans es) <= List.length (draws i))%nat ->
    exists es' p' i',
      EnemySprite.group_update hypot p ws es i = Ok (es', p', i')
      /\ consumed (3 * List.length (filter replans es)) i i'.
Proof.
  induction es as [|e es IH]; intros p i H.
  - exists [], p, i. split; [reflexivity|apply consumed_refl].
  - cbn [filter] in *.
    set (n := if replans e then 3%nat else 0%nat).
    assert (Hn : (3 * List.length
                        (if replans e then e :: filter replans es
                         else filter replans es)
                  = n + 3 * List.length (filter replans es))%nat)
      by (unfold n; destruct (replans e); cbn [List.length]; lia).
    rewrite Hn in *.
    destruct (update_returns hypot p ws e i) as [[[oe p1] i1] E1];
      [fold n; lia|].
    pose proof (update_inv _ _ _ _ _ _ _ _ E1) as [Hc _]. fold n in Hc.
    destruct (IH p1 i1) as (rest & p2 & i2 & E2 & Hc2).
    { destruct Hc as (_ & Hd & _). rewrite Hd, length_skipn. lia. }
    cbn [EnemySprite.group_update].
    erewrite bind_step by exact E1. cbv beta iota.
    erewrite bind_step by exact E2. cbv beta iota.
    do 3 eexists. split; [reflexivity|].
    exact (consumed_trans _ _ _ _ _ Hc Hc2).
Qed.

Lemma group_update_returns_witness :
  exists es' p' i',
    EnemySprite.group_update hypot_binary64 example_player
      Room.make_outer_walls example_group (mkInput [1; 2; 3; 4; 5; 6; 7] [])
    = Ok (es', p', i')
    /\ draws i' = [7].
Proof.
  destruct (group_update_returns hypot_binary64 Room.make_outer_walls
              example_group example_player (mkInput [1; 2; 3; 4; 5; 6; 7] []))
    as (es' & p' & i' & E & Hc).
  - vm_compute. lia.
  - exists es', p', i'. split; [exact E|].
    destruct Hc as (_ & Hd & _). exact Hd.
Defined.

(** ** The frame of the game loop *)

Lemma handle_event_inv (hypot : num -> num -> num) (mouse : Z * Z)
    (ev : event) (g g' : game) :
  GameLoop.handle_event hypot mouse ev g = Ok g' ->
  g' = g
  \/ (left_click ev = true
      /\ shoot_cooldown (g_player g) = 0
      /\ exists b,
           g' = with_g_bullets
                  (with_g_player g
                     (with_shoot_cooldown (g_player g)
                        (shoot_cooldown_set (g_player g))))
                  (g_bullets g ++ [b])).
Proof.
  assert (Hg : with_g_bullets (with_g_player g (g_player g)) (g_bullets g) = g)
    by now destruct g.
  destruct ev as [|pos button|key|]; cbn [GameLoop.handle_event left_click];
    try (intros H; inversion H; now left).
  destruct (button =? Constants.MOUSE_LEFT_BUTTON);
    [|intros H; inversion H; now left].
  unfold Player.shoot.
  destruct (shoot_cooldown (g_player g) =? 0) eqn:C;
    [|cbn [res_bind fst snd]; rewrite Hg; intros H; inversion H; now left].
  cbv zeta. destruct (py_eq _ (PInt 0)) eqn:E;
    [cbn [res_bind fst snd]; rewrite Hg; intros H; inversion H; now left|].
  rewrite !(py_truediv_Some _ _ E). cbn [of_option res_bind fst snd].
  intros H. inversion H; subst. right. split; [reflexivity|].
  split; [now apply Z.eqb_eq|]. eexists. reflexivity.
Qed.

Lemma handle_event_returns (hypot : num -> num -> num) (mouse : Z * Z)
    (ev : event) (g : game) :
  ev <> QUIT -> exists g', GameLoop.handle_event hypot mouse ev g = Ok g'.
Proof.
  destruct ev as [|pos button|key|]; cbn [GameLoop.handle_event];
    [congruence| |eauto|eauto]. intros _.
  destruct (button =? Constants.MOUSE_LEFT_BUTTON); [|eauto].
  destruct (shoot_returns hypot (g_assets g) (g_statics g) mouse (g_player g)
              (g_bullets g)) as [r ->].
  cbn [res_bind]. eauto.
Qed.

Lemma handle_events_cons (hypot : num -> num -> num) (mouse : Z * Z)
    (ev : event) (batch : list event) (g : game) :
  GameLoop.handle_events hypot mouse (ev :: batch) g
  = res_bind (GameLoop.handle_event hypot mouse ev g)
      (GameLoop.handle_events hypot mouse batch).
Proof.
  unfold GameLoop.handle_events. cbn [fold_left res_bind].
  destruct (GameLoop.handle_event hypot mouse ev g) as [g1|h];
    [reflexivity|]. cbn [res_bind]. apply fold_res_halt.
Qed.

Lemma handle_events_quit (hypot : num -> num -> num) (mouse : Z * Z)
    (batch : list event) :
  forall g : game,
    In QUIT batch ->
    GameLoop.handle_events hypot mouse batch g = Halt SystemExit.
Proof.
  induction batch as [|ev batch IH]; intros g Hq; [destruct Hq|].
  rewrite handle_events_cons.
  assert (Hev : ev = QUIT \/ ev <> QUIT)
    by (destruct ev; auto; right; discriminate).
  destruct Hev as [->|Hne]; [reflexivity|].
  destruct Hq as [Hq|Hq]; [congruence|].
  destruct (handle_event_returns hypot mouse ev g Hne) as [g1 E].
  rewrite E. cbn [res_bind]. now apply IH.
Qed.

(** While the weapon cools down the events of a batch change nothing. *)
Lemma handle_events_cooling (hypot : num -> num -> num) (mouse : Z * Z)
    (batch : list event) (g : game) :
  ~ In QUIT batch -> shoot_cooldown (g_player g) <> 0 ->
  GameLoop.handle_events hypot mouse batch g = Ok g.
Proof.
  intros Hq Hc. induction batch as [|ev batch IH]; [reflexivity|].
  rewrite handle_events_cons.
  destruct (handle_event_returns hypot mouse ev g) as [g1 E].
  { intros ->. apply Hq. now left. }
  rewrite E. cbn [res_bind]. apply handle_event_inv in E.
  destruct E as [->|(_ & C & _)]; [|contradiction].
  apply IH. intros H. apply Hq. now right.
Qed.

(** The events of a frame leave everything but the bullets and the
    cooldown alone. *)
Lemma handle_events_frame (hypot : num -> num -> num) (mouse : Z * Z)
    (batch : list event) :
  forall g g' : game,
    GameLoop.handle_events hypot mouse batch g = Ok g' ->
    g_room g' = g_room g /\ g_statics g' = g_statics g
    /\ g_assets g' = g_assets g /\ g_difficulty g' = g_difficulty g
    /\ g_save_zone_range g' = g_save_zone_range g
    /\ g_can_upgrade g' = g_can_upgrade g
    /\ with_shoot_cooldown (g_player g') 0
       = with_shoot_cooldown (g_player g) 0.
Proof.
  unfold GameLoop.handle_events. intros g g' H.
  apply (fold_res_inv
           (fun s => g_room s = g_room g /\ g_statics s = g_statics g
                     /\ g_assets s = g_assets g
                     /\ g_difficulty s = g_difficulty g
                     /\ g_save_zone_range s = g_save_zone_range g
                     /\ g_can_upgrade s = g_can_upgrade g
                     /\ with_shoot_cooldown (g_player s) 0
                        = with_shoot_cooldown (g_player g) 0)
           (GameLoop.handle_event hypot mouse) batch) with (s := g);
    [|exact H|repeat split].
  intros ev g1 g2 E (H1 & H2 & H3 & H4 & H5 & H6 & H7).
  apply handle_event_inv in E. destruct E as [->|(_ & _ & b & ->)].
  - repeat split; assumption.
  - cbn. repeat split; assumption.
Qed.

(** X16: the events of one frame.  A quit event ends the program, wherever
    it stands in the batch.  Otherwise the events are handled without an
    error and, the cooldown setting being at least one frame, fire at most
    one bullet however many clicks there are: the weapon must be ready and the
    left mouse button pressed, and the bullet is appended and the cooldown
    started; the rest of the game is untouched. *)
Theorem one_shot_per_frame
    (hypot : num -> num -> num) (mouse : Z * Z) (batch : list event) :
  forall g : game,
    (In QUIT batch ->
     GameLoop.handle_events hypot mouse batch g = Halt SystemExit)
    /\ (~ In QUIT batch -> shoot_cooldown_set (g_player g) <> 0 ->
        GameLoop.handle_events hypot mouse batch g = Ok g
        \/ (shoot_cooldown (g_player g) = 0
            /\ existsb left_click batch = true
            /\ exists b,
                 GameLoop.handle_events hypot mouse batch g
                 = Ok (with_g_bullets
                         (with_g_player g
                            (with_shoot_cooldown (g_player g)
                               (shoot_cooldown_set (g_player g))))
                         (g_bullets g ++ [b])))).
Proof.
  intros g. split; [apply handle_events_quit|].
  induction batch as [|ev batch IH]; intros Hq Hs; [now left|].
  rewrite handle_events_cons.
  destruct (handle_event_returns hypot mouse ev g) as [g1 E].
  { intros ->. apply Hq. now left. }
  assert (Hq' : ~ In QUIT batch) by (intros H; apply Hq; now right).
  rewrite E. cbn [res_bind]. apply handle_event_inv in E.
  destruct E as [->|(Hl & C & b & ->)].
  - destruct (IH Hq' Hs) as [->|(C & Hl & b & ->)]; [now left|].
    right. split; [exact C|]. split; [|now exists b].
    cbn [existsb]. rewrite Hl. apply orb_true_r.
  - right. split; [exact C|]. split; [cbn [existsb]; now rewrite Hl|].
    exists b. apply handle_events_cooling; [exact Hq'|]. exact Hs.
Qed.

Lemma one_shot_per_frame_witness :
  GameLoop.handle_events hypot_binary64 (403, 354)
    [MOUSEBUTTONDOWN (403, 354) 1; KEYDOWN 32; MOUSEBUTTONDOWN (403, 354) 1;
     MOUSEBUTTONDOWN (403, 354) 1]
    (example_game session_start)
  = Ok (with_g_bullets
          (with_g_player (example_game session_start)
             (with_shoot_cooldown example_player 20))
          [mkBullet (mkRect 394 344 12 12) (PFloat 4.2)
             (PFloat 5.6000000000000005) 60])
  /\ GameLoop.handle_events hypot_binary64 (403, 354)
       [MOUSEBUTTONDOWN (403, 354) 1; QUIT] (example_game session_start)
     = Halt SystemExit.
Proof.
  split.
  - destruct (proj2 (one_shot_per_frame hypot_binary64 (403, 354)
                       [MOUSEBUTTONDOWN (403, 354) 1; KEYDOWN 32;
                        MOUSEBUTTONDOWN (403, 354) 1;
                        MOUSEBUTTONDOWN (403, 354) 1]
                       (example_game session_start)))
      as [E|(_ & _ & b & E)].
    + intros [H|[H|[H|[H|[]]]]]; discriminate.
    + vm_compute. discriminate.
    + vm_compute in E. discriminate.
    + rewrite E. vm_compute in E. inversion E; subst. reflexivity.
  - apply (proj1 (one_shot_per_frame hypot_binary64 (403, 354)
                    [MOUSEBUTTONDOWN (403, 354) 1; QUIT]
                    (example_game session_start))).
    right. now left.
Defined.

Lemma hit_first_length (r : Rect) (dmg : Z) (es es' : list enemy) :
  Bullet.hit_first r dmg es = Some es' -> List.length es' = List.length es.
Proof.
  revert es'. induction es as [|e es IH]; intros es' H; [discriminate|].
  cbn [Bullet.hit_first] in H. destruct (colliderect r (e_rect e)).
  - inversion H; subst. reflexivity.
  - destruct (Bullet.hit_first r dmg es) as [rest|]; [|discriminate].
    inversion H; subst. cbn [List.length]. f_equal. now apply IH.
Qed.

(** Bullets hurt enemies but never remove one. *)
Lemma bullets_update_length (ws : list Rect) (p : player)
    (bullets : list bullet) :
  forall es : list enemy,
    List.length (snd (bullets_update bullets ws es p)) = List.length es.
Proof.
  induction bullets as [|b bullets IH]; intros es; [reflexivity|].
  cbn [bullets_update]. unfold Bullet.update. cbv zeta.
  destruct (Bullet.hit_first _ (damage p) es) as [es1|] eqn:E.
  - specialize (IH es1). destruct (bullets_update bullets ws es1 p).
    cbn [snd] in *. rewrite IH. now apply hit_first_length in E.
  - specialize (IH es). now destruct (bullets_update bullets ws es p).
Qed.

Lemma update_points (keys : Keys) (ws : list Rect) (p : player) :
  earned_points (Player.update keys ws p) = earned_points p.
Proof.
  destruct (update_shape keys ws p) as [r ->]. cbv zeta.
  destruct (0 <? _); unfold Player.tick_immunity;
    destruct (is_immune p); cbn; try destruct (_ <=? 0); reflexivity.
Qed.

Lemma take_damage_points (s : Statics) (p : player) :
  earned_points (Player.take_damage s p) = earned_points p.
Proof.
  unfold Player.take_damage. destruct (negb (is_immune p)); [|reflexivity].
  now destruct (_ =? 0).
Qed.

Lemma frame_inv
    (hypot : num -> num -> num) (keys : Keys) (mouse : Z * Z) (g : game)
    (i : Input) (g' : game) (running : bool) (i' : Input) :
  GameLoop.frame hypot keys mouse g i = Ok (g', running, i') ->
  (running = true <-> 1 <= current_health (g_player g'))
  /\ exists k : nat,
       ((k < List.length (enemies (g_room g)))%nat
        /\ reached_level (g_statics g') = reached_level (g_statics g)
        /\ earned_points (g_player g')
           = earned_points (g_player g) + 5 * Z.of_nat k
        /\ walls (g_room g') = walls (g_room g)
        /\ List.length (enemies (g_room g'))
           = (List.length (enemies (g_room g)) - k)%nat)
       \/ (k = List.length (enemies (g_room g))
           /\ reached_level (g_statics g') = reached_level (g_statics g) + 1
           /\ earned_points (g_player g')
              = earned_points (g_player g) + 5 * Z.of_nat k + 10
           /\ g_bullets g' = []
           /\ rect (g_player g')
              = set_center (rect (g_player g')) (WIDTH / 2, HEIGHT / 2)).
Proof.
  unfold GameLoop.frame. intros H.
  inv_bind H as batch i1 E0. inv_bind H as g1 i2 E1.
  apply lift_Ok in E1. destruct E1 as [E1 ->].
  apply handle_events_frame in E1.
  destruct E1 as (R1 & S1 & _ & _ & _ & _ & P1).
  apply (f_equal earned_points) in P1. cbn in P1.
  cbv zeta in H. rewrite R1, S1 in H.
  pose proof (bullets_update_length (walls (g_room g))
                (Player.update keys (walls (g_room g)) (g_player g1))
                (g_bullets g1) (enemies (g_room g))) as Hb.
  destruct (bullets_update _ _ _ _) as [bullets es1]. cbn [snd] in Hb.
  inv_bind H as r3 i3 E3. destruct r3 as [es2 p2].
  apply group_update_inv in E3. destruct E3 as (_ & Hl & ->).
  inv_bind H as g3 i4 E4. apply ret_Ok in H. inversion H; subst; clear H.
  set (k := (List.length es1 - List.length es2)%nat) in *.
  set (p2 := Player.add_points (5 * Z.of_nat k)
               (Player.update keys (walls (g_room g)) (g_player g1))) in *.
  assert (Hp2 : earned_points p2 = earned_points (g_player g) + 5 * Z.of_nat k)
    by (unfold p2; cbn; rewrite update_points, P1; reflexivity).
  set (p3 := if nonempty (spritecollide (rect p2) e_rect es2)
             then Player.take_damage (g_statics g) p2 else p2) in *.
  assert (Hp3 : earned_points p3 = earned_points (g_player g) + 5 * Z.of_nat k)
    by (unfold p3; destruct (nonempty _);
        [rewrite take_damage_points|]; exact Hp2).
  clearbody p3. clear p2 Hp2.
  split.
  { destruct (is_immune (g_player g3)); cbn;
      destruct (Z.ltb_spec (current_health (g_player g3)) 1); cbn;
      split; intros; (lia || discriminate || reflexivity). }
  exists k.
  assert (Hf : forall gf : game,
             gf = (if is_immune (g_player g3)
                   then with_g_player g3 (GameLoop.blink (g_player g3))
                   else g3) ->
             g_statics gf = g_statics g3 /\ g_room gf = g_room g3
             /\ g_bullets gf = g_bullets g3
             /\ earned_points (g_player gf) = earned_points (g_player g3)
             /\ rect (g_player gf) = rect (g_player g3))
    by (intros gf ->; destruct (is_immune (g_player g3)); cbn; tauto).
  destruct (Hf _ eq_refl) as (F1 & F2 & F3 & F4 & F5).
  rewrite F1, F2, F3, F4, F5. clear Hf F1 F2 F3 F4 F5.
  unfold Game.advance_if_cleared in E4. cbn [g_room enemies] in E4.
  destruct (Nat.eqb_spec (List.length es2) 0) as [L|L].
  - right. apply new_level_inv in E4.
    destruct E4 as (r & s1 & j & Hr & Hu).
    apply room_init_statics in Hr. destruct Hr as (_ & Hlv & _).
    destruct Hu as (U1 & U2 & _ & _ & _ & U6 & U7 & _).
    cbn in U1, U2, U6, U7.
    split; [unfold k; lia|]. split.
    { rewrite U7, Hlv. unfold transition. cbn.
      now rewrite adjust_enemy_stats_level. }
    split; [rewrite U1, Hp3; unfold RoomClass.POINTS; lia|].
    split; [exact U6|]. rewrite U2. reflexivity.
  - left. apply ret_Ok in E4. inversion E4; subst. cbn.
    split; [unfold k; lia|]. split; [reflexivity|].
    split; [exact Hp3|]. split; [reflexivity|]. unfold k. lia.
Qed.

(** X17: what one frame of the game loop does to score and level.  With [k]
    the number of enemies that die in the frame: as long as one enemy is left,
    the level and the walls stay, and the score rises by [5 * k]; when none is
    left the level rises by one, the score by [5 * k + 10], the bullets are
    cleared and the player is put back at the center of the window.  The loop
    goes on exactly when the player's health is at least 1 after the
    frame. *)
Theorem frame_progress
    (hypot : num -> num -> num) (keys : Keys) (mouse : Z * Z) (g : game)
    (i : Input) (g' : game) (running : bool) (i' : Input) :
  GameLoop.frame hypot keys mouse g i = Ok (g', running, i') ->
  (running = true <-> 1 <= current_health (g_player g'))
  /\ exists k : nat,
       ((k < List.length (enemies (g_room g)))%nat
        /\ reached_level (g_statics g') = reached_level (g_statics g)
        /\ earned_points (g_player g')
           = earned_points (g_player g) + 5 * Z.of_nat k
        /\ walls (g_room g') = walls (g_room g)
        /\ List.length (enemies (g_room g'))
           = (List.length (enemies (g_room g)) - k)%nat)
       \/ (k = List.length (enemies (g_room g))
           /\ reached_level (g_statics g') = reached_level (g_statics g) + 1
           /\ earned_points (g_player g')
              = earned_points (g_player g) + 5 * Z.of_nat k + 10
           /\ g_bullets g' = []
           /\ rect (g_player g')
              = set_center (rect (g_player g')) (WIDTH / 2, HEIGHT / 2)).
Proof. apply frame_inv. Qed.

Lemma frame_progress_witness :
  exists g' i',
    GameLoop.frame hypot_binary64 keys_none (5, 5) last_enemy_game
      (mkInput (1 :: 2 :: 3 :: draws example_input) (events example_input))
    = Ok (g', true, i')
    /\ reached_level (g_statics g') = 1
    /\ earned_points (g_player g') = 15
    /\ g_bullets g' = [].
Proof.
  destruct (GameLoop.frame hypot_binary64 keys_none (5, 5) last_enemy_game
              (mkInput (1 :: 2 :: 3 :: draws example_input)
                 (events example_input)))
    as [[[g' running] i']|h] eqn:E; [|vm_compute in E; discriminate].
  destruct (frame_progress _ _ _ _ _ _ _ _ E) as [_ (k & H)].
  assert (Hr : running = true) by (vm_compute in E; now inversion E).
  subst running. exists g', i'. split; [reflexivity|].
  destruct H as [(_ & Hl & _)|(Hk & Hl & Hp & Hb & _)].
  - exfalso. vm_compute in E. inversion E; subst.
    vm_compute in Hl. discriminate Hl.
  - cbn in Hk. subst k. repeat split; assumption.
Defined.

(** ** Starting over *)

(** X18: [setup_game] starts a fresh game whatever the class attributes had
    become in the game before: the enemy tier, the level and the bullet speed
    are back at their initial values, the player has the initial health,
    damage, cooldown and speed and no points, no bullet is in flight, and the
    first room is not a boss room: it has between one and three enemies of
    class [Enemy] with the initial health and speed. *)
Theorem setup_game_resets
    (a : Assets) (s : Statics) (i : Input) (g : game) (i' : Input) :
  Game.setup_game a s i = Ok (g, i') ->
  tier (g_statics g) = (PInt 3, PFloat 1.5, PInt 1)
  /\ reached_level (g_statics g) = 0
  /\ bullet_speed (g_statics g) = PInt 7
  /\ (current_health (g_player g) = 3 /\ max_health (g_player g) = 3
      /\ damage (g_player g) = 1 /\ speed (g_player g) = PInt 3
      /\ shoot_cooldown_set (g_player g) = 20
      /\ shoot_cooldown (g_player g) = 0
      /\ earned_points (g_player g) = 0 /\ is_immune (g_player g) = false)
  /\ g_bullets g = []
  /\ (1 <= List.length (enemies (g_room g)) <= 3)%nat
  /\ Forall (fun e => e_class e = IsEnemy /\ e_health e = PInt 3
                      /\ e_speed e = PFloat 1.5)
       (enemies (g_room g)).
Proof.
  intros H. pose proof (setup_game_statics _ _ _ _ _ H) as (Ht & Hl & Hb).
  split; [exact Ht|]. split; [exact Hl|]. split; [exact Hb|].
  unfold Game.setup_game in H. cbv zeta in H.
  inv_bind H as rs j E. destruct rs as [r s1].
  apply ret_Ok in H. inversion H; subst; clear H.
  split; [cbn; repeat split|]. split; [reflexivity|].
  cbn [g_room g_statics] in *.
  apply room_init_parts in E.
  destruct E as (-> & nw & ne & j1 & j2 & j3 & _ & _ & Hne & Ee).
  change (boss_room _) with false in Ee.
  change (int_div _ 2) with (int_div 0 2) in Hne.
  replace (int_div 0 2) with 0 in Hne by (vm_compute; reflexivity).
  apply spawn_enemies_plain in Ee. destruct Ee as (new & -> & Hn & Hf).
  cbn [app]. rewrite Hn. split; [lia|].
  eapply Forall_impl; [|exact Hf].
  intros e (x & y & _ & _ & ->). repeat split.
Qed.

Lemma setup_game_resets_witness :
  exists g i',
    Game.setup_game example_assets (transitions 7 session_start)
      example_input = Ok (g, i')
    /\ tier (g_statics g) = (PInt 3, PFloat 1.5, PInt 1)
    /\ reached_level (g_statics g) = 0
    /\ List.length (enemies (g_room g)) = 1%nat.
Proof.
  destruct (Game.setup_game example_assets (transitions 7 session_start)
              example_input) as [[g i']|h] eqn:E;
    [|vm_compute in E; discriminate].
  exists g, i'. split; [reflexivity|].
  destruct (setup_game_resets _ _ _ _ _ E) as (Ht & Hl & _).
  split; [exact Ht|]. split; [exact Hl|].
  vm_compute in E. inversion E; subst. reflexivity.
Defined.

(** ** The whole loop *)

Lemma frames_inv (hypot : num -> num -> num) (P : game -> Prop) :
  (forall keys mouse g i g' running i',
      GameLoop.frame hypot keys mouse g i = Ok (g', running, i') ->
      P g -> P g') ->
  forall (inputs : list (Keys * (Z * Z))) (g : game) (i : Input) (g' : game)
         (running : bool) (i' : Input),
    GameLoop.frames hypot inputs g i = Ok (g', running, i') -> P g -> P g'.
Proof.
  intros Hstep. induction inputs as [|[keys mouse] inputs IH];
    intros g i g' running i' H Hg.
  - apply ret_Ok in H. now inversion H; subst.
  - cbn [GameLoop.frames] in H. inv_bind H as r1 i1 E.
    destruct r1 as [g1 running1]. apply Hstep in E; [|exact Hg].
    destruct running1.
    + eapply IH; eauto.
    + apply ret_Ok in H. now inversion H; subst.
Qed.

(** X19: over any number of frames of the game loop the level never goes
    down and the score never goes down; the score gains at least 10 points
    for each level gained. *)
Theorem score_and_level_never_drop
    (hypot : num -> num -> num) (inputs : list (Keys * (Z * Z))) (g : game)
    (i : Input) (g' : game) (running : bool) (i' : Input) :
  GameLoop.frames hypot inputs g i = Ok (g', running, i') ->
  reached_level (g_statics g) <= reached_level (g_statics g')
  /\ earned_points (g_player g) <= earned_points (g_player g')
  /\ earned_points (g_player g)
     + 10 * (reached_level (g_statics g') - reached_level (g_statics g))
     <= earned_points (g_player g').
Proof.
  intros H.
  apply (frames_inv hypot
           (fun g1 =>
              reached_level (g_statics g) <= reached_level (g_statics g1)
              /\ earned_points (g_player g) <= earned_points (g_player g1)
              /\ earned_points (g_player g)
                 + 10 * (reached_level (g_statics g1)
                         - reached_level (g_statics g))
                 <= earned_points (g_player g1)))
    with (g := g) in H; [exact H| |lia].
  clear. intros keys mouse g1 i g2 running i' E (H1 & H2 & H3).
  apply frame_inv in E. destruct E as [_ (k & [E|E])].
  - destruct E as (_ & -> & -> & _). lia.
  - destruct E as (_ & -> & -> & _). lia.
Qed.

Lemma score_and_level_never_drop_witness :
  exists g' i',
    GameLoop.frames hypot_binary64
      [(keys_none, (5, 5)); (keys_right, (600, 100))] last_enemy_game
      (mkInput (1 :: 2 :: 3 :: draws example_input ++ [4; 5; 6])
         [ [OtherEvent; MOUSEBUTTONDOWN (5, 5) 1];
           [KEYDOWN 32; MOUSEBUTTONDOWN (100, 200) 1];
           [MOUSEBUTTONDOWN (600, 100) 1] ])
    = Ok (g', true, i')
    /\ reached_level (g_statics g') = 1
    /\ 10 <= earned_points (g_player g').
Proof.
  destruct (GameLoop.frames hypot_binary64
              [(keys_none, (5, 5)); (keys_right, (600, 100))] last_enemy_game
              (mkInput (1 :: 2 :: 3 :: draws example_input ++ [4; 5; 6])
                 [ [OtherEvent; MOUSEBUTTONDOWN (5, 5) 1];
                   [KEYDOWN 32; MOUSEBUTTONDOWN (100, 200) 1];
                   [MOUSEBUTTONDOWN (600, 100) 1] ]))
    as [[[g' running] i']|h] eqn:E; [|vm_compute in E; discriminate].
  destruct (score_and_level_never_drop _ _ _ _ _ _ _ E) as (_ & _ & Hp).
  assert (Hr : running = true /\ reached_level (g_statics g') = 1)
    by (vm_compute in E; inversion E; split; reflexivity).
  destruct Hr as [-> Hl]. exists g', i'. split; [reflexivity|].
  split; [exact Hl|]. rewrite Hl in Hp. cbn in Hp. lia.
Defined.

Lemma stats_capped_same (g g' : game) :
  same_stats (g_player g') (g_player g) ->
  bullet_speed (g_statics g') = bullet_speed (g_statics g) ->
  stats_capped g -> stats_capped g'.
Proof.
  unfold same_stats, stats_capped. intros (-> & -> & -> & ->) ->. tauto.
Qed.

Lemma update_same_stats (keys : Keys) (ws : list Rect) (p : player) :
  same_stats (Player.update keys ws p) p.
Proof.
  destruct (update_shape keys ws p) as [r ->]. cbv zeta.
  unfold same_stats.
  destruct (0 <? _); unfold Player.tick_immunity;
    destruct (is_immune p); cbn; try destruct (_ <=? 0); cbn; tauto.
Qed.

Lemma take_damage_same_stats (s : Statics) (p : player) :
  same_stats (Player.take_damage s p) p.
Proof.
  unfold same_stats, Player.take_damage.
  destruct (negb (is_immune p)); [|tauto]. destruct (_ =? 0); cbn; tauto.
Qed.

Lemma adjust_enemy_stats_bullet_speed (s : Statics) :
  bullet_speed (Game.adjust_enemy_stats s) = bullet_speed s.
Proof.
  unfold Game.adjust_enemy_stats. destruct (negb _); [|reflexivity].
  cbv zeta. now destruct (py_lt _ _).
Qed.

Lemma apply_offers_keeps_caps (picks : list upgrade) :
  forall (og : option game) (g' : game),
    fold_left apply_offer picks og = Some g' ->
    (forall g, og = Some g -> stats_capped g) -> stats_capped g'.
Proof.
  induction picks as [|u picks IH]; intros og g' H Hg; [now apply Hg|].
  cbn [fold_left] in H. eapply IH; [exact H|].
  intros g1 E. destruct og as [g|]; [|discriminate]. cbn in E.
  destruct (Upgrade.activate u g) as [g2|] eqn:Ea; [|discriminate].
  inversion E; subst.
  assert (H2 : stats_capped g2)
    by (eapply activate_keeps_caps; [apply Hg; reflexivity|exact Ea]).
  exact H2.
Qed.

Lemma upgrade_keeps_caps (g : game) (i : Input) (g' : game) (i' : Input) :
  Game.upgrade g i = Ok (g', i') -> stats_capped g -> stats_capped g'.
Proof.
  unfold Game.upgrade. intros H Hg. inv_bind H as offers i1 E.
  destruct (upgrade_wait_picks offers _ g g i1 g' i' [] (Forall_nil _)
              eq_refl H) as (_ & picks & _ & P).
  eapply apply_offers_keeps_caps; [exact P|].
  intros g1 E1. now inversion E1; subst.
Qed.

Lemma new_level_keeps_caps (g : game) (i : Input) (g' : game) (i' : Input) :
  Game.new_level g i = Ok (g', i') -> stats_capped g -> stats_capped g'.
Proof.
  unfold Game.new_level. intros H Hg. inv_bind H as rs j E.
  destruct rs as [r s1]. apply room_init_statics in E.
  destruct E as (_ & _ & Hb). cbv zeta in H. revert H. cbn [g_difficulty].
  destruct (g_difficulty g + 1 =? 0); [discriminate|].
  assert (Hc : forall c,
             stats_capped
               (mkGame
                  (with_immunity_timer
                     (Player.resetLocation
                        (Player.add_points RoomClass.POINTS (g_player g))) 0)
                  [] r c (g_difficulty g) (g_save_zone_range g) s1
                  (g_assets g))).
  { intros c. eapply stats_capped_same; [| |exact Hg].
    - unfold same_stats. cbn. tauto.
    - cbn [g_statics]. rewrite Hb. cbn.
      apply adjust_enemy_stats_bullet_speed. }
  destruct (_ =? 0); intros H.
  - eapply upgrade_keeps_caps; [exact H|]. apply Hc.
  - apply ret_Ok in H. inversion H; subst. apply Hc.
Qed.

Lemma frame_keeps_caps (hypot : num -> num -> num) (keys : Keys)
    (mouse : Z * Z) (g : game) (i : Input) (g' : game) (running : bool)
    (i' : Input) :
  GameLoop.frame hypot keys mouse g i = Ok (g', running, i') ->
  stats_capped g -> stats_capped g'.
Proof.
  unfold GameLoop.frame. intros H Hg.
  inv_bind H as batch i1 E0. inv_bind H as g1 i2 E1.
  apply lift_Ok in E1. destruct E1 as [E1 ->].
  apply handle_events_frame in E1.
  destruct E1 as (R1 & S1 & _ & _ & _ & _ & P1).
  assert (Hs1 : same_stats (g_player g1) (g_player g)).
  { unfold same_stats.
    pose proof (f_equal damage P1) as D. pose proof (f_equal max_health P1) as D2.
    pose proof (f_equal shoot_cooldown_set P1) as D3.
    pose proof (f_equal speed P1) as D4. cbn in D, D2, D3, D4. tauto. }
  cbv zeta in H. rewrite R1, S1 in H.
  destruct (bullets_update _ _ _ _) as [bullets es1].
  inv_bind H as r3 i3 E3. destruct r3 as [es2 p2].
  apply group_update_inv in E3. destruct E3 as (_ & _ & ->).
  inv_bind H as g3 i4 E4. apply ret_Ok in H. inversion H; subst; clear H.
  assert (H3 : stats_capped g3).
  { unfold Game.advance_if_cleared in E4.
    match type of E4 with
    | (if _ then Game.new_level ?g2 else _) _ = _ =>
        assert (H2 : stats_capped g2)
    end.
    { eapply stats_capped_same; [| |exact Hg]; [|cbn; reflexivity].
      cbn [g_player].
      pose proof (update_same_stats keys (walls (g_room g)) (g_player g1))
        as U.
      match goal with
      | |- same_stats (if ?c then Player.take_damage ?s ?p else ?p) _ =>
          pose proof (take_damage_same_stats s p) as T; destruct c
      end; unfold same_stats in *; cbn in *; intuition congruence. }
    destruct (_ =? _)%nat.
    - eapply new_level_keeps_caps; eauto.
    - apply ret_Ok in E4. now inversion E4; subst. }
  destruct (is_immune (g_player g3)); [|exact H3].
  eapply stats_capped_same; [| |exact H3]; [|reflexivity].
  unfold same_stats. cbn. tauto.
Qed.

(** X20: throughout a game, from [setup_game] on and over any number of
    frames with their level changes and upgrade choices, the player's damage
    is at most 10, the maximum health at most 21, the speed at most 15, the
    bullet speed at most 30 and the cooldown setting at least 1. *)
Theorem caps_hold_through_game
    (hypot : num -> num -> num) (a : Assets) (s : Statics) (i0 : Input)
    (g0 : game) (i1 : Input) (inputs : list (Keys * (Z * Z))) (g' : game)
    (running : bool) (i' : Input) :
  Game.setup_game a s i0 = Ok (g0, i1) ->
  GameLoop.frames hypot inputs g0 i1 = Ok (g', running, i') ->
  stats_capped g'.
Proof.
  intros H0 H. eapply (frames_inv hypot stats_capped); [|exact H|].
  - intros. eapply frame_keeps_caps; eauto.
  - pose proof (setup_game_statics _ _ _ _ _ H0) as (_ & _ & Hb).
    unfold Game.setup_game in H0. cbv zeta in H0.
    inv_bind H0 as rs j E. destruct rs as [r s1].
    apply ret_Ok in H0. inversion H0; subst; clear H0.
    unfold stats_capped. cbn [g_statics] in *. rewrite Hb. cbn.
    repeat split; try reflexivity; discriminate.
Qed.

Lemma caps_hold_through_game_witness :
  exists g0 i1 g' i',
    Game.setup_game example_assets (transitions 7 session_start)
      (mkInput (draws example_input ++ [1; 2; 3; 4; 5; 6; 7; 8; 9])
         (events example_input))
    = Ok (g0, i1)
    /\ GameLoop.frames hypot_binary64 [(keys_right, (5, 5))] g0 i1
       = Ok (g', true, i')
    /\ stats_capped g'.
Proof.
  destruct (Game.setup_game example_assets (transitions 7 session_start)
              (mkInput (draws example_input ++ [1; 2; 3; 4; 5; 6; 7; 8; 9])
                 (events example_input)))
    as [[g0 i1]|h] eqn:E0; [|vm_compute in E0; discriminate].
  destruct (GameLoop.frames hypot_binary64 [(keys_right, (5, 5))] g0 i1)
    as [[[g' running] i']|h] eqn:E1.
  - assert (Hr : running = true).
    { vm_compute in E0. inversion E0; subst. vm_compute in E1.
      now inversion E1. }
    subst running. exists g0, i1, g', i'. split; [reflexivity|].
    split; [exact E1|].
    exact (caps_hold_through_game _ _ _ _ _ _ _ _ _ _ E0 E1).
  - exfalso. vm_compute in E0. inversion E0; subst. vm_compute in E1.
    discriminate.
Defined.
